(** * AURA live session: a shallow embedding of [components/LiveInterface.tsx]

    The component keeps its session in React state cells ([useState]),
    mutable refs ([useRef]) and browser resources (audio contexts, media
    streams, interval timers, the duplex transport).  The embedding keeps
    the three apart:

    - [UiState] holds the [useState] cells;
    - [Refs] holds the [useRef] cells;
    - [Browser] holds what lives outside the component: which audio
      contexts are open, which media streams still have live tracks, which
      interval timers are installed (with the session promise each tick
      closure captured), the transport connections with the values their
      callbacks closed over, and the trace of calls made on browser and
      transport objects.

    Handlers are written in a state-and-exception monad so that [throw],
    [try]/[catch] and early [return] read as in the source.  An [async]
    handler is run to completion: its [await]s are taken to settle before
    the next event is dispatched.  Answers of the outside world that a
    handler reads (the credential, the outcome of a device request, the
    playback clock, the decoded duration of a chunk) travel with the event
    in an [Env], a [Message] argument or a [VideoProbe].

    Time on the playback timeline is counted in sample frames of the
    output context: both [currentTime] and a buffer's [duration] are a
    frame count over the sample rate, so [Z] carries them exactly.

    Not modelled: DOM layout and the analyser/oscillator wiring.  The
    volume sample of the event loop takes the two spectrum averages as
    event inputs; [updateVolumeFrom] computes them from the analyser
    bytes.

    The research service ([services/gemini.ts]) and the research chat
    ([components/ChatInterface.tsx]) follow the live session; the chat is
    a pure state machine over its own events. *)

From Stdlib Require Import String Ascii List ZArith QArith Bool Lia.
Import ListNotations.
Open Scope string_scope.
Open Scope list_scope.
Open Scope Z_scope.

(** ** Data model *)

(** ['camera' | 'screen'] *)
Inductive VideoType : Type := camera | screen.

Definition VideoType_eqb (a b : VideoType) : bool :=
  match a, b with
  | camera, camera | screen, screen => true
  | _, _ => false
  end.

(** Browser objects are compared by identity; a handle is that identity.
    Interval ids are positive integers in the browser, hence truthy. *)
Definition Handle := positive.

(** A thrown value: [e.name] and [e.message]. *)
Record JsError : Type := mkError { name : string; message : option string }.

(** [new Error(msg)] *)
Definition Error (msg : string) : JsError := mkError "Error" (Some msg).

(** Outcome of a promise the handler awaits. *)
Inductive Outcome : Type :=
| Fulfilled
| Rejected (e : JsError).

(** What the outside world answers while one handler runs. *)
Record Env : Type := mkEnv {
  API_KEY : option string;     (* process.env.API_KEY *)
  micRequest : Outcome;        (* getUserMedia({ audio: true }) *)
  videoRequest : Outcome;      (* getUserMedia({ video }) / getDisplayMedia *)
  playResult : Outcome;        (* videoRef.current.play() *)
  canvas2d : bool;             (* canvasRef.current && canvas.getContext('2d') *)
  inputMean : Q;               (* the mean of inputDataArray that updateVolume() of onopen computes *)
  outputMean : Q               (* the mean of outputDataArray there *)
}.

(** [msg.serverContent] of a [LiveServerMessage], reduced to the three
    paths the handler reads. *)
Record Message : Type := mkMessage {
  inputTranscription : option string; (* ?.inputTranscription?.text *)
  inlineData : option string;         (* ?.modelTurn?.parts?.[0]?.inlineData?.data *)
  interrupted : bool                  (* ?.interrupted *)
}.

(** The video element as a frame tick sees it. *)
Record VideoProbe : Type := mkProbe {
  paused : bool;
  ended : bool;
  videoWidth : Z;
  videoHeight : Z;
  frameData : string   (* canvas.toDataURL('image/jpeg', 0.5).split(',')[1] *)
}.

(** The [<video>] element behind [videoRef]. *)
Record VideoElement : Type := mkVideo { srcObject : option Handle }.

(** Payload of [session.sendRealtimeInput({ media })]. *)
Inductive Media : Type :=
| PcmBlob (blob : string)     (* createPcmBlob(inputData) *)
| JpegFrame (data : string).  (* { data: base64, mimeType: 'image/jpeg' } *)

(** Calls made on browser and transport objects, in program order. *)
Inductive Effect : Type :=
| NewAudioContext (ctx : Handle) (sampleRate : Z)
| CloseAudioContext (ctx : Handle)
| GetUserMediaAudio (stream : Handle)
| GetUserMediaVideo (stream : Handle)
| GetDisplayMedia (stream : Handle)
| StopTracks (stream : Handle)
| VideoPlay (stream : Handle)
| LiveConnect (session : Handle)
| SendRealtimeInput (session : Handle) (media : Media) (* sessionPromise.then(s => s.sendRealtimeInput(..)) *)
| SetInterval (timer : Handle) (ms : Z)
| ClearInterval (timer : Handle)
| DrawImage (width height : Z)
| SourceStart (source : Handle) (when duration : Z)
| SourceStop (source : Handle)
| ActivationPing (ctx : Handle).

Inductive ConnStatus : Type := Connecting | Established | Terminated.

(** One call of [ai.live.connect] together with what its callbacks
    closed over in [connectToLive]. *)
Record Conn : Type := mkConn {
  conn_session : Handle;      (* sessionPromise *)
  conn_inputCtx : Handle;     (* the context that owns [processor] *)
  conn_micStream : Handle;    (* micStream *)
  conn_isMuted : bool;        (* the [isMuted] of the render that called connectToLive *)
  conn_onaudioprocess : bool; (* processor.onaudioprocess installed and wired *)
  conn_status : ConnStatus
}.

Record UiState : Type := mkUi {
  isConnected : bool;
  isMuted : bool;
  volumeLevel : Q;
  outputVolume : Q;
  videoSource : option VideoType;
  error : option string;
  isSleepMode : bool;
  pendingAction : option VideoType;
  isAiSpeaking : bool
}.

Record Refs : Type := mkRefs {
  audioContextRef : option Handle;
  inputContextRef : option Handle;
  nextStartTimeRef : Z;
  sourcesRef : list Handle;        (* a JS Set: insertion order, no duplicates *)
  sessionRef : option Handle;
  isSleepModeRef : bool;
  videoSourceRef : option VideoType;
  videoRef : option VideoElement;
  streamRef : option Handle;
  frameIntervalRef : option Handle
}.

Record Browser : Type := mkBrowser {
  fresh : Handle;                    (* next unused identity *)
  openContexts : list Handle;
  liveStreams : list Handle;         (* streams whose tracks are live *)
  timers : list (Handle * Handle);   (* installed intervals, with the captured session *)
  conns : list Conn;
  log : list Effect
}.

Record World : Type := mkWorld { ui : UiState; refs : Refs; browser : Browser }.

Definition with_isConnected (v : bool) (x : UiState) : UiState :=
  {| isConnected := v; isMuted := isMuted x; volumeLevel := volumeLevel x; outputVolume := outputVolume x; videoSource := videoSource x; error := error x; isSleepMode := isSleepMode x; pendingAction := pendingAction x; isAiSpeaking := isAiSpeaking x |}.
Definition with_isMuted (v : bool) (x : UiState) : UiState :=
  {| isConnected := isConnected x; isMuted := v; volumeLevel := volumeLevel x; outputVolume := outputVolume x; videoSource := videoSource x; error := error x; isSleepMode := isSleepMode x; pendingAction := pendingAction x; isAiSpeaking := isAiSpeaking x |}.
Definition with_volumeLevel (v : Q) (x : UiState) : UiState :=
  {| isConnected := isConnected x; isMuted := isMuted x; volumeLevel := v; outputVolume := outputVolume x; videoSource := videoSource x; error := error x; isSleepMode := isSleepMode x; pendingAction := pendingAction x; isAiSpeaking := isAiSpeaking x |}.
Definition with_outputVolume (v : Q) (x : UiState) : UiState :=
  {| isConnected := isConnected x; isMuted := isMuted x; volumeLevel := volumeLevel x; outputVolume := v; videoSource := videoSource x; error := error x; isSleepMode := isSleepMode x; pendingAction := pendingAction x; isAiSpeaking := isAiSpeaking x |}.
Definition with_videoSource (v : option VideoType) (x : UiState) : UiState :=
  {| isConnected := isConnected x; isMuted := isMuted x; volumeLevel := volumeLevel x; outputVolume := outputVolume x; videoSource := v; error := error x; isSleepMode := isSleepMode x; pendingAction := pendingAction x; isAiSpeaking := isAiSpeaking x |}.
Definition with_error (v : option string) (x : UiState) : UiState :=
  {| isConnected := isConnected x; isMuted := isMuted x; volumeLevel := volumeLevel x; outputVolume := outputVolume x; videoSource := videoSource x; error := v; isSleepMode := isSleepMode x; pendingAction := pendingAction x; isAiSpeaking := isAiSpeaking x |}.
Definition with_isSleepMode (v : bool) (x : UiState) : UiState :=
  {| isConnected := isConnected x; isMuted := isMuted x; volumeLevel := volumeLevel x; outputVolume := outputVolume x; videoSource := videoSource x; error := error x; isSleepMode := v; pendingAction := pendingAction x; isAiSpeaking := isAiSpeaking x |}.
Definition with_pendingAction (v : option VideoType) (x : UiState) : UiState :=
  {| isConnected := isConnected x; isMuted := isMuted x; volumeLevel := volumeLevel x; outputVolume := outputVolume x; videoSource := videoSource x; error := error x; isSleepMode := isSleepMode x; pendingAction := v; isAiSpeaking := isAiSpeaking x |}.
Definition with_isAiSpeaking (v : bool) (x : UiState) : UiState :=
  {| isConnected := isConnected x; isMuted := isMuted x; volumeLevel := volumeLevel x; outputVolume := outputVolume x; videoSource := videoSource x; error := error x; isSleepMode := isSleepMode x; pendingAction := pendingAction x; isAiSpeaking := v |}.
Definition with_audioContextRef (v : option Handle) (x : Refs) : Refs :=
  {| audioContextRef := v; inputContextRef := inputContextRef x; nextStartTimeRef := nextStartTimeRef x; sourcesRef := sourcesRef x; sessionRef := sessionRef x; isSleepModeRef := isSleepModeRef x; videoSourceRef := videoSourceRef x; videoRef := videoRef x; streamRef := streamRef x; frameIntervalRef := frameIntervalRef x |}.
Definition with_inputContextRef (v : option Handle) (x : Refs) : Refs :=
  {| audioContextRef := audioContextRef x; inputContextRef := v; nextStartTimeRef := nextStartTimeRef x; sourcesRef := sourcesRef x; sessionRef := sessionRef x; isSleepModeRef := isSleepModeRef x; videoSourceRef := videoSourceRef x; videoRef := videoRef x; streamRef := streamRef x; frameIntervalRef := frameIntervalRef x |}.
Definition with_nextStartTimeRef (v : Z) (x : Refs) : Refs :=
  {| audioContextRef := audioContextRef x; inputContextRef := inputContextRef x; nextStartTimeRef := v; sourcesRef := sourcesRef x; sessionRef := sessionRef x; isSleepModeRef := isSleepModeRef x; videoSourceRef := videoSourceRef x; videoRef := videoRef x; streamRef := streamRef x; frameIntervalRef := frameIntervalRef x |}.
Definition with_sourcesRef (v : list Handle) (x : Refs) : Refs :=
  {| audioContextRef := audioContextRef x; inputContextRef := inputContextRef x; nextStartTimeRef := nextStartTimeRef x; sourcesRef := v; sessionRef := sessionRef x; isSleepModeRef := isSleepModeRef x; videoSourceRef := videoSourceRef x; videoRef := videoRef x; streamRef := streamRef x; frameIntervalRef := frameIntervalRef x |}.
Definition with_sessionRef (v : option Handle) (x : Refs) : Refs :=
  {| audioContextRef := audioContextRef x; inputContextRef := inputContextRef x; nextStartTimeRef := nextStartTimeRef x; sourcesRef := sourcesRef x; sessionRef := v; isSleepModeRef := isSleepModeRef x; videoSourceRef := videoSourceRef x; videoRef := videoRef x; streamRef := streamRef x; frameIntervalRef := frameIntervalRef x |}.
Definition with_isSleepModeRef (v : bool) (x : Refs) : Refs :=
  {| audioContextRef := audioContextRef x; inputContextRef := inputContextRef x; nextStartTimeRef := nextStartTimeRef x; sourcesRef := sourcesRef x; sessionRef := sessionRef x; isSleepModeRef := v; videoSourceRef := videoSourceRef x; videoRef := videoRef x; streamRef := streamRef x; frameIntervalRef := frameIntervalRef x |}.
Definition with_videoSourceRef (v : option VideoType) (x : Refs) : Refs :=
  {| audioContextRef := audioContextRef x; inputContextRef := inputContextRef x; nextStartTimeRef := nextStartTimeRef x; sourcesRef := sourcesRef x; sessionRef := sessionRef x; isSleepModeRef := isSleepModeRef x; videoSourceRef := v; videoRef := videoRef x; streamRef := streamRef x; frameIntervalRef := frameIntervalRef x |}.
Definition with_videoRef (v : option VideoElement) (x : Refs) : Refs :=
  {| audioContextRef := audioContextRef x; inputContextRef := inputContextRef x; nextStartTimeRef := nextStartTimeRef x; sourcesRef := sourcesRef x; sessionRef := sessionRef x; isSleepModeRef := isSleepModeRef x; videoSourceRef := videoSourceRef x; videoRef := v; streamRef := streamRef x; frameIntervalRef := frameIntervalRef x |}.
Definition with_streamRef (v : option Handle) (x : Refs) : Refs :=
  {| audioContextRef := audioContextRef x; inputContextRef := inputContextRef x; nextStartTimeRef := nextStartTimeRef x; sourcesRef := sourcesRef x; sessionRef := sessionRef x; isSleepModeRef := isSleepModeRef x; videoSourceRef := videoSourceRef x; videoRef := videoRef x; streamRef := v; frameIntervalRef := frameIntervalRef x |}.
Definition with_frameIntervalRef (v : option Handle) (x : Refs) : Refs :=
  {| audioContextRef := audioContextRef x; inputContextRef := inputContextRef x; nextStartTimeRef := nextStartTimeRef x; sourcesRef := sourcesRef x; sessionRef := sessionRef x; isSleepModeRef := isSleepModeRef x; videoSourceRef := videoSourceRef x; videoRef := videoRef x; streamRef := streamRef x; frameIntervalRef := v |}.
Definition with_fresh (v : Handle) (x : Browser) : Browser :=
  {| fresh := v; openContexts := openContexts x; liveStreams := liveStreams x; timers := timers x; conns := conns x; log := log x |}.
Definition with_openContexts (v : list Handle) (x : Browser) : Browser :=
  {| fresh := fresh x; openContexts := v; liveStreams := liveStreams x; timers := timers x; conns := conns x; log := log x |}.
Definition with_liveStreams (v : list Handle) (x : Browser) : Browser :=
  {| fresh := fresh x; openContexts := openContexts x; liveStreams := v; timers := timers x; conns := conns x; log := log x |}.
Definition with_timers (v : list (Handle * Handle)) (x : Browser) : Browser :=
  {| fresh := fresh x; openContexts := openContexts x; liveStreams := liveStreams x; timers := v; conns := conns x; log := log x |}.
Definition with_conns (v : list Conn) (x : Browser) : Browser :=
  {| fresh := fresh x; openContexts := openContexts x; liveStreams := liveStreams x; timers := timers x; conns := v; log := log x |}.
Definition with_log (v : list Effect) (x : Browser) : Browser :=
  {| fresh := fresh x; openContexts := openContexts x; liveStreams := liveStreams x; timers := timers x; conns := conns x; log := v |}.

Definition on_ui (f : UiState -> UiState) (w : World) : World :=
  {| ui := f (ui w); refs := refs w; browser := browser w |}.
Definition on_refs (f : Refs -> Refs) (w : World) : World :=
  {| ui := ui w; refs := f (refs w); browser := browser w |}.
Definition on_browser (f : Browser -> Browser) (w : World) : World :=
  {| ui := ui w; refs := refs w; browser := f (browser w) |}.

(** The component as first mounted. *)
Definition initial : World :=
  {| ui := mkUi false false 0%Q 0%Q None None false None false;
     refs := mkRefs None None 0 [] None false None (Some (mkVideo None)) None None;
     browser := mkBrowser 1%positive [] [] [] [] [] |}.

(** ** The handler monad *)

Definition M (A : Type) : Type := World -> World * (JsError + A).

Definition ret {A} (a : A) : M A := fun w => (w, inr a).

Definition bind {A B} (c : M A) (k : A -> M B) : M B :=
  fun w => match c w with
           | (w', inr a) => k a w'
           | (w', inl e) => (w', inl e)
           end.

Definition throw {A} (e : JsError) : M A := fun w => (w, inl e).

Definition try_catch {A} (c : M A) (handler : JsError -> M A) : M A :=
  fun w => match c w with
           | (w', inl e) => handler e w'
           | r => r
           end.

Definition gets {A} (f : World -> A) : M A := fun w => (w, inr (f w)).
Definition modify (f : World -> World) : M unit := fun w => (f w, inr tt).

Declare Scope js_scope.
Delimit Scope js_scope with js.
Notation "x <- c ;; k" := (bind c (fun x => k))
  (at level 61, c at next level, right associativity) : js_scope.
Notation "c ;; k" := (bind c (fun _ => k))
  (at level 61, right associativity) : js_scope.
Open Scope js_scope.

Definition skip : M unit := ret tt.

(** State after running a handler; an exception that escapes an event
    handler is reported by the browser and otherwise lost. *)
Definition exec {A} (c : M A) (w : World) : World := fst (c w).

(** [xs.forEach(f)] *)
Fixpoint forEach {A} (xs : list A) (f : A -> M unit) : M unit :=
  match xs with
  | [] => skip
  | x :: rest => f x ;; forEach rest f
  end.

(** [await p] for a promise whose outcome the event carries. *)
Definition await (o : Outcome) : M unit :=
  match o with
  | Fulfilled => skip
  | Rejected e => throw e
  end.

(** *** Browser primitives *)

Definition emit (e : Effect) : M unit :=
  modify (on_browser (fun b => with_log (log b ++ [e]) b)).

Definition alloc : M Handle :=
  h <- gets (fun w => fresh (browser w)) ;;
  modify (on_browser (with_fresh (Pos.succ h))) ;;
  ret h.

Definition remove_handle (h : Handle) (l : list Handle) : list Handle :=
  filter (fun x => negb (Pos.eqb x h)) l.

Definition mem_handle (h : Handle) (l : list Handle) : bool :=
  existsb (Pos.eqb h) l.

(** [new AudioContext({ sampleRate })] *)
Definition newAudioContext (sampleRate : Z) : M Handle :=
  c <- alloc ;;
  modify (on_browser (fun b => with_openContexts (openContexts b ++ [c]) b)) ;;
  emit (NewAudioContext c sampleRate) ;;
  ret c.

(** [ctx.close()] *)
Definition closeContext (c : Handle) : M unit :=
  modify (on_browser (fun b => with_openContexts (remove_handle c (openContexts b)) b)) ;;
  emit (CloseAudioContext c).

(** A device request: rejects with the carried error, or yields a fresh
    live stream. *)
Definition requestStream (o : Outcome) (call : Handle -> Effect) : M Handle :=
  await o ;;
  m <- alloc ;;
  modify (on_browser (fun b => with_liveStreams (liveStreams b ++ [m]) b)) ;;
  emit (call m) ;;
  ret m.

(** [stream.getTracks().forEach(t => t.stop())] *)
Definition stopTracks (m : Handle) : M unit :=
  modify (on_browser (fun b => with_liveStreams (remove_handle m (liveStreams b)) b)) ;;
  emit (StopTracks m).

(** [window.setInterval(tick, ms)], the tick closing over [session]. *)
Definition setInterval (session : Handle) (ms : Z) : M Handle :=
  t <- alloc ;;
  modify (on_browser (fun b => with_timers (timers b ++ [(t, session)]) b)) ;;
  emit (SetInterval t ms) ;;
  ret t.

(** [clearInterval(t)] *)
Definition clearInterval (t : Handle) : M unit :=
  modify (on_browser (fun b =>
    with_timers (filter (fun ts => negb (Pos.eqb (fst ts) t)) (timers b)) b)) ;;
  emit (ClearInterval t).

(** *** Cells *)

Definition setIsConnected v : M unit := modify (on_ui (with_isConnected v)).
Definition setIsMuted v : M unit := modify (on_ui (with_isMuted v)).
Definition setVolumeLevel v : M unit := modify (on_ui (with_volumeLevel v)).
Definition setOutputVolume v : M unit := modify (on_ui (with_outputVolume v)).
Definition setVideoSource v : M unit := modify (on_ui (with_videoSource v)).
Definition setError v : M unit := modify (on_ui (with_error v)).
Definition setIsSleepMode v : M unit := modify (on_ui (with_isSleepMode v)).
Definition setPendingAction v : M unit := modify (on_ui (with_pendingAction v)).
Definition setIsAiSpeaking v : M unit := modify (on_ui (with_isAiSpeaking v)).

Definition rd {A} (f : Refs -> A) : M A := gets (fun w => f (refs w)).
Definition wr (f : Refs -> Refs) : M unit := modify (on_refs f).

(** ** Strings

    A transcript is kept as its UTF-8 bytes.  Substring search on UTF-8
    bytes of well-formed text agrees with search on code units, because no
    encoded character is a suffix-prefix overlap of two others. *)

(** [s.includes(pat)] *)
Fixpoint includes (pat s : string) : bool :=
  String.prefix pat s ||
  match s with
  | EmptyString => false
  | String _ rest => includes pat rest
  end.

(** *** [String.prototype.toLowerCase]

    The method lowercases by the locale-insensitive mappings of the
    Unicode Character Database: the simple mappings, the one
    unconditional special mapping that lengthens the text (U+0130 to
    U+0069 U+0307) and the Final_Sigma rule for U+03A3; the tables below
    are those of Unicode 14.0.  The transcript
    being kept as UTF-8, the text is decoded to code points, mapped and
    encoded again.  A byte that starts no well-formed sequence stands for
    itself (as [0x110000] plus the byte); a JS string has none. *)

Definition rawByte (b : Z) : Z := 0x110000 + b.

Definition byteOf (a : ascii) : Z := Z.of_nat (nat_of_ascii a).

Definition continuation (b : Z) : bool := (0x80 <=? b) && (b <=? 0xBF).

(** The code points of well-formed UTF-8 (shortest form, no surrogates). *)
Fixpoint decodeUtf8 (s : string) : list Z :=
  match s with
  | EmptyString => []
  | String a r =>
      let x := byteOf a in
      if x <? 0x80 then x :: decodeUtf8 r
      else
        match r with
        | String b r1 =>
            let y := byteOf b in
            if (0xC2 <=? x) && (x <=? 0xDF) && continuation y then
              ((x - 0xC0) * 64 + (y - 0x80)) :: decodeUtf8 r1
            else
              match r1 with
              | String c r2 =>
                  let z := byteOf c in
                  let cp3 := (x - 0xE0) * 4096 + (y - 0x80) * 64 + (z - 0x80) in
                  if (0xE0 <=? x) && (x <=? 0xEF) && continuation y && continuation z
                     && (0x800 <=? cp3) && negb ((0xD800 <=? cp3) && (cp3 <=? 0xDFFF))
                  then cp3 :: decodeUtf8 r2
                  else
                    match r2 with
                    | String d r3 =>
                        let v := byteOf d in
                        let cp4 := (x - 0xF0) * 262144 + (y - 0x80) * 4096
                                   + (z - 0x80) * 64 + (v - 0x80) in
                        if (0xF0 <=? x) && (x <=? 0xF4) && continuation y
                           && continuation z && continuation v
                           && (0x10000 <=? cp4) && (cp4 <=? 0x10FFFF)
                        then cp4 :: decodeUtf8 r3
                        else rawByte x :: decodeUtf8 r
                    | EmptyString => rawByte x :: decodeUtf8 r
                    end
              | EmptyString => rawByte x :: decodeUtf8 r
              end
        | EmptyString => [rawByte x]
        end
  end.

Definition asciiOf (b : Z) : ascii := ascii_of_nat (Z.to_nat b).

Definition encodeCodePoint (c : Z) : string :=
  if c <? 0x80 then String (asciiOf c) EmptyString
  else if c <? 0x800 then
    String (asciiOf (0xC0 + c / 64)) (String (asciiOf (0x80 + c mod 64)) EmptyString)
  else if c <? 0x10000 then
    String (asciiOf (0xE0 + c / 4096))
      (String (asciiOf (0x80 + (c / 64) mod 64))
         (String (asciiOf (0x80 + c mod 64)) EmptyString))
  else if c <? 0x110000 then
    String (asciiOf (0xF0 + c / 262144))
      (String (asciiOf (0x80 + (c / 4096) mod 64))
         (String (asciiOf (0x80 + (c / 64) mod 64))
            (String (asciiOf (0x80 + c mod 64)) EmptyString)))
  else String (asciiOf (c - 0x110000)) EmptyString.

Fixpoint encodeUtf8 (cs : list Z) : string :=
  match cs with
  | [] => EmptyString
  | c :: rest => String.append (encodeCodePoint c) (encodeUtf8 rest)
  end.

(** The simple lowercase mappings, as runs [(first, last, stride, delta)]
    in ascending order: every [stride]-th code point from [first] to
    [last] maps to itself plus [delta]. *)
Definition lowerRuns : list (Z * Z * Z * Z) :=
  [
   (0x41, 0x5A, 1, 32); (0xC0, 0xD6, 1, 32); (0xD8, 0xDE, 1, 32); (0x100, 0x12E, 2, 1);
   (0x132, 0x136, 2, 1); (0x139, 0x147, 2, 1); (0x14A, 0x176, 2, 1); (0x178, 0x178, 1, -121);
   (0x179, 0x17D, 2, 1); (0x181, 0x181, 1, 210); (0x182, 0x184, 2, 1); (0x186, 0x186, 1, 206);
   (0x187, 0x187, 1, 1); (0x189, 0x18A, 1, 205); (0x18B, 0x18B, 1, 1); (0x18E, 0x18E, 1, 79);
   (0x18F, 0x18F, 1, 202); (0x190, 0x190, 1, 203); (0x191, 0x191, 1, 1); (0x193, 0x193, 1, 205);
   (0x194, 0x194, 1, 207); (0x196, 0x196, 1, 211); (0x197, 0x197, 1, 209); (0x198, 0x198, 1, 1);
   (0x19C, 0x19C, 1, 211); (0x19D, 0x19D, 1, 213); (0x19F, 0x19F, 1, 214); (0x1A0, 0x1A4, 2, 1);
   (0x1A6, 0x1A6, 1, 218); (0x1A7, 0x1A7, 1, 1); (0x1A9, 0x1A9, 1, 218); (0x1AC, 0x1AC, 1, 1);
   (0x1AE, 0x1AE, 1, 218); (0x1AF, 0x1AF, 1, 1); (0x1B1, 0x1B2, 1, 217); (0x1B3, 0x1B5, 2, 1);
   (0x1B7, 0x1B7, 1, 219); (0x1B8, 0x1B8, 1, 1); (0x1BC, 0x1BC, 1, 1); (0x1C4, 0x1C4, 1, 2);
   (0x1C5, 0x1C5, 1, 1); (0x1C7, 0x1C7, 1, 2); (0x1C8, 0x1C8, 1, 1); (0x1CA, 0x1CA, 1, 2);
   (0x1CB, 0x1DB, 2, 1); (0x1DE, 0x1EE, 2, 1); (0x1F1, 0x1F1, 1, 2); (0x1F2, 0x1F4, 2, 1);
   (0x1F6, 0x1F6, 1, -97); (0x1F7, 0x1F7, 1, -56); (0x1F8, 0x21E, 2, 1); (0x220, 0x220, 1, -130);
   (0x222, 0x232, 2, 1); (0x23A, 0x23A, 1, 10795); (0x23B, 0x23B, 1, 1); (0x23D, 0x23D, 1, -163);
   (0x23E, 0x23E, 1, 10792); (0x241, 0x241, 1, 1); (0x243, 0x243, 1, -195); (0x244, 0x244, 1, 69);
   (0x245, 0x245, 1, 71); (0x246, 0x24E, 2, 1); (0x370, 0x372, 2, 1); (0x376, 0x376, 1, 1);
   (0x37F, 0x37F, 1, 116); (0x386, 0x386, 1, 38); (0x388, 0x38A, 1, 37); (0x38C, 0x38C, 1, 64);
   (0x38E, 0x38F, 1, 63); (0x391, 0x3A1, 1, 32); (0x3A3, 0x3AB, 1, 32); (0x3CF, 0x3CF, 1, 8);
   (0x3D8, 0x3EE, 2, 1); (0x3F4, 0x3F4, 1, -60); (0x3F7, 0x3F7, 1, 1); (0x3F9, 0x3F9, 1, -7);
   (0x3FA, 0x3FA, 1, 1); (0x3FD, 0x3FF, 1, -130); (0x400, 0x40F, 1, 80); (0x410, 0x42F, 1, 32);
   (0x460, 0x480, 2, 1); (0x48A, 0x4BE, 2, 1); (0x4C0, 0x4C0, 1, 15); (0x4C1, 0x4CD, 2, 1);
   (0x4D0, 0x52E, 2, 1); (0x531, 0x556, 1, 48); (0x10A0, 0x10C5, 1, 7264); (0x10C7, 0x10C7, 1, 7264);
   (0x10CD, 0x10CD, 1, 7264); (0x13A0, 0x13EF, 1, 38864); (0x13F0, 0x13F5, 1, 8); (0x1C90, 0x1CBA, 1, -3008);
   (0x1CBD, 0x1CBF, 1, -3008); (0x1E00, 0x1E94, 2, 1); (0x1E9E, 0x1E9E, 1, -7615); (0x1EA0, 0x1EFE, 2, 1);
   (0x1F08, 0x1F0F, 1, -8); (0x1F18, 0x1F1D, 1, -8); (0x1F28, 0x1F2F, 1, -8); (0x1F38, 0x1F3F, 1, -8);
   (0x1F48, 0x1F4D, 1, -8); (0x1F59, 0x1F5F, 2, -8); (0x1F68, 0x1F6F, 1, -8); (0x1F88, 0x1F8F, 1, -8);
   (0x1F98, 0x1F9F, 1, -8); (0x1FA8, 0x1FAF, 1, -8); (0x1FB8, 0x1FB9, 1, -8); (0x1FBA, 0x1FBB, 1, -74);
   (0x1FBC, 0x1FBC, 1, -9); (0x1FC8, 0x1FCB, 1, -86); (0x1FCC, 0x1FCC, 1, -9); (0x1FD8, 0x1FD9, 1, -8);
   (0x1FDA, 0x1FDB, 1, -100); (0x1FE8, 0x1FE9, 1, -8); (0x1FEA, 0x1FEB, 1, -112); (0x1FEC, 0x1FEC, 1, -7);
   (0x1FF8, 0x1FF9, 1, -128); (0x1FFA, 0x1FFB, 1, -126); (0x1FFC, 0x1FFC, 1, -9); (0x2126, 0x2126, 1, -7517);
   (0x212A, 0x212A, 1, -8383); (0x212B, 0x212B, 1, -8262); (0x2132, 0x2132, 1, 28); (0x2160, 0x216F, 1, 16);
   (0x2183, 0x2183, 1, 1); (0x24B6, 0x24CF, 1, 26); (0x2C00, 0x2C2F, 1, 48); (0x2C60, 0x2C60, 1, 1);
   (0x2C62, 0x2C62, 1, -10743); (0x2C63, 0x2C63, 1, -3814); (0x2C64, 0x2C64, 1, -10727); (0x2C67, 0x2C6B, 2, 1);
   (0x2C6D, 0x2C6D, 1, -10780); (0x2C6E, 0x2C6E, 1, -10749); (0x2C6F, 0x2C6F, 1, -10783); (0x2C70, 0x2C70, 1, -10782);
   (0x2C72, 0x2C72, 1, 1); (0x2C75, 0x2C75, 1, 1); (0x2C7E, 0x2C7F, 1, -10815); (0x2C80, 0x2CE2, 2, 1);
   (0x2CEB, 0x2CED, 2, 1); (0x2CF2, 0x2CF2, 1, 1); (0xA640, 0xA66C, 2, 1); (0xA680, 0xA69A, 2, 1);
   (0xA722, 0xA72E, 2, 1); (0xA732, 0xA76E, 2, 1); (0xA779, 0xA77B, 2, 1); (0xA77D, 0xA77D, 1, -35332);
   (0xA77E, 0xA786, 2, 1); (0xA78B, 0xA78B, 1, 1); (0xA78D, 0xA78D, 1, -42280); (0xA790, 0xA792, 2, 1);
   (0xA796, 0xA7A8, 2, 1); (0xA7AA, 0xA7AA, 1, -42308); (0xA7AB, 0xA7AB, 1, -42319); (0xA7AC, 0xA7AC, 1, -42315);
   (0xA7AD, 0xA7AD, 1, -42305); (0xA7AE, 0xA7AE, 1, -42308); (0xA7B0, 0xA7B0, 1, -42258); (0xA7B1, 0xA7B1, 1, -42282);
   (0xA7B2, 0xA7B2, 1, -42261); (0xA7B3, 0xA7B3, 1, 928); (0xA7B4, 0xA7C2, 2, 1); (0xA7C4, 0xA7C4, 1, -48);
   (0xA7C5, 0xA7C5, 1, -42307); (0xA7C6, 0xA7C6, 1, -35384); (0xA7C7, 0xA7C9, 2, 1); (0xA7D0, 0xA7D0, 1, 1);
   (0xA7D6, 0xA7D8, 2, 1); (0xA7F5, 0xA7F5, 1, 1); (0xFF21, 0xFF3A, 1, 32); (0x10400, 0x10427, 1, 40);
   (0x104B0, 0x104D3, 1, 40); (0x10570, 0x1057A, 1, 39); (0x1057C, 0x1058A, 1, 39); (0x1058C, 0x10592, 1, 39);
   (0x10594, 0x10595, 1, 39); (0x10C80, 0x10CB2, 1, 64); (0x118A0, 0x118BF, 1, 32); (0x16E40, 0x16E5F, 1, 32);
   (0x1E900, 0x1E921, 1, 34)
  ].

(** Case_Ignorable. *)
Definition caseIgnorableRanges : list (Z * Z) :=
  [
   (0x27, 0x27); (0x2E, 0x2E); (0x3A, 0x3A); (0x5E, 0x5E); (0x60, 0x60); (0xA8, 0xA8);
   (0xAD, 0xAD); (0xAF, 0xAF); (0xB4, 0xB4); (0xB7, 0xB8); (0x2B0, 0x36F); (0x374, 0x375);
   (0x37A, 0x37A); (0x384, 0x385); (0x387, 0x387); (0x483, 0x489); (0x559, 0x559); (0x55F, 0x55F);
   (0x591, 0x5BD); (0x5BF, 0x5BF); (0x5C1, 0x5C2); (0x5C4, 0x5C5); (0x5C7, 0x5C7); (0x5F4, 0x5F4);
   (0x600, 0x605); (0x610, 0x61A); (0x61C, 0x61C); (0x640, 0x640); (0x64B, 0x65F); (0x670, 0x670);
   (0x6D6, 0x6DD); (0x6DF, 0x6E8); (0x6EA, 0x6ED); (0x70F, 0x70F); (0x711, 0x711); (0x730, 0x74A);
   (0x7A6, 0x7B0); (0x7EB, 0x7F5); (0x7FA, 0x7FA); (0x7FD, 0x7FD); (0x816, 0x82D); (0x859, 0x85B);
   (0x888, 0x888); (0x890, 0x891); (0x898, 0x89F); (0x8C9, 0x902); (0x93A, 0x93A); (0x93C, 0x93C);
   (0x941, 0x948); (0x94D, 0x94D); (0x951, 0x957); (0x962, 0x963); (0x971, 0x971); (0x981, 0x981);
   (0x9BC, 0x9BC); (0x9C1, 0x9C4); (0x9CD, 0x9CD); (0x9E2, 0x9E3); (0x9FE, 0x9FE); (0xA01, 0xA02);
   (0xA3C, 0xA3C); (0xA41, 0xA42); (0xA47, 0xA48); (0xA4B, 0xA4D); (0xA51, 0xA51); (0xA70, 0xA71);
   (0xA75, 0xA75); (0xA81, 0xA82); (0xABC, 0xABC); (0xAC1, 0xAC5); (0xAC7, 0xAC8); (0xACD, 0xACD);
   (0xAE2, 0xAE3); (0xAFA, 0xAFF); (0xB01, 0xB01); (0xB3C, 0xB3C); (0xB3F, 0xB3F); (0xB41, 0xB44);
   (0xB4D, 0xB4D); (0xB55, 0xB56); (0xB62, 0xB63); (0xB82, 0xB82); (0xBC0, 0xBC0); (0xBCD, 0xBCD);
   (0xC00, 0xC00); (0xC04, 0xC04); (0xC3C, 0xC3C); (0xC3E, 0xC40); (0xC46, 0xC48); (0xC4A, 0xC4D);
   (0xC55, 0xC56); (0xC62, 0xC63); (0xC81, 0xC81); (0xCBC, 0xCBC); (0xCBF, 0xCBF); (0xCC6, 0xCC6);
   (0xCCC, 0xCCD); (0xCE2, 0xCE3); (0xD00, 0xD01); (0xD3B, 0xD3C); (0xD41, 0xD44); (0xD4D, 0xD4D);
   (0xD62, 0xD63); (0xD81, 0xD81); (0xDCA, 0xDCA); (0xDD2, 0xDD4); (0xDD6, 0xDD6); (0xE31, 0xE31);
   (0xE34, 0xE3A); (0xE46, 0xE4E); (0xEB1, 0xEB1); (0xEB4, 0xEBC); (0xEC6, 0xEC6); (0xEC8, 0xECD);
   (0xF18, 0xF19); (0xF35, 0xF35); (0xF37, 0xF37); (0xF39, 0xF39); (0xF71, 0xF7E); (0xF80, 0xF84);
   (0xF86, 0xF87); (0xF8D, 0xF97); (0xF99, 0xFBC); (0xFC6, 0xFC6); (0x102D, 0x1030); (0x1032, 0x1037);
   (0x1039, 0x103A); (0x103D, 0x103E); (0x1058, 0x1059); (0x105E, 0x1060); (0x1071, 0x1074); (0x1082, 0x1082);
   (0x1085, 0x1086); (0x108D, 0x108D); (0x109D, 0x109D); (0x10FC, 0x10FC); (0x135D, 0x135F); (0x1712, 0x1714);
   (0x1732, 0x1733); (0x1752, 0x1753); (0x1772, 0x1773); (0x17B4, 0x17B5); (0x17B7, 0x17BD); (0x17C6, 0x17C6);
   (0x17C9, 0x17D3); (0x17D7, 0x17D7); (0x17DD, 0x17DD); (0x180B, 0x180F); (0x1843, 0x1843); (0x1885, 0x1886);
   (0x18A9, 0x18A9); (0x1920, 0x1922); (0x1927, 0x1928); (0x1932, 0x1932); (0x1939, 0x193B); (0x1A17, 0x1A18);
   (0x1A1B, 0x1A1B); (0x1A56, 0x1A56); (0x1A58, 0x1A5E); (0x1A60, 0x1A60); (0x1A62, 0x1A62); (0x1A65, 0x1A6C);
   (0x1A73, 0x1A7C); (0x1A7F, 0x1A7F); (0x1AA7, 0x1AA7); (0x1AB0, 0x1ACE); (0x1B00, 0x1B03); (0x1B34, 0x1B34);
   (0x1B36, 0x1B3A); (0x1B3C, 0x1B3C); (0x1B42, 0x1B42); (0x1B6B, 0x1B73); (0x1B80, 0x1B81); (0x1BA2, 0x1BA5);
   (0x1BA8, 0x1BA9); (0x1BAB, 0x1BAD); (0x1BE6, 0x1BE6); (0x1BE8, 0x1BE9); (0x1BED, 0x1BED); (0x1BEF, 0x1BF1);
   (0x1C2C, 0x1C33); (0x1C36, 0x1C37); (0x1C78, 0x1C7D); (0x1CD0, 0x1CD2); (0x1CD4, 0x1CE0); (0x1CE2, 0x1CE8);
   (0x1CED, 0x1CED); (0x1CF4, 0x1CF4); (0x1CF8, 0x1CF9); (0x1D2C, 0x1D6A); (0x1D78, 0x1D78); (0x1D9B, 0x1DFF);
   (0x1FBD, 0x1FBD); (0x1FBF, 0x1FC1); (0x1FCD, 0x1FCF); (0x1FDD, 0x1FDF); (0x1FED, 0x1FEF); (0x1FFD, 0x1FFE);
   (0x200B, 0x200F); (0x2018, 0x2019); (0x2024, 0x2024); (0x2027, 0x2027); (0x202A, 0x202E); (0x2060, 0x2064);
   (0x2066, 0x206F); (0x2071, 0x2071); (0x207F, 0x207F); (0x2090, 0x209C); (0x20D0, 0x20F0); (0x2C7C, 0x2C7D);
   (0x2CEF, 0x2CF1); (0x2D6F, 0x2D6F); (0x2D7F, 0x2D7F); (0x2DE0, 0x2DFF); (0x2E2F, 0x2E2F); (0x3005, 0x3005);
   (0x302A, 0x302D); (0x3031, 0x3035); (0x303B, 0x303B); (0x3099, 0x309E); (0x30FC, 0x30FE); (0xA015, 0xA015);
   (0xA4F8, 0xA4FD); (0xA60C, 0xA60C); (0xA66F, 0xA672); (0xA674, 0xA67D); (0xA67F, 0xA67F); (0xA69C, 0xA69F);
   (0xA6F0, 0xA6F1); (0xA700, 0xA721); (0xA770, 0xA770); (0xA788, 0xA78A); (0xA7F2, 0xA7F4); (0xA7F8, 0xA7F9);
   (0xA802, 0xA802); (0xA806, 0xA806); (0xA80B, 0xA80B); (0xA825, 0xA826); (0xA82C, 0xA82C); (0xA8C4, 0xA8C5);
   (0xA8E0, 0xA8F1); (0xA8FF, 0xA8FF); (0xA926, 0xA92D); (0xA947, 0xA951); (0xA980, 0xA982); (0xA9B3, 0xA9B3);
   (0xA9B6, 0xA9B9); (0xA9BC, 0xA9BD); (0xA9CF, 0xA9CF); (0xA9E5, 0xA9E6); (0xAA29, 0xAA2E); (0xAA31, 0xAA32);
   (0xAA35, 0xAA36); (0xAA43, 0xAA43); (0xAA4C, 0xAA4C); (0xAA70, 0xAA70); (0xAA7C, 0xAA7C); (0xAAB0, 0xAAB0);
   (0xAAB2, 0xAAB4); (0xAAB7, 0xAAB8); (0xAABE, 0xAABF); (0xAAC1, 0xAAC1); (0xAADD, 0xAADD); (0xAAEC, 0xAAED);
   (0xAAF3, 0xAAF4); (0xAAF6, 0xAAF6); (0xAB5B, 0xAB5F); (0xAB69, 0xAB6B); (0xABE5, 0xABE5); (0xABE8, 0xABE8);
   (0xABED, 0xABED); (0xFB1E, 0xFB1E); (0xFBB2, 0xFBC2); (0xFE00, 0xFE0F); (0xFE13, 0xFE13); (0xFE20, 0xFE2F);
   (0xFE52, 0xFE52); (0xFE55, 0xFE55); (0xFEFF, 0xFEFF); (0xFF07, 0xFF07); (0xFF0E, 0xFF0E); (0xFF1A, 0xFF1A);
   (0xFF3E, 0xFF3E); (0xFF40, 0xFF40); (0xFF70, 0xFF70); (0xFF9E, 0xFF9F); (0xFFE3, 0xFFE3); (0xFFF9, 0xFFFB);
   (0x101FD, 0x101FD); (0x102E0, 0x102E0); (0x10376, 0x1037A); (0x10780, 0x10785); (0x10787, 0x107B0); (0x107B2, 0x107BA);
   (0x10A01, 0x10A03); (0x10A05, 0x10A06); (0x10A0C, 0x10A0F); (0x10A38, 0x10A3A); (0x10A3F, 0x10A3F); (0x10AE5, 0x10AE6);
   (0x10D24, 0x10D27); (0x10EAB, 0x10EAC); (0x10F46, 0x10F50); (0x10F82, 0x10F85); (0x11001, 0x11001); (0x11038, 0x11046);
   (0x11070, 0x11070); (0x11073, 0x11074); (0x1107F, 0x11081); (0x110B3, 0x110B6); (0x110B9, 0x110BA); (0x110BD, 0x110BD);
   (0x110C2, 0x110C2); (0x110CD, 0x110CD); (0x11100, 0x11102); (0x11127, 0x1112B); (0x1112D, 0x11134); (0x11173, 0x11173);
   (0x11180, 0x11181); (0x111B6, 0x111BE); (0x111C9, 0x111CC); (0x111CF, 0x111CF); (0x1122F, 0x11231); (0x11234, 0x11234);
   (0x11236, 0x11237); (0x1123E, 0x1123E); (0x112DF, 0x112DF); (0x112E3, 0x112EA); (0x11300, 0x11301); (0x1133B, 0x1133C);
   (0x11340, 0x11340); (0x11366, 0x1136C); (0x11370, 0x11374); (0x11438, 0x1143F); (0x11442, 0x11444); (0x11446, 0x11446);
   (0x1145E, 0x1145E); (0x114B3, 0x114B8); (0x114BA, 0x114BA); (0x114BF, 0x114C0); (0x114C2, 0x114C3); (0x115B2, 0x115B5);
   (0x115BC, 0x115BD); (0x115BF, 0x115C0); (0x115DC, 0x115DD); (0x11633, 0x1163A); (0x1163D, 0x1163D); (0x1163F, 0x11640);
   (0x116AB, 0x116AB); (0x116AD, 0x116AD); (0x116B0, 0x116B5); (0x116B7, 0x116B7); (0x1171D, 0x1171F); (0x11722, 0x11725);
   (0x11727, 0x1172B); (0x1182F, 0x11837); (0x11839, 0x1183A); (0x1193B, 0x1193C); (0x1193E, 0x1193E); (0x11943, 0x11943);
   (0x119D4, 0x119D7); (0x119DA, 0x119DB); (0x119E0, 0x119E0); (0x11A01, 0x11A0A); (0x11A33, 0x11A38); (0x11A3B, 0x11A3E);
   (0x11A47, 0x11A47); (0x11A51, 0x11A56); (0x11A59, 0x11A5B); (0x11A8A, 0x11A96); (0x11A98, 0x11A99); (0x11C30, 0x11C36);
   (0x11C38, 0x11C3D); (0x11C3F, 0x11C3F); (0x11C92, 0x11CA7); (0x11CAA, 0x11CB0); (0x11CB2, 0x11CB3); (0x11CB5, 0x11CB6);
   (0x11D31, 0x11D36); (0x11D3A, 0x11D3A); (0x11D3C, 0x11D3D); (0x11D3F, 0x11D45); (0x11D47, 0x11D47); (0x11D90, 0x11D91);
   (0x11D95, 0x11D95); (0x11D97, 0x11D97); (0x11EF3, 0x11EF4); (0x13430, 0x13438); (0x16AF0, 0x16AF4); (0x16B30, 0x16B36);
   (0x16B40, 0x16B43); (0x16F4F, 0x16F4F); (0x16F8F, 0x16F9F); (0x16FE0, 0x16FE1); (0x16FE3, 0x16FE4); (0x1AFF0, 0x1AFF3);
   (0x1AFF5, 0x1AFFB); (0x1AFFD, 0x1AFFE); (0x1BC9D, 0x1BC9E); (0x1BCA0, 0x1BCA3); (0x1CF00, 0x1CF2D); (0x1CF30, 0x1CF46);
   (0x1D167, 0x1D169); (0x1D173, 0x1D182); (0x1D185, 0x1D18B); (0x1D1AA, 0x1D1AD); (0x1D242, 0x1D244); (0x1DA00, 0x1DA36);
   (0x1DA3B, 0x1DA6C); (0x1DA75, 0x1DA75); (0x1DA84, 0x1DA84); (0x1DA9B, 0x1DA9F); (0x1DAA1, 0x1DAAF); (0x1E000, 0x1E006);
   (0x1E008, 0x1E018); (0x1E01B, 0x1E021); (0x1E023, 0x1E024); (0x1E026, 0x1E02A); (0x1E130, 0x1E13D); (0x1E2AE, 0x1E2AE);
   (0x1E2EC, 0x1E2EF); (0x1E8D0, 0x1E8D6); (0x1E944, 0x1E94B); (0x1F3FB, 0x1F3FF); (0xE0001, 0xE0001); (0xE0020, 0xE007F);
   (0xE0100, 0xE01EF)
  ].

(** Cased and not Case_Ignorable. *)
Definition casedRanges : list (Z * Z) :=
  [
   (0x41, 0x5A); (0x61, 0x7A); (0xAA, 0xAA); (0xB5, 0xB5); (0xBA, 0xBA); (0xC0, 0xD6);
   (0xD8, 0xF6); (0xF8, 0x1BA); (0x1BC, 0x1BF); (0x1C4, 0x293); (0x295, 0x2AF); (0x370, 0x373);
   (0x376, 0x377); (0x37B, 0x37D); (0x37F, 0x37F); (0x386, 0x386); (0x388, 0x38A); (0x38C, 0x38C);
   (0x38E, 0x3A1); (0x3A3, 0x3F5); (0x3F7, 0x481); (0x48A, 0x52F); (0x531, 0x556); (0x560, 0x588);
   (0x10A0, 0x10C5); (0x10C7, 0x10C7); (0x10CD, 0x10CD); (0x10D0, 0x10FA); (0x10FD, 0x10FF); (0x13A0, 0x13F5);
   (0x13F8, 0x13FD); (0x1C80, 0x1C88); (0x1C90, 0x1CBA); (0x1CBD, 0x1CBF); (0x1D00, 0x1D2B); (0x1D6B, 0x1D77);
   (0x1D79, 0x1D9A); (0x1E00, 0x1F15); (0x1F18, 0x1F1D); (0x1F20, 0x1F45); (0x1F48, 0x1F4D); (0x1F50, 0x1F57);
   (0x1F59, 0x1F59); (0x1F5B, 0x1F5B); (0x1F5D, 0x1F5D); (0x1F5F, 0x1F7D); (0x1F80, 0x1FB4); (0x1FB6, 0x1FBC);
   (0x1FBE, 0x1FBE); (0x1FC2, 0x1FC4); (0x1FC6, 0x1FCC); (0x1FD0, 0x1FD3); (0x1FD6, 0x1FDB); (0x1FE0, 0x1FEC);
   (0x1FF2, 0x1FF4); (0x1FF6, 0x1FFC); (0x2102, 0x2102); (0x2107, 0x2107); (0x210A, 0x2113); (0x2115, 0x2115);
   (0x2119, 0x211D); (0x2124, 0x2124); (0x2126, 0x2126); (0x2128, 0x2128); (0x212A, 0x212D); (0x212F, 0x2134);
   (0x2139, 0x2139); (0x213C, 0x213F); (0x2145, 0x2149); (0x214E, 0x214E); (0x2160, 0x217F); (0x2183, 0x2184);
   (0x24B6, 0x24E9); (0x2C00, 0x2C7B); (0x2C7E, 0x2CE4); (0x2CEB, 0x2CEE); (0x2CF2, 0x2CF3); (0x2D00, 0x2D25);
   (0x2D27, 0x2D27); (0x2D2D, 0x2D2D); (0xA640, 0xA66D); (0xA680, 0xA69B); (0xA722, 0xA76F); (0xA771, 0xA787);
   (0xA78B, 0xA78E); (0xA790, 0xA7CA); (0xA7D0, 0xA7D1); (0xA7D3, 0xA7D3); (0xA7D5, 0xA7D9); (0xA7F5, 0xA7F6);
   (0xA7FA, 0xA7FA); (0xAB30, 0xAB5A); (0xAB60, 0xAB68); (0xAB70, 0xABBF); (0xFB00, 0xFB06); (0xFB13, 0xFB17);
   (0xFF21, 0xFF3A); (0xFF41, 0xFF5A); (0x10400, 0x1044F); (0x104B0, 0x104D3); (0x104D8, 0x104FB); (0x10570, 0x1057A);
   (0x1057C, 0x1058A); (0x1058C, 0x10592); (0x10594, 0x10595); (0x10597, 0x105A1); (0x105A3, 0x105B1); (0x105B3, 0x105B9);
   (0x105BB, 0x105BC); (0x10C80, 0x10CB2); (0x10CC0, 0x10CF2); (0x118A0, 0x118DF); (0x16E40, 0x16E7F); (0x1D400, 0x1D454);
   (0x1D456, 0x1D49C); (0x1D49E, 0x1D49F); (0x1D4A2, 0x1D4A2); (0x1D4A5, 0x1D4A6); (0x1D4A9, 0x1D4AC); (0x1D4AE, 0x1D4B9);
   (0x1D4BB, 0x1D4BB); (0x1D4BD, 0x1D4C3); (0x1D4C5, 0x1D505); (0x1D507, 0x1D50A); (0x1D50D, 0x1D514); (0x1D516, 0x1D51C);
   (0x1D51E, 0x1D539); (0x1D53B, 0x1D53E); (0x1D540, 0x1D544); (0x1D546, 0x1D546); (0x1D54A, 0x1D550); (0x1D552, 0x1D6A5);
   (0x1D6A8, 0x1D6C0); (0x1D6C2, 0x1D6DA); (0x1D6DC, 0x1D6FA); (0x1D6FC, 0x1D714); (0x1D716, 0x1D734); (0x1D736, 0x1D74E);
   (0x1D750, 0x1D76E); (0x1D770, 0x1D788); (0x1D78A, 0x1D7A8); (0x1D7AA, 0x1D7C2); (0x1D7C4, 0x1D7CB); (0x1DF00, 0x1DF09);
   (0x1DF0B, 0x1DF1E); (0x1E900, 0x1E943); (0x1F130, 0x1F149); (0x1F150, 0x1F169); (0x1F170, 0x1F189)
  ].

(** Look-up in a table in ascending order. *)
Fixpoint lowerIn (table : list (Z * Z * Z * Z)) (c : Z) : Z :=
  match table with
  | [] => c
  | (first, last, stride, delta) :: rest =>
      if c <? first then c
      else if (c <=? last) && ((c - first) mod stride =? 0) then c + delta
      else lowerIn rest c
  end.

Fixpoint inRanges (table : list (Z * Z)) (c : Z) : bool :=
  match table with
  | [] => false
  | (first, last) :: rest =>
      if c <? first then false
      else if c <=? last then true
      else inRanges rest c
  end.

Definition caseIgnorable (c : Z) : bool := inRanges caseIgnorableRanges c.

Definition cased (c : Z) : bool := inRanges casedRanges c.

(** Is the text that follows a sigma a run of case-ignorable characters
    and then a cased letter? *)
Fixpoint beforeCased (cs : list Z) : bool :=
  match cs with
  | [] => false
  | c :: rest => if caseIgnorable c then beforeCased rest else cased c
  end.

(** [afterCased]: the nearest character before this point that is not
    case-ignorable exists and is a cased letter. *)
Fixpoint lowerFrom (afterCased : bool) (cs : list Z) : list Z :=
  match cs with
  | [] => []
  | c :: rest =>
      (if c =? 0x130 then [0x69; 0x307]
       else if c =? 0x3A3 then
         [if afterCased && negb (beforeCased rest) then 0x3C2 else 0x3C3]
       else [lowerIn lowerRuns c])
      ++ lowerFrom (if caseIgnorable c then afterCased else cased c) rest
  end.

(** [s.toLowerCase()] *)
Definition toLowerCase (s : string) : string :=
  encodeUtf8 (lowerFrom false (decodeUtf8 s)).

(** JS truthiness of an optional string: [undefined] and [""] are falsy. *)
Definition truthy (s : option string) : option string :=
  match s with
  | Some "" => None
  | other => other
  end.

(** [a || b] on an optional string with a default. *)
Definition or_else (s : option string) (d : string) : string :=
  match truthy s with
  | Some x => x
  | None => d
  end.

(** The fixed vocabulary, as written in [onmessage]. *)
Definition wakePhrase (command : string) : bool :=
  includes "aura" command || includes "acordar" command
  || includes "ativar" command || includes "oi" command.

Definition sleepPhrase (command : string) : bool :=
  includes "silenciar" command || includes "modo de espera" command
  || includes "dormir" command.

Definition cameraPhrase (command : string) : bool :=
  includes "abrir câmera" command || includes "ligar câmera" command.

Definition screenPhrase (command : string) : bool :=
  includes "compartilhar tela" command || includes "mostrar tela" command.

Definition closePhrase (command : string) : bool :=
  includes "fechar vídeo" command || includes "parar vídeo" command
  || includes "parar tela" command.

(** ** The component's functions *)

(** [playActivationSound]: the oscillator ping; its own [try]/[catch]
    keeps it from throwing. *)
Definition playActivationSound : M unit :=
  ac <- rd audioContextRef ;;
  match ac with
  | None => skip
  | Some ctx => emit (ActivationPing ctx)
  end.

(** The three statements shared by the two places that cut playback:
    [sourcesRef.current.forEach(s => s.stop()); sourcesRef.current.clear();
     nextStartTimeRef.current = 0]. *)
Definition stopAllSources : M unit :=
  srcs <- rd sourcesRef ;;
  forEach srcs (fun s => emit (SourceStop s)) ;;
  wr (with_sourcesRef []) ;;
  wr (with_nextStartTimeRef 0).

Definition setSleepState (sleep : bool) : M unit :=
  cur <- rd isSleepModeRef ;;
  if Bool.eqb cur sleep then skip
  else
    wr (with_isSleepModeRef sleep) ;;
    setIsSleepMode sleep ;;
    if sleep then
      stopAllSources ;;
      setIsAiSpeaking false
    else
      playActivationSound.

Definition stopVideoStream : M unit :=
  fi <- rd frameIntervalRef ;;
  match fi with
  | Some t => clearInterval t ;; wr (with_frameIntervalRef None)
  | None => skip
  end ;;
  st <- rd streamRef ;;
  match st with
  | Some m => stopTracks m ;; wr (with_streamRef None)
  | None => skip
  end ;;
  vr <- rd videoRef ;;
  match vr with
  | Some _ => wr (with_videoRef (Some (mkVideo None)))
  | None => skip
  end ;;
  setVideoSource None ;;
  wr (with_videoSourceRef None).

Definition cleanup : M unit :=
  stopVideoStream ;;
  sr <- rd sessionRef ;;
  match sr with
  | Some _ => wr (with_sessionRef None)
  | None => skip
  end ;;
  ac <- rd audioContextRef ;;
  match ac with
  | Some c => closeContext c ;; wr (with_audioContextRef None)
  | None => skip
  end ;;
  ic <- rd inputContextRef ;;
  match ic with
  | Some c => closeContext c ;; wr (with_inputContextRef None)
  | None => skip
  end ;;
  wr (with_sourcesRef []) ;;
  setIsConnected false ;;
  setVolumeLevel 0%Q ;;
  setOutputVolume 0%Q ;;
  setSleepState false ;;
  setPendingAction None ;;
  setIsAiSpeaking false.

Definition startFrameTransmission (currentSessionPromise : option Handle)
    (env : Env) : M unit :=
  fi <- rd frameIntervalRef ;;
  match fi with
  | Some t => clearInterval t
  | None => skip
  end ;;
  if negb (canvas2d env) then skip
  else
    sr <- rd sessionRef ;;
    let sessionToUse :=
      match currentSessionPromise with
      | Some p => Some p
      | None => sr
      end in
    match sessionToUse with
    | None => skip
    | Some p =>
        t <- setInterval p 1000 ;;
        wr (with_frameIntervalRef (Some t))
    end.

(** One firing of the interval installed by [startFrameTransmission],
    whose closure holds [sessionToUse]. *)
Definition frameTick (sessionToUse : Handle) (v : VideoProbe) : M unit :=
  vr <- rd videoRef ;;
  match vr with
  | None => skip
  | Some _ =>
      if paused v || ended v then skip
      else if videoWidth v =? 0 then skip
      else
        emit (DrawImage (videoWidth v) (videoHeight v)) ;;
        emit (SendRealtimeInput sessionToUse (JpegFrame (frameData v)))
  end.

(** [ai.live.connect(..)]: registers the connection with what its
    callbacks closed over. *)
Definition liveConnect (inputCtx mic : Handle) (muted : bool) : M Handle :=
  p <- alloc ;;
  modify (on_browser (fun b =>
    with_conns (conns b ++ [mkConn p inputCtx mic muted false Connecting]) b)) ;;
  emit (LiveConnect p) ;;
  ret p.

Definition connectToLive (env : Env) : M unit :=
  setError None ;;
  try_catch
    (match truthy (API_KEY env) with
     | None => throw (Error "API Key faltante.")
     | Some _ => skip
     end ;;
     ac <- newAudioContext 24000 ;;
     wr (with_audioContextRef (Some ac)) ;;
     ic <- newAudioContext 16000 ;;
     wr (with_inputContextRef (Some ic)) ;;
     micStream <- requestStream (micRequest env) GetUserMediaAudio ;;
     muted <- gets (fun w => isMuted (ui w)) ;;
     sessionPromise <- liveConnect ic micStream muted ;;
     wr (with_sessionRef (Some sessionPromise)))
    (fun err =>
       setError (Some (or_else (message err) "Falha ao iniciar sistemas.")) ;;
       cleanup).

Definition videoErrorText (e : JsError) : string :=
  if String.eqb (name e) "NotAllowedError" then
    "Permissão negada (Navegador requer interação manual)."
  else if String.eqb (name e) "SecurityError"
          || match message e with
             | Some m => includes "permissions policy" m
             | None => false
             end then
    "Bloqueado pela política do navegador."
  else String.append "Erro ao acessar vídeo: " (or_else (message e) "Desconhecido").

Definition toggleVideo (type : VideoType) (env : Env) : M unit :=
  cur <- rd videoSourceRef ;;
  if match cur with Some c => VideoType_eqb c type | None => false end then
    stopVideoStream
  else
    try_catch
      (stream <- requestStream (videoRequest env)
                   (match type with
                    | screen => GetDisplayMedia
                    | camera => GetUserMediaVideo
                    end) ;;
       old <- rd streamRef ;;
       match old with
       | Some m => stopTracks m
       | None => skip
       end ;;
       wr (with_streamRef (Some stream)) ;;
       setVideoSource (Some type) ;;
       wr (with_videoSourceRef (Some type)) ;;
       vr <- rd videoRef ;;
       match vr with
       | Some _ =>
           wr (with_videoRef (Some (mkVideo (Some stream)))) ;;
           emit (VideoPlay stream) ;;
           await (playResult env)
       | None => skip
       end ;;
       connected <- gets (fun w => isConnected (ui w)) ;;
       sr <- rd sessionRef ;;
       if negb connected && match sr with None => true | Some _ => false end then
         connectToLive env
       else
         startFrameTransmission None env)
      (fun e =>
         setError (Some (videoErrorText e)) ;;
         stopVideoStream).

Definition handleMainToggle (env : Env) : M unit :=
  connected <- gets (fun w => isConnected (ui w)) ;;
  if connected then cleanup else connectToLive env.

(** *** Transport callbacks *)

Definition update_conn (p : Handle) (f : Conn -> Conn) (cs : list Conn) : list Conn :=
  map (fun c => if Pos.eqb (conn_session c) p then f c else c) cs.

Definition find_conn (p : Handle) (w : World) : option Conn :=
  find (fun c => Pos.eqb (conn_session c) p) (conns (browser w)).

Definition map_conn (p : Handle) (f : Conn -> Conn) : M unit :=
  modify (on_browser (fun b => with_conns (update_conn p f (conns b)) b)).

Definition conn_install (c : Conn) : Conn :=
  mkConn (conn_session c) (conn_inputCtx c) (conn_micStream c) (conn_isMuted c)
         true (conn_status c).

Definition conn_set_status (st : ConnStatus) (c : Conn) : Conn :=
  mkConn (conn_session c) (conn_inputCtx c) (conn_micStream c) (conn_isMuted c)
         (conn_onaudioprocess c) st.

(** [updateVolume], given the two spectrum averages. *)
Definition updateVolume (inputAvg outputAvg : Q) : M unit :=
  sr <- rd sessionRef ;;
  match sr with
  | None => skip
  | Some _ =>
      setVolumeLevel (inputAvg / 255)%Q ;;
      setOutputVolume (outputAvg / 255)%Q ;;
      setIsAiSpeaking (negb (Qle_bool outputAvg 10))
  end.

(** [onopen] of the connection [c], with what its closure captured in
    [connectToLive]: [sessionPromise], [processor] and [inputSource].
    [processor.connect(inputContextRef.current.destination)] throws
    InvalidAccessError when the ref names a context other than the one
    that owns [processor]; by then the callback is assigned and
    [inputSource] feeds [processor], which is enough for audio events to
    be delivered. *)
Definition onopen (c : Conn) (env : Env) : M unit :=
  ic <- rd inputContextRef ;;
  match ic with
  | None => skip
  | Some dest =>
      setIsConnected true ;;
      updateVolume (inputMean env) (outputMean env) ;;
      map_conn (conn_session c) conn_install ;;
      (if Pos.eqb dest (conn_inputCtx c) then skip
       else throw (mkError "InvalidAccessError" None)) ;;
      st <- rd streamRef ;;
      match st with
      | Some _ => startFrameTransmission (Some (conn_session c)) env
      | None => skip
      end
  end.

(** [processor.onaudioprocess], with the [isMuted] and [sessionPromise]
    of its closure; [pcm] is [createPcmBlob(inputData)]. *)
Definition onaudioprocess (c : Conn) (pcm : string) : M unit :=
  if conn_isMuted c then skip
  else emit (SendRealtimeInput (conn_session c) (PcmBlob pcm)).

(** [Set.prototype.add] and [Set.prototype.delete] *)
Definition set_add (h : Handle) (l : list Handle) : list Handle :=
  if mem_handle h l then l else l ++ [h].

(** Part 1 of [onmessage]: the voice commands, on the lowercased text. *)
Definition voiceCommand (command : string) : M unit :=
  asleep <- rd isSleepModeRef ;;
  if asleep then
    if wakePhrase command then setSleepState false else skip
  else if sleepPhrase command then setSleepState true
  else if cameraPhrase command then
    cur <- rd videoSourceRef ;;
    match cur with
    | Some camera => skip
    | _ => setPendingAction (Some camera)
    end
  else if screenPhrase command then
    cur <- rd videoSourceRef ;;
    match cur with
    | Some screen => skip
    | _ => setPendingAction (Some screen)
    end
  else if closePhrase command then
    cur <- rd videoSourceRef ;;
    match cur with
    | Some _ => stopVideoStream
    | None => skip
    end
  else skip.

(** Part 2 of [onmessage]: schedule one chunk.  [now] is
    [ctx.currentTime]; [duration] is [buffer.duration] of the buffer that
    [decodeAudioData] (of utils/audioUtils) resolves to. *)
Definition scheduleChunk (now duration : Z) : M unit :=
  ac <- rd audioContextRef ;;
  asleep <- rd isSleepModeRef ;;
  match ac with
  | Some ctx =>
      if negb asleep then
        n <- rd nextStartTimeRef ;;
        wr (with_nextStartTimeRef (Z.max n now)) ;;
        source <- alloc ;;
        startAt <- rd nextStartTimeRef ;;
        emit (SourceStart source startAt duration) ;;
        wr (with_nextStartTimeRef (startAt + duration)) ;;
        srcs <- rd sourcesRef ;;
        wr (with_sourcesRef (set_add source srcs))
      else skip
  | None => skip
  end.

Definition onmessage (msg : Message) (now duration : Z) : M unit :=
  match truthy (inputTranscription msg) with
  | Some userTranscript => voiceCommand (toLowerCase userTranscript)
  | None => skip
  end ;;
  match truthy (inlineData msg) with
  | Some _ => scheduleChunk now duration
  | None => skip
  end ;;
  if interrupted msg then stopAllSources else skip.

Definition onclose : M unit :=
  setIsConnected false ;;
  cleanup.

Definition onerror : M unit :=
  setError (Some "Erro de conexão com Aura.") ;;
  cleanup.

(** ** Events and the transition function *)

Inductive Event : Type :=
| ClickMain (env : Env)                       (* handleMainToggle *)
| ClickVideo (type : VideoType) (env : Env)   (* toggleVideo(type) *)
| ClickCloseVideo                             (* stopVideoStream *)
| ClickMute                                   (* setIsMuted(!isMuted) *)
| ClickAuthorize (env : Env)                  (* toggleVideo(pendingAction); setPendingAction(null) *)
| ClickCancel                                 (* setPendingAction(null) *)
| TransportOpen (session : Handle) (env : Env)
| TransportMessage (session : Handle) (msg : Message) (now duration : Z)
| TransportClose (session : Handle)
| TransportError (session : Handle)
| AudioProcess (session : Handle) (pcm : string)
| AnimationFrame (inputAvg outputAvg : Q)
| IntervalTick (timer : Handle) (v : VideoProbe)
| SourceEnded (source : Handle)               (* source.onended *)
| TrackEnded (stream : Handle).               (* getVideoTracks()[0].onended *)

Definition is_video_stream (m : Handle) (w : World) : bool :=
  existsb (fun e => match e with
                    | GetUserMediaVideo m' | GetDisplayMedia m' => Pos.eqb m m'
                    | _ => false
                    end) (log (browser w)).

Definition handler (e : Event) (w : World) : M unit :=
  match e with
  | ClickMain env => handleMainToggle env
  | ClickVideo type env => toggleVideo type env
  | ClickCloseVideo => stopVideoStream
  | ClickMute =>
      (* the button is disabled while not connected *)
      if isConnected (ui w) then setIsMuted (negb (isMuted (ui w))) else skip
  | ClickAuthorize env =>
      match pendingAction (ui w) with
      | Some type => toggleVideo type env ;; setPendingAction None
      | None => skip
      end
  | ClickCancel => setPendingAction None
  | TransportOpen p env =>
      match find_conn p w with
      | Some c =>
          match conn_status c with
          | Connecting => map_conn p (conn_set_status Established) ;; onopen c env
          | _ => skip
          end
      | None => skip
      end
  | TransportMessage p msg now duration =>
      match find_conn p w with
      | Some c =>
          match conn_status c with
          | Established => onmessage msg now duration
          | _ => skip
          end
      | None => skip
      end
  | TransportClose p =>
      match find_conn p w with
      | Some c =>
          match conn_status c with
          | Terminated => skip
          | _ => map_conn p (conn_set_status Terminated) ;; onclose
          end
      | None => skip
      end
  | TransportError p =>
      match find_conn p w with
      | Some c =>
          match conn_status c with
          | Terminated => skip
          | _ => onerror
          end
      | None => skip
      end
  | AudioProcess p pcm =>
      match find_conn p w with
      | Some c =>
          if conn_onaudioprocess c && mem_handle (conn_inputCtx c) (openContexts (browser w))
          then onaudioprocess c pcm else skip
      | None => skip
      end
  | AnimationFrame inputAvg outputAvg => updateVolume inputAvg outputAvg
  | IntervalTick t v =>
      match find (fun ts => Pos.eqb (fst ts) t) (timers (browser w)) with
      | Some (_, p) => frameTick p v
      | None => skip
      end
  | SourceEnded h => wr (fun r => with_sourcesRef (remove_handle h (sourcesRef r)) r)
  | TrackEnded m =>
      if mem_handle m (liveStreams (browser w)) && is_video_stream m w then
        modify (on_browser (fun b => with_liveStreams (remove_handle m (liveStreams b)) b)) ;;
        stopVideoStream
      else skip
  end.

(** One event, its handler run to completion.  An event dispatched while
    an [async] handler is suspended at an [await] is outside this model:
    what is stated over [run] below concerns one handler at a time, or
    facts that each synchronous segment of the handlers keeps. *)
Definition step (w : World) (e : Event) : World := exec (handler e w) w.

Definition run (es : list Event) (w : World) : World := fold_left step es w.

(** ** Observations on the trace *)

(** Playback intervals scheduled, oldest first: [(start, duration)]. *)
Fixpoint scheduled (l : list Effect) : list (Z * Z) :=
  match l with
  | [] => []
  | SourceStart _ t d :: rest => (t, d) :: scheduled rest
  | _ :: rest => scheduled rest
  end.

(** A call that acquires a device, a context, a timer or the transport. *)
Definition acquires (e : Effect) : bool :=
  match e with
  | NewAudioContext _ _ | GetUserMediaAudio _ | GetUserMediaVideo _
  | GetDisplayMedia _ | LiveConnect _ | SetInterval _ _ => true
  | _ => false
  end.

(** Media blocks handed to the transport. *)
Fixpoint sent (l : list Effect) : list Media :=
  match l with
  | [] => []
  | SendRealtimeInput _ m :: rest => m :: sent rest
  | _ :: rest => sent rest
  end.

(** * Statement vocabulary

    Predicates, relations and sample states used to state the properties
    of the component. *)

(** ** Chunk arrivals *)

(** One inbound audio chunk: the payload, the playback clock when its
    message is handled, and the duration it decodes to. *)
Record Chunk : Type := mkChunk {
  chunk_data : string;
  chunk_now : Z;
  chunk_duration : Z
}.

(** A message that carries audio only. *)
Definition audioChunk (data : string) : Message := mkMessage None (Some data) false.

Definition enqueue (w : World) (c : Chunk) : World :=
  exec (onmessage (audioChunk (chunk_data c)) (chunk_now c) (chunk_duration c)) w.

(** A payload is a non-empty string and a duration is never negative. *)
Definition chunk_ok (c : Chunk) : Prop :=
  chunk_data c <> "" /\ 0 <= chunk_duration c.

(** Chunks arrive faster than real time when each is handled no later
    than the end of what is already scheduled. *)
Fixpoint faster_than_real_time (scheduledEnd : Z) (cs : list Chunk) : Prop :=
  match cs with
  | [] => True
  | c :: rest =>
      chunk_now c <= scheduledEnd
      /\ faster_than_real_time (scheduledEnd + chunk_duration c) rest
  end.

(** Intervals laid end to end from [t]. *)
Fixpoint chain (t : Z) (ds : list Z) : list (Z * Z) :=
  match ds with
  | [] => []
  | d :: rest => (t, d) :: chain (t + d) rest
  end.

(** Each interval ends exactly where the next begins. *)
Fixpoint back_to_back (l : list (Z * Z)) : Prop :=
  match l with
  | (t1, d1) :: (((t2, _) :: _) as rest) => t1 + d1 = t2 /\ back_to_back rest
  | _ => True
  end.

(** Start times never decrease. *)
Fixpoint starts_nondecreasing (l : list (Z * Z)) : Prop :=
  match l with
  | (t1, _) :: (((t2, _) :: _) as rest) => t1 <= t2 /\ starts_nondecreasing rest
  | _ => True
  end.

(** No interval begins before the previous one has ended. *)
Fixpoint no_overlap (l : list (Z * Z)) : Prop :=
  match l with
  | (t1, d1) :: (((t2, _) :: _) as rest) => t1 + d1 <= t2 /\ no_overlap rest
  | _ => True
  end.

(** A session that is awake, with its output context open and nothing
    scheduled yet. *)
Definition awake_session : World :=
  on_refs (with_audioContextRef (Some 1%positive))
    (on_browser (fun b => with_openContexts [1%positive] (with_fresh 2%positive b)) initial).

(** [preserves R c]: running [c] from any state [w] ends in a state
    related to [w] by [R], whether [c] returns or throws. *)
Definition preserves (R : World -> World -> Prop) {A} (c : M A) : Prop :=
  forall w, R w (fst (c w)).

(** [returns c]: [c] never throws. *)
Definition returns {A} (c : M A) : Prop := forall w, exists a, snd (c w) = inr a.

(** ** Flushing playback *)

(** A playback handle is accounted for when it is still in flight or has
    been stopped. *)
Definition accounted (w : World) (h : Handle) : Prop :=
  In h (sourcesRef (refs w)) \/ In (SourceStop h) (log (browser w)).

Definition keeps_account (w w' : World) : Prop :=
  forall h, accounted w h -> accounted w' h.

(** The inbound event that carries only the interruption signal. *)
Definition interruption : Message := mkMessage None None true.

(** Two chunks, of 0.5 s and 0.3 s at 24 kHz, scheduled and in flight. *)
Definition two_in_flight : World :=
  fold_left enqueue [mkChunk "UklGRg" 0 12000; mkChunk "AAAAAA" 0 7200] awake_session.

(** The same session put to sleep. *)
Definition asleep_session : World :=
  on_ui (with_isSleepMode true) (on_refs (with_isSleepModeRef true) awake_session).

(** ** Steps that acquire nothing *)

(** [quiet w w']: from [w] to [w'] the trace only grew, by calls that
    acquire nothing, and no connection or live stream was added. *)
Definition quiet (w w' : World) : Prop :=
  (exists l, log (browser w') = log (browser w) ++ l
             /\ forallb (fun e => negb (acquires e)) l = true)
  /\ conns (browser w') = conns (browser w)
  /\ incl (liveStreams (browser w')) (liveStreams (browser w))
  /\ incl (openContexts (browser w')) (openContexts (browser w))
  /\ incl (timers (browser w')) (timers (browser w)).

(** The handler's later parts leave the React state alone. *)
Definition same_ui (w w' : World) : Prop := ui w' = ui w.

(** The phrase that asks to open a given source. *)
Definition openPhrase (ty : VideoType) (command : string) : bool :=
  match ty with
  | camera => cameraPhrase command
  | screen => negb (cameraPhrase command) && screenPhrase command
  end.

(** ** Invariants of the reachable states *)

(** At most one interval is installed, and it is the one the ref names. *)
Definition one_timer (w : World) : Prop :=
  timers (browser w) = []
  \/ exists t p, timers (browser w) = [(t, p)] /\ frameIntervalRef (refs w) = Some t.

(** The sleep flag's state cell and ref agree. *)
Definition sleep_in_sync (w : World) : Prop :=
  isSleepMode (ui w) = isSleepModeRef (refs w).

Definition coherent (w : World) : Prop := one_timer w /\ sleep_in_sync w.

(** [keeps I w w']: if [I] held before, it holds after. *)
Definition keeps (I : World -> Prop) (w w' : World) : Prop := I w -> I w'.

(** ** Starting without a credential *)

(** The state in which no session is running: nothing is held and every
    session flag is clear. *)
Definition not_started (w : World) : Prop :=
  isConnected (ui w) = false
  /\ sessionRef (refs w) = None
  /\ audioContextRef (refs w) = None
  /\ inputContextRef (refs w) = None
  /\ streamRef (refs w) = None
  /\ frameIntervalRef (refs w) = None
  /\ videoSource (ui w) = None
  /\ videoSourceRef (refs w) = None
  /\ sourcesRef (refs w) = []
  /\ isSleepMode (ui w) = false
  /\ isSleepModeRef (refs w) = false
  /\ pendingAction (ui w) = None
  /\ isAiSpeaking (ui w) = false
  /\ volumeLevel (ui w) = 0%Q
  /\ outputVolume (ui w) = 0%Q.

(** ** Frame sampling *)

(** Entering or leaving sleep touches neither the video stream nor its timer. *)
Definition same_video (w w' : World) : Prop :=
  timers (browser w') = timers (browser w)
  /\ liveStreams (browser w') = liveStreams (browser w)
  /\ frameIntervalRef (refs w') = frameIntervalRef (refs w)
  /\ streamRef (refs w') = streamRef (refs w)
  /\ videoSourceRef (refs w') = videoSourceRef (refs w)
  /\ videoRef (refs w') = videoRef (refs w).

(** An environment in which the credential is set and every request is
    granted. *)
Definition env_ok : Env := mkEnv (Some "key") Fulfilled Fulfilled Fulfilled true 0 0.

(** Camera switched on, session opened: one timer runs. *)
Definition camera_session : World :=
  run [ClickVideo camera env_ok; TransportOpen 5%positive env_ok] initial.

Definition frame_probe : VideoProbe := mkProbe false false 640 480 "/9j/4AAQ".

(** ** Sample runs *)

(** A session that played one chunk of 0.5 s and was then stopped. *)
Definition session_then_stop : list Event :=
  [ClickMain env_ok;
   TransportOpen 4%positive env_ok;
   TransportMessage 4%positive (audioChunk "UklGRg") 0 12000;
   ClickMain env_ok].

(** The same, then started again, the new session's first chunk arriving
    when its fresh playback clock reads 0. *)
Definition session_restarted : list Event :=
  session_then_stop ++
  [ClickMain env_ok;
   TransportOpen 9%positive env_ok;
   TransportMessage 9%positive (audioChunk "AAAAAA") 0 2400].

(** Mute pressed during a live session, then a captured block. *)
Definition mute_then_capture : list Event :=
  [ClickMain env_ok;
   TransportOpen 4%positive env_ok;
   ClickMute;
   AudioProcess 4%positive "AAECAw"].

(** Mute pressed, the session stopped and started again, mute released,
    then a captured block. *)
Definition unmute_then_capture : list Event :=
  [ClickMain env_ok;
   TransportOpen 4%positive env_ok;
   ClickMute;
   ClickMain env_ok;
   ClickMain env_ok;
   TransportOpen 8%positive env_ok;
   ClickMute;
   AudioProcess 8%positive "AAECAw"].

(** * Further statement vocabulary *)

(** ** The playback timeline for arbitrary arrivals *)

(** Where chunks land when each is handled at its own clock reading:
    every chunk starts at the later of the scheduled end and its arrival. *)
Fixpoint timeline (scheduledEnd : Z) (cs : list Chunk) : list (Z * Z) :=
  match cs with
  | [] => []
  | c :: rest =>
      let startAt := Z.max scheduledEnd (chunk_now c) in
      (startAt, chunk_duration c) :: timeline (startAt + chunk_duration c) rest
  end.

(** ** What the later parts of [onmessage] leave alone *)

(** Scheduling a chunk and flushing playback touch neither the React
    state, nor the sleep ref, nor the video stream and its timer, and only
    add to the trace. *)
Definition same_mode (w w' : World) : Prop :=
  ui w' = ui w
  /\ isSleepModeRef (refs w') = isSleepModeRef (refs w)
  /\ audioContextRef (refs w') = audioContextRef (refs w)
  /\ same_video w w'
  /\ (forall e, In e (log (browser w)) -> In e (log (browser w'))).

(** A step that may turn the video off but never turns it on or switches
    it. *)
Definition only_stops_video (w w' : World) : Prop :=
  (videoSourceRef (refs w') = videoSourceRef (refs w) \/ videoSourceRef (refs w') = None)
  /\ (videoSource (ui w') = videoSource (ui w) \/ videoSource (ui w') = None)
  /\ (streamRef (refs w') = streamRef (refs w) \/ streamRef (refs w') = None)
  /\ (frameIntervalRef (refs w') = frameIntervalRef (refs w)
      \/ frameIntervalRef (refs w') = None).

(** ** Volume sampling *)

(** The mean of an analyser's byte array, as computed by the two loops of
    [updateVolume]: the sum of the bins over their number. *)
Definition byteAverage (data : list Z) : Q :=
  Qdiv (inject_Z (fold_left Z.add data 0)) (inject_Z (Z.of_nat (length data))).

(** [updateVolume] on the two arrays that [getByteFrequencyData] filled.
    [outputAnalyserRef] is assigned before this closure is created and is
    never cleared, so its guard holds whenever the closure runs.  The
    means are kept as exact rationals; the source rounds the division by
    255 to a double, which keeps the value within the same bounds. *)
Definition updateVolumeFrom (inputDataArray outputDataArray : list Z) : M unit :=
  updateVolume (byteAverage inputDataArray) (byteAverage outputDataArray).

(** A [Uint8Array] holds bytes. *)
Definition bytes (data : list Z) : Prop := Forall (fun x => 0 <= x <= 255) data.

(** * The research service: [services/gemini.ts] and [types.ts] *)

(** [SearchResult] *)
Record SearchResult : Type := mkResult { title : option string; uri : string }.

(** [ChatMessage] *)
Inductive Role : Type := user | model.

Record ChatMessage : Type := mkChat {
  role : Role;
  text : string;
  sources : option (list SearchResult);
  timestamp : Z
}.

(** [chunk.web]: both fields are optional. *)
Record WebRef : Type := mkWeb { web_uri : option string; web_title : option string }.

(** One grounding chunk of the response. *)
Record GroundingChunk : Type := mkGrounding { web : option WebRef }.

(** What [performResearch] reads of the response of [generateContent]. *)
Record GenerateResponse : Type := mkResponse {
  response_text : option string;                       (* response.text *)
  groundingChunks : option (list GroundingChunk)
    (* response.candidates?.[0]?.groundingMetadata?.groundingChunks *)
}.

(** The callback of [chunks.map]: a source when the chunk has a non-empty
    uri and a non-empty title, [null] otherwise. *)
Definition toSource (chunk : GroundingChunk) : option SearchResult :=
  match web chunk with
  | Some w =>
      match truthy (web_uri w), truthy (web_title w) with
      | Some u, Some t => Some (mkResult (Some t) u)
      | _, _ => None
      end
  | None => None
  end.

(** [chunks.map(..).filter(s => s !== null)] *)
Fixpoint extractSources (chunks : list GroundingChunk) : list SearchResult :=
  match chunks with
  | [] => []
  | chunk :: rest =>
      match toSource chunk with
      | Some s => s :: extractSources rest
      | None => extractSources rest
      end
  end.

(** [a.findIndex(p)], counting from [i]: the index of the first element
    that satisfies [p], or -1. *)
Fixpoint findIndex_from {A} (p : A -> bool) (a : list A) (i : Z) : Z :=
  match a with
  | [] => -1
  | x :: rest => if p x then i else findIndex_from p rest (i + 1)
  end.

Definition findIndex {A} (p : A -> bool) (a : list A) : Z := findIndex_from p a 0.

(** [a.filter((v, i) => f v i)], counting from [i]. *)
Fixpoint filter_indexed {A} (f : A -> Z -> bool) (a : list A) (i : Z) : list A :=
  match a with
  | [] => []
  | v :: rest =>
      if f v i then v :: filter_indexed f rest (i + 1)
      else filter_indexed f rest (i + 1)
  end.

(** [sources.filter((v, i, a) => a.findIndex(t => t.uri === v.uri) === i)] *)
Definition uniqueSources (srcs : list SearchResult) : list SearchResult :=
  filter_indexed
    (fun v i => findIndex (fun t => String.eqb (uri t) (uri v)) srcs =? i)
    srcs 0.

(** [performResearch], given how [generateContent] settled and what
    [Date.now()] read. *)
Definition performResearch (outcome : JsError + GenerateResponse) (now : Z) : ChatMessage :=
  match outcome with
  | inr response =>
      let text := or_else (response_text response) "Sem resultados." in
      let chunks := match groundingChunks response with
                    | Some cs => cs
                    | None => []
                    end in
      mkChat model text (Some (uniqueSources (extractSources chunks))) now
  | inl _ =>
      mkChat model
        "Erro ao acessar os bancos de dados da Aura. Verifique a chave de API ou a conexão."
        None now
  end.

(** The sources a message shows. *)
Definition shown (m : ChatMessage) : list SearchResult :=
  match sources m with
  | Some l => l
  | None => []
  end.

(** The first source with a given uri. *)
Definition first_with (u : string) (l : list SearchResult) : option SearchResult :=
  find (fun t => String.eqb (uri t) u) l.

(** Keeping of each uri its first source, with the uris already seen. *)
Fixpoint keep_first (seen : list string) (l : list SearchResult) : list SearchResult :=
  match l with
  | [] => []
  | v :: rest =>
      if existsb (String.eqb (uri v)) seen then keep_first seen rest
      else v :: keep_first (uri v :: seen) rest
  end.

(** * The research chat: [components/ChatInterface.tsx] *)

(** [!s.trim()]: the text consists of white space and line terminators
    only.  The code points are those of ECMAScript's WhiteSpace and
    LineTerminator, in UTF-8: U+0009..U+000D, U+0020, U+00A0, U+1680,
    U+2000..U+200A, U+2028, U+2029, U+202F, U+205F, U+3000, U+FEFF. *)
Fixpoint isBlank (s : string) : bool :=
  match s with
  | EmptyString => true
  | String c r =>
      let n := nat_of_ascii c in
      if (((9 <=? n) && (n <=? 13)) || (n =? 32))%nat then isBlank r
      else
        match r with
        | String d r' =>
            let k := nat_of_ascii d in
            if ((n =? 194) && (k =? 160))%nat then isBlank r'
            else
              match r' with
              | String e r'' =>
                  let j := nat_of_ascii e in
                  if (((n =? 225) && (k =? 154) && (j =? 128))
                      || ((n =? 226) && (k =? 128)
                          && (((128 <=? j) && (j <=? 138)) || (j =? 168) || (j =? 169)
                              || (j =? 175)))
                      || ((n =? 226) && (k =? 129) && (j =? 159))
                      || ((n =? 227) && (k =? 128) && (j =? 128))
                      || ((n =? 239) && (k =? 187) && (j =? 191)))%nat
                  then isBlank r''
                  else false
              | EmptyString => false
              end
        | EmptyString => false
        end
  end.

(** The component's state, with the queries whose reply is awaited: each
    is the [userMsg.text] held by a suspended [handleSend]. *)
Record Chat : Type := mkChatState {
  messages : list ChatMessage;
  input : string;
  isLoading : bool;
  outstanding : list string
}.

(** The state at mount, [now] being what [Date.now()] read. *)
Definition initialChat (now : Z) : Chat :=
  mkChatState
    [mkChat model
       "Módulo de pesquisa online ativado. Digite sua consulta para acessar a rede global de dados."
       None now]
    "" false [].

(** [handleSend] up to its [await]. *)
Definition handleSend (now : Z) (c : Chat) : Chat :=
  if isBlank (input c) || isLoading c then c
  else
    let userMsg := mkChat user (input c) None now in
    mkChatState (messages c ++ [userMsg]) "" true (outstanding c ++ [text userMsg]).

(** [handleSend] after its [await]: [response] is what
    [performResearch(userMsg.text)] resolved to. *)
Definition handleSend_resume (response : ChatMessage) (c : Chat) : Chat :=
  match outstanding c with
  | [] => c
  | _ :: rest => mkChatState (messages c ++ [response]) (input c) false rest
  end.

(** [handleKeyDown] *)
Definition handleKeyDown (key : string) (shiftKey : bool) (now : Z) (c : Chat) : Chat :=
  if String.eqb key "Enter" && negb shiftKey then handleSend now c else c.

Inductive ChatEvent : Type :=
| InputChange (value : string)                         (* onChange: setInput *)
| ClickSend (now : Z)                                  (* onClick: handleSend *)
| KeyDown (key : string) (shiftKey : bool) (now : Z)   (* onKeyDown *)
| ResearchSettled (outcome : JsError + GenerateResponse) (now : Z).

Definition chatStep (c : Chat) (e : ChatEvent) : Chat :=
  match e with
  | InputChange value => mkChatState (messages c) value (isLoading c) (outstanding c)
  | ClickSend now =>
      (* the button is disabled while loading *)
      if isLoading c then c else handleSend now c
  | KeyDown key shiftKey now => handleKeyDown key shiftKey now c
  | ResearchSettled outcome now => handleSend_resume (performResearch outcome now) c
  end.

Definition chatRun (es : list ChatEvent) (c : Chat) : Chat := fold_left chatStep es c.

(** The other party. *)
Definition other (r : Role) : Role :=
  match r with user => model | model => user end.

(** Roles that take turns, the model first. *)
Fixpoint takes_turns (next : Role) (rs : list Role) : Prop :=
  match rs with
  | [] => True
  | r :: rest =>
      r = next /\ takes_turns (match next with user => model | model => user end) rest
  end.

(** What holds of the chat between events. *)
Definition chat_ok (c : Chat) : Prop :=
  takes_turns model (map role (messages c))
  /\ (isLoading c = false ->
        outstanding c = []
        /\ exists m, last (map Some (messages c)) None = Some m /\ role m = model)
  /\ (isLoading c = true ->
        exists m, last (map Some (messages c)) None = Some m
                  /\ role m = user /\ outstanding c = [text m])
  /\ (forall m, In m (messages c) -> role m = user -> isBlank (text m) = false).

(** * Further invariants of the live session *)

(** A call that hands out a video stream with identity [m]. *)
Definition is_video_effect (m : Handle) (e : Effect) : bool :=
  match e with
  | GetUserMediaVideo m' | GetDisplayMedia m' => Pos.eqb m m'
  | _ => false
  end.

(** The video source shown, the ref and the attached stream go together;
    the attached stream is a live video stream, and no other video stream
    is live. *)
Definition video_ok (w : World) : Prop :=
  videoSource (ui w) = videoSourceRef (refs w)
  /\ (videoSourceRef (refs w) = None <-> streamRef (refs w) = None)
  /\ (forall m, is_video_stream m w = true -> (m < fresh (browser w))%positive)
  /\ (forall m, In m (liveStreams (browser w)) -> is_video_stream m w = true ->
        streamRef (refs w) = Some m)
  /\ (forall m, streamRef (refs w) = Some m ->
        In m (liveStreams (browser w)) /\ is_video_stream m w = true).

(** * Properties *)

(** ** Strings *)

Example toLowerCase_camera : toLowerCase "Ligar CÂMERA" = "ligar câmera".
Proof. vm_compute. reflexivity. Qed.

(** U+0130 lowercases to [i] and a combining dot, so that the text holds
    "oi". *)
Example toLowerCase_dotted_I : wakePhrase (toLowerCase "Oİ") = true.
Proof. vm_compute. reflexivity. Qed.

(** The Kelvin sign U+212A lowercases to the letter [k]. *)
Example toLowerCase_kelvin : toLowerCase "K" = "k".
Proof. vm_compute. reflexivity. Qed.

Example toLowerCase_final_sigma : toLowerCase "ΟΔΟΣ ΣΟΦΟΣ." = "οδος σοφος.".
Proof. vm_compute. reflexivity. Qed.

Example includes_dormir : sleepPhrase "aura, vamos dormir" = true.
Proof. reflexivity. Qed.

Example ligar_camera_no_wake : wakePhrase "ligar câmera" = false.
Proof. reflexivity. Qed.

(** ** Playback scheduling *)

Lemma scheduled_app (l1 l2 : list Effect) :
  scheduled (l1 ++ l2) = scheduled l1 ++ scheduled l2.
Proof.
  induction l1 as [|e l1 IH]; [reflexivity|].
  destruct e; simpl; rewrite ?IH; reflexivity.
Qed.

Lemma truthy_nonempty (s : string) : s <> "" -> truthy (Some s) = Some s.
Proof. destruct s; [congruence | reflexivity]. Qed.

Lemma scheduleChunk_awake (w : World) (now d : Z) (ctx : Handle) :
  audioContextRef (refs w) = Some ctx ->
  isSleepModeRef (refs w) = false ->
  let startAt := Z.max (nextStartTimeRef (refs w)) now in
  let w' := exec (scheduleChunk now d) w in
  log (browser w') = log (browser w) ++ [SourceStart (fresh (browser w)) startAt d]
  /\ nextStartTimeRef (refs w') = startAt + d
  /\ sourcesRef (refs w') = set_add (fresh (browser w)) (sourcesRef (refs w))
  /\ audioContextRef (refs w') = Some ctx
  /\ isSleepModeRef (refs w') = false.
Proof.
  intros Hc Ha. unfold exec, scheduleChunk, rd, gets, bind. cbn.
  rewrite Hc, Ha. cbn. repeat split; assumption.
Qed.

Lemma enqueue_awake (w : World) (c : Chunk) (ctx : Handle) :
  audioContextRef (refs w) = Some ctx ->
  isSleepModeRef (refs w) = false ->
  chunk_data c <> "" ->
  let startAt := Z.max (nextStartTimeRef (refs w)) (chunk_now c) in
  let w' := enqueue w c in
  scheduled (log (browser w'))
    = scheduled (log (browser w)) ++ [(startAt, chunk_duration c)]
  /\ nextStartTimeRef (refs w') = startAt + chunk_duration c
  /\ audioContextRef (refs w') = Some ctx
  /\ isSleepModeRef (refs w') = false.
Proof.
  intros Hc Ha Hd.
  destruct (scheduleChunk_awake w (chunk_now c) (chunk_duration c) ctx Hc Ha)
    as (Hl & Hn & _ & Hc' & Ha').
  assert (E : enqueue w c = exec (scheduleChunk (chunk_now c) (chunk_duration c)) w).
  { unfold enqueue, onmessage, audioChunk.
    cbn [inputTranscription inlineData interrupted].
    rewrite (truthy_nonempty _ Hd). change (truthy None) with (@None string).
    unfold exec, bind, skip, ret.
    destruct (scheduleChunk (chunk_now c) (chunk_duration c) w) as [w1 [e|[]]]; reflexivity. }
  cbv zeta. rewrite E, Hl, scheduled_app. auto.
Qed.

Lemma feed_chain (cs : list Chunk) : forall (w : World) (ctx : Handle),
  audioContextRef (refs w) = Some ctx ->
  isSleepModeRef (refs w) = false ->
  Forall chunk_ok cs ->
  faster_than_real_time (nextStartTimeRef (refs w)) cs ->
  scheduled (log (browser (fold_left enqueue cs w)))
    = scheduled (log (browser w))
      ++ chain (nextStartTimeRef (refs w)) (map chunk_duration cs).
Proof.
  induction cs as [|c cs IH]; intros w ctx Hc Ha Hok Hf.
  - simpl. now rewrite app_nil_r.
  - inversion Hok as [|? ? [Hd Hpos] Hok']; subst. destruct Hf as [Hnow Hf].
    destruct (enqueue_awake w c ctx Hc Ha Hd) as (Hl & Hn & Hc' & Ha').
    rewrite Z.max_l in Hl, Hn by exact Hnow.
    simpl. rewrite (IH (enqueue w c) ctx Hc' Ha' Hok'), Hl, Hn.
    + now rewrite <- app_assoc.
    + now rewrite Hn.
Qed.

Lemma chain_durations (ds : list Z) : forall t, map snd (chain t ds) = ds.
Proof. induction ds as [|d ds IH]; intros t; simpl; [|rewrite IH]; reflexivity. Qed.

Lemma chain_back_to_back (ds : list Z) : forall t, back_to_back (chain t ds).
Proof.
  induction ds as [|d ds IH]; intros t; simpl; [exact I|].
  specialize (IH (t + d)). destruct ds; simpl in *; [exact I | split; [reflexivity | exact IH]].
Qed.

Lemma chain_no_overlap (ds : list Z) : forall t, no_overlap (chain t ds).
Proof.
  induction ds as [|d ds IH]; intros t; simpl; [exact I|].
  specialize (IH (t + d)). destruct ds; simpl in *; [exact I | split; [lia | exact IH]].
Qed.

Lemma chain_starts (ds : list Z) : forall t,
  Forall (fun d => 0 <= d) ds -> starts_nondecreasing (chain t ds).
Proof.
  induction ds as [|d ds IH]; intros t Hpos; simpl; [exact I|].
  inversion Hpos as [|? ? Hd Hrest]; subst.
  specialize (IH (t + d) Hrest). destruct ds; simpl in *; [exact I | split; [lia | exact IH]].
Qed.

(** C1. While the session is awake, an inbound audio chunk is started at
    [startAt = max(nextStartTime, now)] and leaves
    [nextStartTime = startAt + duration]; and for chunks that arrive
    faster than real time the scheduled intervals are laid end to end from
    the first start: starts never decrease, each interval ends exactly
    where the next begins, and none overlaps the next. *)
Theorem playback_back_to_back (w : World) (ctx : Handle) (c : Chunk) (cs : list Chunk) :
  audioContextRef (refs w) = Some ctx ->
  isSleepModeRef (refs w) = false ->
  Forall chunk_ok (c :: cs) ->
  let startAt := Z.max (nextStartTimeRef (refs w)) (chunk_now c) in
  let w1 := enqueue w c in
  (scheduled (log (browser w1))
     = scheduled (log (browser w)) ++ [(startAt, chunk_duration c)]
   /\ nextStartTimeRef (refs w1) = startAt + chunk_duration c)
  /\ (faster_than_real_time (startAt + chunk_duration c) cs ->
      exists ivs,
        scheduled (log (browser (fold_left enqueue (c :: cs) w)))
          = scheduled (log (browser w)) ++ ivs
        /\ hd_error ivs = Some (startAt, chunk_duration c)
        /\ map snd ivs = map chunk_duration (c :: cs)
        /\ starts_nondecreasing ivs
        /\ back_to_back ivs
        /\ no_overlap ivs).
Proof.
  intros Hc Ha Hok startAt w1.
  inversion Hok as [|? ? [Hd Hpos] Hok']; subst.
  destruct (enqueue_awake w c ctx Hc Ha Hd) as (Hl & Hn & Hc' & Ha').
  fold startAt w1 in Hl, Hn, Hc', Ha'.
  split; [split; assumption|].
  intros Hf. exists (chain startAt (map chunk_duration (c :: cs))).
  assert (Hds : Forall (fun d => 0 <= d) (map chunk_duration (c :: cs))).
  { apply Forall_map. eapply Forall_impl; [|exact Hok]. intros a [_ H]; exact H. }
  repeat split.
  - cbn [fold_left map chain]. fold w1.
    rewrite (feed_chain cs w1 ctx Hc' Ha' Hok'), Hl, Hn, <- app_assoc; [reflexivity|].
    now rewrite Hn.
  - apply chain_durations.
  - apply chain_starts, Hds.
  - apply chain_back_to_back.
  - apply chain_no_overlap.
Qed.

(** Two chunks of 0.5 s and 0.3 s at 24 kHz, both handled at clock 0 on
    a fresh session: the first plays over [0, 12000), the second follows
    at 12000. *)
Lemma playback_back_to_back_witness :
  exists ivs,
    scheduled (log (browser
      (fold_left enqueue [mkChunk "UklGRg" 0 12000; mkChunk "AAAAAA" 0 7200] awake_session)))
      = scheduled (log (browser awake_session)) ++ ivs
    /\ hd_error ivs = Some (0, 12000)
    /\ map snd ivs = [12000; 7200]
    /\ starts_nondecreasing ivs
    /\ back_to_back ivs
    /\ no_overlap ivs.
Proof.
  refine (proj2 (playback_back_to_back awake_session 1%positive
                   (mkChunk "UklGRg" 0 12000) [mkChunk "AAAAAA" 0 7200]
                   eq_refl eq_refl _) _).
  - repeat constructor; cbn; (congruence || lia).
  - cbn. lia.
Defined.

(** ** A small relational logic for handlers

    [preserves R c] says that running [c] from any state [w] ends in a
    state related to [w], whether [c] returns or throws.  For a preorder
    [R] it is closed under the monad's combinators, so a property of a
    handler follows the handler's own structure. *)

Section Preservation.
Context (R : World -> World -> Prop) {R_pre : PreOrder R}.

Lemma preserves_ret {A} (a : A) : preserves R (ret a).
Proof. intros w. reflexivity. Qed.

Lemma preserves_throw {A} (e : JsError) : preserves R (@throw A e).
Proof. intros w. reflexivity. Qed.

Lemma preserves_gets {A} (f : World -> A) : preserves R (gets f).
Proof. intros w. reflexivity. Qed.

Lemma preserves_bind {A B} (c : M A) (k : A -> M B) :
  preserves R c -> (forall a, preserves R (k a)) -> preserves R (bind c k).
Proof.
  intros Hc Hk w. unfold bind. specialize (Hc w).
  destruct (c w) as [w1 [e|a]]; cbn in *; [exact Hc|].
  etransitivity; [exact Hc | apply Hk].
Qed.

Lemma preserves_try_catch {A} (c : M A) (h : JsError -> M A) :
  preserves R c -> (forall e, preserves R (h e)) -> preserves R (try_catch c h).
Proof.
  intros Hc Hh w. unfold try_catch. specialize (Hc w).
  destruct (c w) as [w1 [e|a]]; cbn in *; [|exact Hc].
  etransitivity; [exact Hc | apply Hh].
Qed.

Lemma preserves_modify (f : World -> World) :
  (forall w, R w (f w)) -> preserves R (modify f).
Proof. intros H w. apply H. Qed.

Lemma preserves_forEach {A} (xs : list A) (f : A -> M unit) :
  (forall x, preserves R (f x)) -> preserves R (forEach xs f).
Proof.
  intros Hf. induction xs as [|x xs IH]; cbn [forEach].
  - apply preserves_ret.
  - apply preserves_bind; [apply Hf | intros _; exact IH].
Qed.

Lemma preserves_await (o : Outcome) : preserves R (await o).
Proof. destruct o; [apply preserves_ret | apply preserves_throw]. Qed.

Lemma preserves_exec {A} (c : M A) (w : World) : preserves R c -> R w (exec c w).
Proof. intros H. apply H. Qed.
End Preservation.

(** One structural step on a [preserves] goal. *)
Ltac pres_step :=
  lazymatch goal with
  | |- preserves _ (bind _ _) => refine (preserves_bind _ _ _ _ _); [| intros ?]
  | |- preserves _ (try_catch _ _) => refine (preserves_try_catch _ _ _ _ _); [| intros ?]
  | |- preserves _ (ret _) => refine (preserves_ret _ _)
  | |- preserves _ skip => refine (preserves_ret _ _)
  | |- preserves _ (throw _) => refine (preserves_throw _ _)
  | |- preserves _ (gets _) => refine (preserves_gets _ _)
  | |- preserves _ (rd _) => refine (preserves_gets _ _)
  | |- preserves _ (await _) => refine (preserves_await _ _)
  | |- preserves _ (forEach _ _) => refine (preserves_forEach _ _ _ _); intros ?
  | |- preserves _ (match ?x with _ => _ end) => destruct x
  end.

(** Handlers that never throw. *)

Lemma returns_ret {A} (a : A) : returns (ret a).
Proof. intros w. now exists a. Qed.

Lemma returns_gets {A} (f : World -> A) : returns (gets f).
Proof. intros w. now exists (f w). Qed.

Lemma returns_modify (f : World -> World) : returns (modify f).
Proof. intros w. now exists tt. Qed.

Lemma returns_bind {A B} (c : M A) (k : A -> M B) :
  returns c -> (forall a, returns (k a)) -> returns (bind c k).
Proof.
  intros Hc Hk w. unfold bind. destruct (Hc w) as [a Ha].
  destruct (c w) as [w1 [e|a']]; cbn in Ha; [discriminate|]. apply Hk.
Qed.

Lemma returns_try_catch {A} (c : M A) (h : JsError -> M A) :
  (forall e, returns (h e)) -> returns (try_catch c h).
Proof.
  intros Hh w. unfold try_catch.
  destruct (c w) as [w1 [e|a]]; [apply Hh | now exists a].
Qed.

Lemma returns_forEach {A} (xs : list A) (f : A -> M unit) :
  (forall x, returns (f x)) -> returns (forEach xs f).
Proof.
  intros Hf. induction xs as [|x xs IH]; cbn [forEach].
  - apply returns_ret.
  - apply returns_bind; [apply Hf | intros _; exact IH].
Qed.

Ltac returns_step :=
  lazymatch goal with
  | |- returns (bind _ _) => apply returns_bind; [| intros ?]
  | |- returns (try_catch _ _) => apply returns_try_catch; intros ?
  | |- returns (ret _) => apply returns_ret
  | |- returns skip => apply returns_ret
  | |- returns (gets _) => apply returns_gets
  | |- returns (rd _) => apply returns_gets
  | |- returns (modify _) => apply returns_modify
  | |- returns (wr _) => apply returns_modify
  | |- returns (forEach _ _) => apply returns_forEach; intros ?
  | |- returns (match ?x with _ => _ end) => destruct x
  end.

Ltac returns_all :=
  repeat first
    [ returns_step
    | progress unfold emit, alloc, setIsConnected, setIsMuted, setVolumeLevel,
        setOutputVolume, setVideoSource, setError, setIsSleepMode, setPendingAction,
        setIsAiSpeaking, clearInterval, stopTracks, closeContext, setInterval,
        playActivationSound, stopAllSources, map_conn ].

Lemma setSleepState_returns (b : bool) : returns (setSleepState b).
Proof. unfold setSleepState. returns_all. Qed.

Lemma stopVideoStream_returns : returns stopVideoStream.
Proof. unfold stopVideoStream. returns_all. Qed.

Lemma cleanup_returns : returns cleanup.
Proof.
  unfold cleanup.
  repeat first [ apply setSleepState_returns | apply stopVideoStream_returns | returns_all ].
Qed.

Lemma voiceCommand_returns (command : string) : returns (voiceCommand command).
Proof.
  unfold voiceCommand.
  repeat first [ apply setSleepState_returns | apply stopVideoStream_returns | returns_all ].
Qed.

Lemma scheduleChunk_returns (now d : Z) : returns (scheduleChunk now d).
Proof. unfold scheduleChunk. returns_all. Qed.

(** A handler that never throws is determined by the state it leaves. *)
Lemma returns_exec (c : M unit) (w : World) : returns c -> c w = (exec c w, inr tt).
Proof.
  intros H. unfold exec. destruct (H w) as [[] Ha].
  destruct (c w) as [w1 [e|[]]]; cbn in *; [discriminate | reflexivity].
Qed.

(** ** Flushing playback *)

#[local] Instance keeps_account_pre : PreOrder keeps_account.
Proof. split; [intros w h H; exact H | intros a b c H1 H2 h H; auto]. Qed.

Lemma keeps_account_same (w w' : World) :
  sourcesRef (refs w') = sourcesRef (refs w) ->
  (exists l, log (browser w') = log (browser w) ++ l) ->
  keeps_account w w'.
Proof.
  intros Hs [l Hl] h [H|H]; [left; now rewrite Hs | right; rewrite Hl; apply in_or_app; auto].
Qed.

Lemma forEach_stop (srcs : list Handle) : forall w,
  forEach srcs (fun s => emit (SourceStop s)) w
  = (on_browser (fun b => with_log (log b ++ map SourceStop srcs) b) w, inr tt).
Proof.
  induction srcs as [|h srcs IH]; intros w.
  - cbn. unfold on_browser, with_log. rewrite app_nil_r. destruct w as [u r []]; reflexivity.
  - cbn [forEach map]. unfold bind at 1. cbn [emit modify]. unfold emit at 1, modify at 1.
    rewrite IH. unfold on_browser, with_log. cbn. rewrite <- app_assoc. reflexivity.
Qed.

Lemma stopAllSources_eq (w : World) :
  stopAllSources w
  = (on_refs (with_nextStartTimeRef 0)
       (on_refs (with_sourcesRef [])
          (on_browser (fun b => with_log (log b ++ map SourceStop (sourcesRef (refs w))) b) w)),
     inr tt).
Proof.
  unfold stopAllSources, bind, rd, gets. change (fst (w, _)) with w.
  cbv beta iota. rewrite forEach_stop. reflexivity.
Qed.

Lemma stopAllSources_account : preserves keeps_account stopAllSources.
Proof.
  intros w h [H|H]; rewrite stopAllSources_eq; right; cbn; apply in_or_app.
  - right. now apply in_map.
  - now left.
Qed.

(** Steps that leave the in-flight set alone and only add to the trace. *)
Ltac account_leaf :=
  refine (preserves_modify _ _ _); intros ?; apply keeps_account_same;
  [ reflexivity | cbn; first [ now eexists | exists []; now rewrite app_nil_r ] ].

Ltac account :=
  repeat first
    [ exact stopAllSources_account
    | progress unfold emit, alloc, setIsSleepMode, setIsAiSpeaking, setVideoSource,
        setPendingAction, clearInterval, stopTracks, wr, playActivationSound
    | pres_step
    | account_leaf ].

Lemma setSleepState_account (b : bool) : preserves keeps_account (setSleepState b).
Proof. unfold setSleepState. account. Qed.

Lemma stopVideoStream_account : preserves keeps_account stopVideoStream.
Proof. unfold stopVideoStream. account. Qed.

Lemma voiceCommand_account (command : string) :
  preserves keeps_account (voiceCommand command).
Proof.
  unfold voiceCommand.
  repeat first [ apply setSleepState_account | apply stopVideoStream_account | account ].
Qed.

Lemma scheduleChunk_account (now d : Z) : preserves keeps_account (scheduleChunk now d).
Proof.
  intros w. unfold scheduleChunk, rd, gets, bind. cbn.
  destruct (audioContextRef (refs w)) as [ctx|]; [|reflexivity].
  destruct (isSleepModeRef (refs w)); cbn; [reflexivity|].
  intros h [H|H]; [left | right]; cbn.
  - unfold set_add.
    destruct (mem_handle _ _); [exact H | apply in_or_app; now left].
  - apply in_or_app; now left.
Qed.

(** Up to its last statement, [onmessage] keeps every handle accounted
    for; what is left is the interruption test. *)
Lemma onmessage_split (msg : Message) (now d : Z) (w : World) :
  exists w2,
    keeps_account w w2
    /\ onmessage msg now d w = (if interrupted msg then stopAllSources else skip) w2.
Proof.
  unfold onmessage.
  set (c1 := match truthy (inputTranscription msg) with
             | Some t => voiceCommand (toLowerCase t) | None => skip end).
  set (c2 := match truthy (inlineData msg) with
             | Some _ => scheduleChunk now d | None => skip end).
  assert (R1 : returns c1).
  { subst c1. destruct (truthy (inputTranscription msg)); [apply voiceCommand_returns | apply returns_ret]. }
  assert (R2 : returns c2).
  { subst c2. destruct (truthy (inlineData msg)); [apply scheduleChunk_returns | apply returns_ret]. }
  assert (P1 : preserves keeps_account c1).
  { subst c1. destruct (truthy (inputTranscription msg)); [apply voiceCommand_account | refine (preserves_ret _ _)]. }
  assert (P2 : preserves keeps_account c2).
  { subst c2. destruct (truthy (inlineData msg)); [apply scheduleChunk_account | refine (preserves_ret _ _)]. }
  exists (exec c2 (exec c1 w)). split.
  - transitivity (exec c1 w); [apply P1 | apply P2].
  - unfold bind. rewrite (returns_exec c1 w R1), (returns_exec c2 _ R2). reflexivity.
Qed.

Lemma flushed_fixpoint (w : World) :
  sourcesRef (refs w) = [] -> nextStartTimeRef (refs w) = 0 ->
  exec stopAllSources w = w.
Proof.
  intros Hs Hn. unfold exec. rewrite stopAllSources_eq, Hs.
  destruct w as [u [] []]. cbn in *. subst.
  unfold on_refs, on_browser, with_log. cbn. rewrite app_nil_r. reflexivity.
Qed.

Lemma interruption_flush (now d : Z) (w : World) :
  exec (onmessage interruption now d) w = exec stopAllSources w.
Proof.
  unfold exec, onmessage, interruption, bind, skip, ret.
  cbn [inputTranscription inlineData interrupted truthy]. reflexivity.
Qed.

Lemma flush_spec (w : World) :
  let w' := exec stopAllSources w in
  sourcesRef (refs w') = [] /\ nextStartTimeRef (refs w') = 0
  /\ log (browser w') = log (browser w) ++ map SourceStop (sourcesRef (refs w))
  /\ isSleepModeRef (refs w') = isSleepModeRef (refs w)
  /\ exec stopAllSources w' = w'.
Proof.
  assert (E : exec stopAllSources w
              = on_refs (with_nextStartTimeRef 0)
                  (on_refs (with_sourcesRef [])
                     (on_browser (fun b =>
                        with_log (log b ++ map SourceStop (sourcesRef (refs w))) b) w))).
  { unfold exec. now rewrite stopAllSources_eq. }
  cbv zeta. rewrite E. split; [reflexivity|]. split; [reflexivity|].
  split; [reflexivity|]. split; [reflexivity|].
  apply flushed_fixpoint; reflexivity.
Qed.

(** C2. A flush, whether from an inbound interruption or from entering
    sleep, stops every handle that was in flight, leaves the in-flight set
    empty and [nextStartTime] at 0, whatever the state before; a second
    flush changes nothing. *)
Theorem flush_resets (w : World) :
  (forall msg now d, interrupted msg = true ->
     let w' := exec (onmessage msg now d) w in
     sourcesRef (refs w') = [] /\ nextStartTimeRef (refs w') = 0
     /\ (forall h, In h (sourcesRef (refs w)) -> In (SourceStop h) (log (browser w')))
     /\ (forall now' d', exec (onmessage interruption now' d') w' = w'))
  /\ (isSleepModeRef (refs w) = false ->
      let w' := exec (setSleepState true) w in
      isSleepModeRef (refs w') = true
      /\ sourcesRef (refs w') = [] /\ nextStartTimeRef (refs w') = 0
      /\ (forall h, In h (sourcesRef (refs w)) -> In (SourceStop h) (log (browser w')))
      /\ exec (setSleepState true) w' = w'
      /\ (forall now' d', exec (onmessage interruption now' d') w' = w')).
Proof.
  split.
  - intros msg now d Hi.
    destruct (onmessage_split msg now d w) as (w2 & Hk & E).
    rewrite Hi in E. cbv zeta.
    assert (Ew : exec (onmessage msg now d) w = exec stopAllSources w2).
    { unfold exec. now rewrite E. }
    rewrite Ew. destruct (flush_spec w2) as (Hs & Hn & Hl & _ & Hf).
    repeat split; try assumption.
    + intros h Hh. rewrite Hl. apply in_or_app.
      destruct (Hk h (or_introl Hh)) as [H|H]; [right; now apply in_map | now left].
    + intros now' d'. now rewrite interruption_flush.
  - intros Ha. cbv zeta.
    set (w1 := on_ui (with_isSleepMode true) (on_refs (with_isSleepModeRef true) w)).
    assert (E : exec (setSleepState true) w
                = on_ui (with_isAiSpeaking false) (exec stopAllSources w1)).
    { subst w1. unfold exec, setSleepState, bind, rd, gets, wr, setIsSleepMode,
        setIsAiSpeaking, modify.
      cbv beta iota. rewrite Ha. cbn [Bool.eqb]. rewrite stopAllSources_eq. reflexivity. }
    rewrite E. destruct (flush_spec w1) as (Hs & Hn & Hl & Hm & Hf).
    assert (Hasleep : isSleepModeRef (refs (on_ui (with_isAiSpeaking false)
                                         (exec stopAllSources w1))) = true).
    { cbn. now rewrite Hm. }
    repeat split; try assumption.
    + intros h Hh. cbn. rewrite Hl. apply in_or_app. right. now apply in_map.
    + unfold exec at 1, setSleepState, bind, rd, gets. cbn [fst]. now rewrite Hasleep.
    + intros now' d'. rewrite interruption_flush.
      apply flushed_fixpoint; assumption.
Qed.

Lemma flush_resets_witness :
  let w' := exec (onmessage interruption 2400 0) two_in_flight in
  sourcesRef (refs two_in_flight) = [2%positive; 3%positive]
  /\ sourcesRef (refs w') = []
  /\ nextStartTimeRef (refs w') = 0
  /\ In (SourceStop 2%positive) (log (browser w'))
  /\ In (SourceStop 3%positive) (log (browser w')).
Proof.
  pose proof (proj1 (flush_resets two_in_flight) interruption 2400 0 eq_refl) as H.
  cbv zeta in *. destruct H as (H1 & H2 & H3 & _).
  split; [reflexivity|]. split; [exact H1|]. split; [exact H2|].
  split; apply H3; cbn; tauto.
Defined.

(** ** Voice commands *)

Lemma exec_stopAllSources (w : World) :
  exec stopAllSources w
  = on_refs (with_nextStartTimeRef 0)
      (on_refs (with_sourcesRef [])
         (on_browser (fun b =>
            with_log (log b ++ map SourceStop (sourcesRef (refs w))) b) w)).
Proof. unfold exec. now rewrite stopAllSources_eq. Qed.

Lemma scheduleChunk_asleep (now d : Z) (w : World) :
  isSleepModeRef (refs w) = true -> scheduleChunk now d w = (w, inr tt).
Proof.
  intros Ha. unfold scheduleChunk, rd, gets, bind. cbn. rewrite Ha.
  destruct (audioContextRef (refs w)); reflexivity.
Qed.

Lemma voiceCommand_asleep (command : string) (w : World) :
  isSleepModeRef (refs w) = true -> wakePhrase command = false ->
  voiceCommand command w = (w, inr tt).
Proof.
  intros Ha Hw. unfold voiceCommand, rd, gets, bind. cbn. now rewrite Ha, Hw.
Qed.

(** C4. While asleep, a transcript whose lowercased text holds no wake
    phrase causes nothing: the message is handled as if it carried no
    transcript, so the sleep flag, the pending video request and the video
    stream with its timer are as before. *)
Theorem asleep_ignores_commands (w : World) (msg : Message) (now d : Z) :
  isSleepModeRef (refs w) = true ->
  (forall t, inputTranscription msg = Some t -> wakePhrase (toLowerCase t) = false) ->
  let w' := exec (onmessage msg now d) w in
  w' = (if interrupted msg then exec stopAllSources w else w)
  /\ isSleepModeRef (refs w') = true
  /\ isSleepMode (ui w') = isSleepMode (ui w)
  /\ pendingAction (ui w') = pendingAction (ui w)
  /\ videoSource (ui w') = videoSource (ui w)
  /\ videoSourceRef (refs w') = videoSourceRef (refs w)
  /\ streamRef (refs w') = streamRef (refs w)
  /\ frameIntervalRef (refs w') = frameIntervalRef (refs w)
  /\ liveStreams (browser w') = liveStreams (browser w)
  /\ timers (browser w') = timers (browser w).
Proof.
  intros Ha Hw. cbv zeta.
  assert (E : exec (onmessage msg now d) w
              = if interrupted msg then exec stopAllSources w else w).
  { unfold exec at 1, onmessage, bind.
    assert (E1 : (match truthy (inputTranscription msg) with
                  | Some t => voiceCommand (toLowerCase t)
                  | None => skip
                  end) w = (w, inr tt)).
    { destruct (inputTranscription msg) as [t|] eqn:Et; [|reflexivity].
      destruct t as [|c t]; [reflexivity|]. cbn [truthy].
      apply voiceCommand_asleep; [exact Ha | now apply Hw]. }
    rewrite E1.
    assert (E2 : (match truthy (inlineData msg) with
                  | Some _ => scheduleChunk now d
                  | None => skip
                  end) w = (w, inr tt)).
    { destruct (truthy (inlineData msg)); [now apply scheduleChunk_asleep | reflexivity]. }
    rewrite E2. destruct (interrupted msg); reflexivity. }
  rewrite E. split; [reflexivity|].
  destruct (interrupted msg); [rewrite exec_stopAllSources; cbn|]; repeat split; assumption.
Qed.

(** The specification's example: "ligar câmera" heard while asleep. *)
Lemma asleep_ignores_commands_witness :
  exec (onmessage (mkMessage (Some "ligar câmera") None false) 0 0) asleep_session
  = asleep_session.
Proof.
  refine (proj1 (asleep_ignores_commands asleep_session
                   (mkMessage (Some "ligar câmera") None false) 0 0 eq_refl _)).
  intros t Ht. injection Ht as <-. reflexivity.
Defined.

Lemma sleepPhrase_nonempty (t : string) :
  sleepPhrase (toLowerCase t) = true -> truthy (Some t) = Some t.
Proof. destruct t; [discriminate | reflexivity]. Qed.

Lemma setSleepState_enter (w : World) :
  isSleepModeRef (refs w) = false ->
  exec (setSleepState true) w
  = on_ui (with_isAiSpeaking false)
      (exec stopAllSources
         (on_ui (with_isSleepMode true) (on_refs (with_isSleepModeRef true) w))).
Proof.
  intros Ha.
  unfold exec, setSleepState, bind, rd, gets, wr, setIsSleepMode, setIsAiSpeaking, modify.
  cbv beta iota. rewrite Ha. cbn [Bool.eqb]. rewrite stopAllSources_eq. reflexivity.
Qed.

(** C5. While awake, a transcript whose lowercased text holds a sleep
    phrase puts the session to sleep, whatever else the text matches: the
    message does exactly what entering sleep does, so no video request is
    raised and no video stream is started or stopped. *)
Theorem sleep_phrase_wins (w : World) (msg : Message) (now d : Z) (t : string) :
  isSleepModeRef (refs w) = false ->
  inputTranscription msg = Some t ->
  sleepPhrase (toLowerCase t) = true ->
  let w' := exec (onmessage msg now d) w in
  w' = exec (setSleepState true) w
  /\ isSleepModeRef (refs w') = true
  /\ isSleepMode (ui w') = true
  /\ pendingAction (ui w') = pendingAction (ui w)
  /\ videoSource (ui w') = videoSource (ui w)
  /\ videoSourceRef (refs w') = videoSourceRef (refs w)
  /\ streamRef (refs w') = streamRef (refs w)
  /\ frameIntervalRef (refs w') = frameIntervalRef (refs w)
  /\ liveStreams (browser w') = liveStreams (browser w)
  /\ timers (browser w') = timers (browser w).
Proof.
  intros Ha Ht Hs. cbv zeta.
  pose proof (setSleepState_enter w Ha) as Es.
  assert (Hasleep : isSleepModeRef (refs (exec (setSleepState true) w)) = true).
  { rewrite Es, exec_stopAllSources. reflexivity. }
  assert (E : exec (onmessage msg now d) w = exec (setSleepState true) w).
  { unfold exec at 1, onmessage, bind. rewrite Ht, (sleepPhrase_nonempty t Hs).
    assert (E1 : voiceCommand (toLowerCase t) w = (exec (setSleepState true) w, inr tt)).
    { unfold voiceCommand, bind at 1, rd at 1, gets at 1. cbv beta iota.
      change (fst (w, _)) with w. rewrite Ha, Hs.
      apply returns_exec, setSleepState_returns. }
    rewrite E1.
    assert (E2 : (match truthy (inlineData msg) with
                  | Some _ => scheduleChunk now d
                  | None => skip
                  end) (exec (setSleepState true) w)
                 = (exec (setSleepState true) w, inr tt)).
    { destruct (truthy (inlineData msg)); [now apply scheduleChunk_asleep | reflexivity]. }
    rewrite E2. destruct (interrupted msg); [|reflexivity].
    rewrite stopAllSources_eq. cbn [fst]. rewrite <- exec_stopAllSources.
    apply flushed_fixpoint; rewrite Es, exec_stopAllSources; reflexivity. }
  rewrite E, Es, exec_stopAllSources. repeat split.
Qed.

(** The specification's example: "aura, vamos dormir" heard while awake. *)
Lemma sleep_phrase_wins_witness :
  let w' := exec (onmessage (mkMessage (Some "aura, vamos dormir") None false) 0 0)
                 awake_session in
  isSleepModeRef (refs w') = true /\ pendingAction (ui w') = None.
Proof.
  pose proof (sleep_phrase_wins awake_session
                (mkMessage (Some "aura, vamos dormir") None false) 0 0
                "aura, vamos dormir" eq_refl eq_refl eq_refl) as H.
  cbv zeta in *. destruct H as (_ & H1 & _ & H2 & _). split; [exact H1 | exact H2].
Defined.

(** ** Steps that acquire nothing *)

#[local] Instance quiet_pre : PreOrder quiet.
Proof.
  split.
  - intros w. repeat split; try apply incl_refl. exists []. now rewrite app_nil_r.
  - intros a b c ([l1 [E1 F1]] & C1 & L1 & O1 & T1) ([l2 [E2 F2]] & C2 & L2 & O2 & T2).
    repeat split.
    + exists (l1 ++ l2). rewrite E2, E1, <- app_assoc, forallb_app, F1, F2. now split.
    + congruence.
    + eapply incl_tran; eassumption.
    + eapply incl_tran; eassumption.
    + eapply incl_tran; eassumption.
Qed.

Lemma incl_filter {A} (f : A -> bool) (l : list A) : incl (filter f l) l.
Proof. intros x H. now apply filter_In in H. Qed.

Ltac quiet_leaf :=
  refine (preserves_modify _ _ _); intros ?;
  repeat split; cbn;
  try apply incl_refl; try apply incl_filter;
  first [ now exists [] | (eexists; split; [reflexivity | reflexivity])
        | (exists []; split; [now rewrite app_nil_r | reflexivity]) ].

Create HintDb quiet_db.

Ltac quiet_auto :=
  repeat first
    [ solve [auto with quiet_db]
    | pres_step
    | progress unfold emit, setIsConnected, setIsMuted, setVolumeLevel,
        setOutputVolume, setVideoSource, setError, setIsSleepMode, setPendingAction,
        setIsAiSpeaking, clearInterval, stopTracks, closeContext, wr,
        playActivationSound, stopAllSources
    | quiet_leaf ].

Lemma setSleepState_quiet (b : bool) : preserves quiet (setSleepState b).
Proof. unfold setSleepState. quiet_auto. Qed.

Lemma stopVideoStream_quiet : preserves quiet stopVideoStream.
Proof. unfold stopVideoStream. quiet_auto. Qed.

#[local] Hint Resolve setSleepState_quiet stopVideoStream_quiet : quiet_db.

Lemma cleanup_quiet : preserves quiet cleanup.
Proof. unfold cleanup. quiet_auto. Qed.

Lemma voiceCommand_quiet (command : string) : preserves quiet (voiceCommand command).
Proof. unfold voiceCommand. quiet_auto. Qed.

Lemma scheduleChunk_quiet (now d : Z) : preserves quiet (scheduleChunk now d).
Proof.
  unfold scheduleChunk, alloc. quiet_auto.
Qed.

#[local] Hint Resolve cleanup_quiet voiceCommand_quiet scheduleChunk_quiet : quiet_db.

Lemma onmessage_quiet (msg : Message) (now d : Z) : preserves quiet (onmessage msg now d).
Proof. unfold onmessage. quiet_auto. Qed.

(** ** Video toggling *)

Lemma VideoType_eqb_refl (ty : VideoType) : VideoType_eqb ty ty = true.
Proof. destruct ty; reflexivity. Qed.

Lemma remove_handle_not_in (h : Handle) (l : list Handle) : ~ In h (remove_handle h l).
Proof.
  unfold remove_handle. intros H. apply filter_In in H as [_ H].
  now rewrite Pos.eqb_refl in H.
Qed.

Lemma clear_timer_not_in (t : Handle) (l : list (Handle * Handle)) :
  ~ In t (map fst (filter (fun ts => negb (Pos.eqb (fst ts) t)) l)).
Proof.
  intros H. apply in_map_iff in H as [[t' p] [E H]]. cbn in E. subst t'.
  apply filter_In in H as [_ H]. cbn in H. now rewrite Pos.eqb_refl in H.
Qed.

(** What [stopVideoStream] leaves, from any state. *)
Lemma stopVideoStream_post (w : World) :
  let w' := exec stopVideoStream w in
  videoSource (ui w') = None
  /\ videoSourceRef (refs w') = None
  /\ streamRef (refs w') = None
  /\ frameIntervalRef (refs w') = None
  /\ (forall m, streamRef (refs w) = Some m ->
        ~ In m (liveStreams (browser w')) /\ In (StopTracks m) (log (browser w')))
  /\ (forall t, frameIntervalRef (refs w) = Some t ->
        ~ In t (map fst (timers (browser w'))) /\ In (ClearInterval t) (log (browser w'))).
Proof.
  cbv zeta. unfold exec, stopVideoStream, bind, rd, gets.
  destruct w as [u [ac ic nx srcs sr asleep vs vr st fi] b].
  destruct fi as [t|], st as [m|], vr as [v|]; cbn;
    (split; [reflexivity|]); (split; [reflexivity|]); (split; [reflexivity|]);
    (split; [reflexivity|]);
    split; intros x Hx; try discriminate; injection Hx as <-;
    (split; [ first [ apply remove_handle_not_in | apply clear_timer_not_in ]
            | rewrite ?in_app_iff; cbn; tauto ]).
Qed.

Lemma toggleVideo_active (ty : VideoType) (env : Env) (w : World) :
  videoSourceRef (refs w) = Some ty ->
  toggleVideo ty env w = stopVideoStream w.
Proof.
  intros H. unfold toggleVideo, bind at 1, rd at 1, gets at 1. cbv beta iota.
  change (fst (w, _)) with w. now rewrite H, VideoType_eqb_refl.
Qed.

Lemma voiceCommand_no_duplicate (command : string) (ty : VideoType) (w : World) :
  videoSourceRef (refs w) = Some ty ->
  pendingAction (ui (exec (voiceCommand command) w)) = Some ty ->
  pendingAction (ui w) = Some ty.
Proof.
  intros Hv. unfold exec, voiceCommand, bind at 1, rd at 1, gets at 1. cbv beta iota.
  destruct (isSleepModeRef (refs w)) eqn:Ha.
  - destruct (wakePhrase command); [|auto].
    unfold setSleepState, bind, rd, gets. cbn. rewrite Ha. cbn.
    destruct (audioContextRef (refs w)); auto.
  - destruct (sleepPhrase command).
    { pose proof (setSleepState_enter w Ha) as E. unfold exec in E. rewrite E.
      rewrite stopAllSources_eq. auto. }
    destruct (cameraPhrase command).
    { unfold bind, rd, gets. cbn. rewrite Hv. destruct ty; cbn; [auto | discriminate]. }
    destruct (screenPhrase command).
    { unfold bind, rd, gets. cbn. rewrite Hv. destruct ty; cbn; [discriminate | auto]. }
    destruct (closePhrase command); [|auto].
    unfold bind at 1, rd at 1, gets at 1. cbv beta iota. change (fst (w, _)) with w.
    rewrite Hv. unfold stopVideoStream, bind, rd, gets.
    destruct w as [u [ac ic nx srcs sr asleep vs vr st fi] b].
    destruct fi, st, vr; auto.
Qed.

#[local] Instance same_ui_pre : PreOrder same_ui.
Proof. split; [intros w; reflexivity | intros a b c H1 H2; unfold same_ui in *; congruence]. Qed.

Lemma scheduleChunk_same_ui (now d : Z) : preserves same_ui (scheduleChunk now d).
Proof.
  unfold scheduleChunk, alloc, emit, wr.
  repeat first [ pres_step | refine (preserves_modify _ _ _); intros ?; reflexivity ].
Qed.

Lemma stopAllSources_same_ui : preserves same_ui stopAllSources.
Proof. intros w. unfold same_ui. now rewrite stopAllSources_eq. Qed.

Lemma onmessage_no_duplicate (msg : Message) (now d : Z) (ty : VideoType) (w : World) :
  videoSourceRef (refs w) = Some ty ->
  pendingAction (ui (exec (onmessage msg now d) w)) = Some ty ->
  pendingAction (ui w) = Some ty.
Proof.
  intros Hv. unfold exec, onmessage.
  set (c1 := match truthy (inputTranscription msg) with
             | Some t => voiceCommand (toLowerCase t) | None => skip end).
  set (c23 := bind (match truthy (inlineData msg) with
                    | Some _ => scheduleChunk now d | None => skip end)
                   (fun _ => if interrupted msg then stopAllSources else skip)).
  assert (R1 : returns c1).
  { subst c1. destruct (truthy (inputTranscription msg));
      [apply voiceCommand_returns | apply returns_ret]. }
  assert (P : preserves same_ui c23).
  { subst c23. refine (preserves_bind _ _ _ _ _).
    - destruct (truthy (inlineData msg));
        [apply scheduleChunk_same_ui | refine (preserves_ret _ _)].
    - intros _. destruct (interrupted msg);
        [apply stopAllSources_same_ui | refine (preserves_ret _ _)]. }
  unfold bind at 1. rewrite (returns_exec c1 w R1).
  rewrite (P (exec c1 w)). subst c1.
  destruct (truthy (inputTranscription msg)); [|auto].
  now apply voiceCommand_no_duplicate.
Qed.

Lemma voiceCommand_open_active (command : string) (ty : VideoType) (w : World) :
  videoSourceRef (refs w) = Some ty ->
  isSleepModeRef (refs w) = false ->
  sleepPhrase command = false ->
  openPhrase ty command = true ->
  exec (voiceCommand command) w = w.
Proof.
  intros Hv Ha Hs Ho. unfold exec, voiceCommand, bind, rd, gets. cbn [fst].
  rewrite Ha, Hs. destruct ty; cbn in Ho.
  - rewrite Ho. cbn. now rewrite Hv.
  - apply andb_prop in Ho as [Hc Ho]. apply negb_true_iff in Hc.
    rewrite Hc, Ho. cbn. now rewrite Hv.
Qed.

(** C7. Asking for the video source that is already active turns video
    off: toggleVideo does what stopVideoStream does (the stream's tracks
    are stopped, the frame timer is cleared, the active source is none) and
    acquires nothing; no inbound message raises a pending request for the
    active source, nor acquires a device; a spoken request to open the
    active source changes nothing. *)
Theorem active_source_toggles_off (w : World) (ty : VideoType) :
  videoSourceRef (refs w) = Some ty ->
  (forall env,
     let w' := exec (toggleVideo ty env) w in
     w' = exec stopVideoStream w
     /\ videoSource (ui w') = None
     /\ videoSourceRef (refs w') = None
     /\ streamRef (refs w') = None
     /\ frameIntervalRef (refs w') = None
     /\ (forall m, streamRef (refs w) = Some m ->
           ~ In m (liveStreams (browser w')) /\ In (StopTracks m) (log (browser w')))
     /\ (forall t, frameIntervalRef (refs w) = Some t ->
           ~ In t (map fst (timers (browser w'))) /\ In (ClearInterval t) (log (browser w')))
     /\ quiet w w')
  /\ (forall msg now d,
        let w' := exec (onmessage msg now d) w in
        (pendingAction (ui w') = Some ty -> pendingAction (ui w) = Some ty)
        /\ quiet w w')
  /\ (forall command,
        isSleepModeRef (refs w) = false ->
        sleepPhrase command = false ->
        openPhrase ty command = true ->
        exec (voiceCommand command) w = w).
Proof.
  intros Hv. split.
  - intros env. cbv zeta.
    assert (E : exec (toggleVideo ty env) w = exec stopVideoStream w).
    { unfold exec. now rewrite toggleVideo_active. }
    rewrite E. split; [reflexivity|].
    destruct (stopVideoStream_post w) as (H1 & H2 & H3 & H4 & H5 & H6).
    repeat split; try assumption; try (now apply H5); try (now apply H6);
      apply (stopVideoStream_quiet w).
  - split.
    + intros msg now d. cbv zeta. split.
      * now apply onmessage_no_duplicate.
      * apply (onmessage_quiet msg now d w).
    + intros command. now apply voiceCommand_open_active.
Qed.

Lemma active_source_toggles_off_witness :
  exec (toggleVideo camera env_ok) camera_session = exec stopVideoStream camera_session
  /\ videoSourceRef (refs (exec (toggleVideo camera env_ok) camera_session)) = None
  /\ exec (voiceCommand "abrir câmera") camera_session = camera_session.
Proof.
  pose proof (active_source_toggles_off camera_session camera eq_refl) as [H1 [_ H3]].
  specialize (H1 env_ok). cbv zeta in H1. destruct H1 as (E & _ & Hv & _).
  split; [exact E|]. split; [exact Hv|].
  apply H3; reflexivity.
Defined.

(** ** Invariants of the reachable states *)

#[local] Instance keeps_pre (I : World -> Prop) : PreOrder (keeps I).
Proof. split; [intros w H; exact H | intros a b c H1 H2 H; auto]. Qed.

Ltac coherent_leaf :=
  refine (preserves_modify _ _ _); intros ? H; exact H.

Create HintDb coherent_db.

Ltac coherent_auto :=
  repeat first
    [ solve [auto with coherent_db]
    | pres_step
    | progress unfold emit, alloc, setIsConnected, setIsMuted, setVolumeLevel,
        setOutputVolume, setVideoSource, setError, setPendingAction,
        setIsAiSpeaking, stopTracks, closeContext, wr, newAudioContext, requestStream,
        liveConnect, map_conn, playActivationSound, stopAllSources
    | coherent_leaf ].

Lemma setSleepState_coherent (b : bool) : preserves (keeps coherent) (setSleepState b).
Proof.
  intros w [Ht Hs]. unfold coherent, one_timer, sleep_in_sync in *.
  destruct b, (isSleepModeRef (refs w)) eqn:Ha.
  - unfold setSleepState, bind, rd, gets. cbn [fst]. rewrite Ha. cbn. (split; [assumption | cbn; congruence]).
  - change (fst (setSleepState true w)) with (exec (setSleepState true) w).
    rewrite (setSleepState_enter w Ha), exec_stopAllSources. (split; [assumption | cbn; congruence]).
  - unfold setSleepState, playActivationSound, bind, rd, gets. cbn [fst]. rewrite Ha. cbn.
    destruct (audioContextRef (refs w)); (split; [assumption | cbn; congruence]).
  - unfold setSleepState, bind, rd, gets. cbn [fst]. rewrite Ha. cbn. (split; [assumption | cbn; congruence]).
Qed.

Lemma stopVideoStream_coherent : preserves (keeps coherent) stopVideoStream.
Proof.
  intros w [Ht Hs]. unfold coherent, one_timer, sleep_in_sync in *.
  unfold stopVideoStream, bind, rd, gets.
  destruct w as [u [ac ic nx srcs sr asleep vs vr st fi] b]. cbn in *.
  destruct fi as [t|], st as [m|], vr as [v|]; cbn; (split; [|exact Hs]);
    destruct Ht as [Ht | (t' & p & Ht & Hf)]; rewrite ?Ht; cbn; auto;
    try discriminate; injection Hf as <-; cbn; rewrite Pos.eqb_refl; cbn; auto.
Qed.

Lemma startFrameTransmission_coherent (sp : option Handle) (env : Env) :
  preserves (keeps coherent) (startFrameTransmission sp env).
Proof.
  intros w [Ht Hs]. unfold coherent, one_timer, sleep_in_sync in *.
  unfold startFrameTransmission, setInterval, alloc, bind, rd, gets.
  destruct w as [u [ac ic nx srcs sr asleep vs vr st fi] b]. cbn in *.
  assert (Hc : match fi with
               | Some t => filter (fun ts => negb (Pos.eqb (fst ts) t)) (timers b) = []
               | None => timers b = []
               end).
  { destruct Ht as [Ht | (t' & p & Ht & Hf)]; rewrite Ht.
    - now destruct fi.
    - subst fi. cbn. now rewrite Pos.eqb_refl. }
  destruct fi as [t|]; cbn; destruct (canvas2d env); cbn;
    try (split; [left; exact Hc | exact Hs]);
    destruct sp as [p'|]; [| destruct sr as [p'|] | | destruct sr as [p'|]]; cbn;
    try (split; [left; exact Hc | exact Hs]);
    rewrite Hc; (split; [right; do 2 eexists; split; reflexivity | exact Hs]).
Qed.

#[local] Hint Resolve setSleepState_coherent stopVideoStream_coherent
  startFrameTransmission_coherent : coherent_db.

Lemma cleanup_coherent : preserves (keeps coherent) cleanup.
Proof. unfold cleanup. coherent_auto. Qed.

#[local] Hint Resolve cleanup_coherent : coherent_db.

Lemma connectToLive_coherent (env : Env) : preserves (keeps coherent) (connectToLive env).
Proof. unfold connectToLive. coherent_auto. Qed.

#[local] Hint Resolve connectToLive_coherent : coherent_db.

Lemma toggleVideo_coherent (ty : VideoType) (env : Env) :
  preserves (keeps coherent) (toggleVideo ty env).
Proof. unfold toggleVideo. coherent_auto. Qed.

Lemma voiceCommand_coherent (command : string) :
  preserves (keeps coherent) (voiceCommand command).
Proof. unfold voiceCommand. coherent_auto. Qed.

Lemma scheduleChunk_coherent (now d : Z) : preserves (keeps coherent) (scheduleChunk now d).
Proof. unfold scheduleChunk. coherent_auto. Qed.

#[local] Hint Resolve toggleVideo_coherent voiceCommand_coherent
  scheduleChunk_coherent : coherent_db.

Lemma handler_coherent (e : Event) (w0 : World) : preserves (keeps coherent) (handler e w0).
Proof.
  destruct e; cbn [handler];
    unfold handleMainToggle, onopen, onmessage, onclose, onerror, onaudioprocess,
      updateVolume, frameTick;
    coherent_auto.
Qed.

Lemma step_coherent (w : World) (e : Event) : coherent w -> coherent (step w e).
Proof. intros H. exact (handler_coherent e w w H). Qed.

Lemma run_coherent (es : list Event) : forall w, coherent w -> coherent (run es w).
Proof.
  induction es as [|e es IH]; intros w H; [exact H|].
  cbn. apply IH, step_coherent, H.
Qed.

Lemma initial_coherent : coherent initial.
Proof. split; [now left | reflexivity]. Qed.

(** ** Starting without a credential *)

(** What [cleanup] leaves, from any state whose sleep flags agree. *)
Lemma cleanup_post (w : World) :
  sleep_in_sync w ->
  let w' := exec cleanup w in
  not_started w'
  /\ error (ui w') = error (ui w)
  /\ isMuted (ui w') = isMuted (ui w)
  /\ nextStartTimeRef (refs w') = nextStartTimeRef (refs w).
Proof.
  cbv zeta. unfold sleep_in_sync, not_started, exec, cleanup, stopVideoStream,
    setSleepState, playActivationSound, bind, rd, gets.
  destruct w as [u [ac ic nx srcs sr asleep vs vr st fi] b]. cbn. intros Hs.
  destruct fi, st, vr, sr, ac, ic, asleep; cbn; repeat split; exact Hs.
Qed.

Lemma connectToLive_no_key (env : Env) (w : World) :
  truthy (API_KEY env) = None ->
  exec (connectToLive env) w
  = exec cleanup (on_ui (with_error (Some "API Key faltante.")) w).
Proof.
  intros Hk. unfold exec, connectToLive, bind at 1, setError at 1, modify at 1.
  cbv beta iota. unfold try_catch, bind at 1. rewrite Hk.
  unfold throw. cbv beta iota. unfold bind at 1, setError, modify. cbv beta iota.
  cbn [message Error or_else truthy].
  destruct w as [[] r b]. reflexivity.
Qed.

(** C8. With no credential configured, [connectToLive] sets the error
    message "API Key faltante.", opens no transport session, creates no
    audio context and acquires no device, and leaves the session not
    started, in whatever state the component was; on a freshly mounted
    component the only change is the error message. *)
Theorem start_without_credential (es : list Event) (env : Env) :
  truthy (API_KEY env) = None ->
  let w := run es initial in
  let w' := exec (connectToLive env) w in
  error (ui w') = Some "API Key faltante."
  /\ quiet w w'
  /\ not_started w'
  /\ exec (connectToLive env) initial
     = on_ui (with_error (Some "API Key faltante.")) initial.
Proof.
  intros Hk. cbv zeta. rewrite !(connectToLive_no_key env _ Hk).
  set (w := run es initial).
  set (w1 := on_ui (with_error (Some "API Key faltante.")) w).
  assert (Hs : sleep_in_sync w1).
  { destruct (run_coherent es initial initial_coherent) as [_ H]. exact H. }
  destruct (cleanup_post w1 Hs) as (Hn & He & _ & _).
  split; [now rewrite He|].
  split; [|split; [exact Hn | reflexivity]].
  assert (Q : quiet w1 (exec cleanup w1)) by apply cleanup_quiet.
  destruct Q as (Hl & Hcs & Hls & Hoc & Ht). repeat split; assumption.
Qed.

Lemma start_without_credential_witness :
  let w' := exec (connectToLive (mkEnv None Fulfilled Fulfilled Fulfilled true 0 0)) initial in
  error (ui w') = Some "API Key faltante." /\ not_started w'.
Proof.
  pose proof (start_without_credential []
                (mkEnv None Fulfilled Fulfilled Fulfilled true 0 0) eq_refl) as H.
  cbv zeta in *. destruct H as (H1 & _ & H2 & _). split; [exact H1 | exact H2].
Defined.

(** ** Frame sampling *)

#[local] Instance same_video_pre : PreOrder same_video.
Proof.
  split.
  - intros w. repeat split.
  - intros a b c (A1 & A2 & A3 & A4 & A5 & A6) (B1 & B2 & B3 & B4 & B5 & B6).
    repeat split; congruence.
Qed.

Lemma setSleepState_same_video (b : bool) : preserves same_video (setSleepState b).
Proof.
  unfold setSleepState, setIsSleepMode, setIsAiSpeaking, stopAllSources,
    playActivationSound, emit, wr.
  repeat first [ pres_step | refine (preserves_modify _ _ _); intros ?; repeat split ].
Qed.

Lemma tick_log (w : World) (t p : Handle) (v : VideoProbe) :
  find (fun ts => Pos.eqb (fst ts) t) (timers (browser w)) = Some (t, p) ->
  videoRef (refs w) <> None ->
  paused v = false -> ended v = false -> videoWidth v <> 0 ->
  log (browser (step w (IntervalTick t v)))
  = log (browser w)
    ++ [DrawImage (videoWidth v) (videoHeight v);
        SendRealtimeInput p (JpegFrame (frameData v))].
Proof.
  intros Hf Hv Hp He Hw.
  unfold step, exec, handler. rewrite Hf.
  unfold frameTick, bind, rd, gets. cbn.
  destruct (videoRef (refs w)); [|congruence].
  rewrite Hp, He. cbn. destruct (Z.eqb_spec (videoWidth v) 0); [contradiction|].
  cbn. now rewrite <- app_assoc.
Qed.

Lemma sent_app (l1 l2 : list Effect) : sent (l1 ++ l2) = sent l1 ++ sent l2.
Proof.
  induction l1 as [|e l1 IH]; [reflexivity|].
  destruct e; simpl; rewrite ?IH; reflexivity.
Qed.

(** C9. A tick of the installed frame timer, with the video element
    mounted, playing and of non-zero width, draws the frame and hands the
    JPEG to the transport whatever the sleep flag is; entering sleep leaves
    the timer and the stream in place, and the next tick still sends.  The
    sleep flag gates only the scheduling of audio chunks. *)
Theorem frames_sent_regardless_of_sleep (w : World) (t p : Handle) (v : VideoProbe) :
  find (fun ts => Pos.eqb (fst ts) t) (timers (browser w)) = Some (t, p) ->
  videoRef (refs w) <> None ->
  paused v = false -> ended v = false -> videoWidth v <> 0 ->
  (forall asleep,
     let w0 := on_ui (with_isSleepMode asleep) (on_refs (with_isSleepModeRef asleep) w) in
     log (browser (step w0 (IntervalTick t v)))
     = log (browser w)
       ++ [DrawImage (videoWidth v) (videoHeight v);
           SendRealtimeInput p (JpegFrame (frameData v))])
  /\ (let ws := exec (setSleepState true) w in
      isSleepModeRef (refs ws) = true
      /\ same_video w ws
      /\ sent (log (browser (step ws (IntervalTick t v))))
         = sent (log (browser ws)) ++ [JpegFrame (frameData v)]
      /\ forall now d, exec (scheduleChunk now d) ws = ws).
Proof.
  intros Hf Hv Hp He Hw. split.
  - intros asleep. cbv zeta.
    now rewrite (tick_log _ t p v) by assumption.
  - cbv zeta.
    pose proof (setSleepState_same_video true w) as Hsame.
    change (fst (setSleepState true w)) with (exec (setSleepState true) w) in Hsame.
    assert (Ha : isSleepModeRef (refs (exec (setSleepState true) w)) = true).
    { destruct (isSleepModeRef (refs w)) eqn:Ha.
      - unfold exec, setSleepState, bind, rd, gets. cbn [fst]. rewrite Ha. exact Ha.
      - now rewrite (setSleepState_enter w Ha), exec_stopAllSources. }
    split; [exact Ha|]. split; [exact Hsame|].
    destruct Hsame as (Ht & _ & _ & _ & _ & Hvr). split.
    + rewrite (tick_log _ t p v); try assumption.
      * now rewrite sent_app.
      * now rewrite Ht.
      * now rewrite Hvr.
    + intros now d. unfold exec at 1. now rewrite scheduleChunk_asleep.
Qed.

Lemma frames_sent_regardless_of_sleep_witness :
  let ws := exec (setSleepState true) camera_session in
  sent (log (browser (step ws (IntervalTick 6%positive frame_probe))))
  = sent (log (browser ws)) ++ [JpegFrame "/9j/4AAQ"].
Proof.
  pose proof (frames_sent_regardless_of_sleep camera_session 6%positive 5%positive
                frame_probe eq_refl) as H.
  cbv zeta in *.
  destruct H as (_ & _ & _ & H & _).
  - discriminate.
  - reflexivity.
  - reflexivity.
  - discriminate.
  - exact H.
Defined.

Lemma startFrameTransmission_clears_first (sp : option Handle) (env : Env) (w : World)
    (t : Handle) :
  frameIntervalRef (refs w) = Some t ->
  exists rest,
    log (browser (exec (startFrameTransmission sp env) w))
    = log (browser w) ++ ClearInterval t :: rest.
Proof.
  intros Hf. unfold exec, startFrameTransmission, setInterval, alloc, bind, rd, gets.
  destruct w as [u [ac ic nx srcs sr asleep vs vr st fi] b]. cbn in *. subst fi. cbn.
  destruct (canvas2d env); cbn; [|now exists []].
  destruct sp as [p|]; [| destruct sr as [p|]]; cbn;
    rewrite <- ?app_assoc; cbn; now eexists.
Qed.

(** C10. In every reachable state at most one frame timer is installed,
    and it is the one [frameIntervalRef] names.  [startFrameTransmission]
    clears the interval the ref names before it installs another, and
    still leaves at most one.  [stopVideoStream] leaves no interval at
    all and stops the tracks of the stream, so that no tick fires
    afterwards. *)
Theorem single_frame_timer (es : list Event) :
  let w := run es initial in
  (length (timers (browser w)) <= 1)%nat
  /\ (forall t p, In (t, p) (timers (browser w)) -> frameIntervalRef (refs w) = Some t)
  /\ (forall sp env,
        let w' := exec (startFrameTransmission sp env) w in
        (length (timers (browser w')) <= 1)%nat
        /\ forall t, frameIntervalRef (refs w) = Some t ->
             exists rest, log (browser w') = log (browser w) ++ ClearInterval t :: rest)
  /\ (let w' := exec stopVideoStream w in
      timers (browser w') = []
      /\ frameIntervalRef (refs w') = None
      /\ streamRef (refs w') = None
      /\ (forall m, streamRef (refs w) = Some m ->
            ~ In m (liveStreams (browser w')) /\ In (StopTracks m) (log (browser w')))
      /\ forall t v, step w' (IntervalTick t v) = w').
Proof.
  cbv zeta. set (w := run es initial).
  assert (Hc : coherent w) by (apply run_coherent, initial_coherent).
  assert (One : forall x, coherent x ->
            (length (timers (browser x)) <= 1)%nat
            /\ forall t p, In (t, p) (timers (browser x)) ->
                 frameIntervalRef (refs x) = Some t).
  { intros x [[Ht | (t0 & p0 & Ht & Hf)] _]; rewrite Ht; cbn; split; auto; try easy.
    intros t p [E|[]]. injection E as <- <-. exact Hf. }
  split; [apply One, Hc|]. split; [apply One, Hc|]. split.
  - intros sp env. split.
    + apply One. exact (startFrameTransmission_coherent sp env w Hc).
    + intros t. apply startFrameTransmission_clears_first.
  - pose proof (stopVideoStream_coherent w Hc) as Hc'.
    change (fst (stopVideoStream w)) with (exec stopVideoStream w) in Hc'.
    destruct (stopVideoStream_post w) as (_ & _ & Hst & Hfi & Hm & _).
    assert (Ht : timers (browser (exec stopVideoStream w)) = []).
    { destruct Hc' as [[Ht | (t0 & p0 & _ & Hf)] _]; [exact Ht | congruence]. }
    repeat split; try assumption; try (now apply Hm).
    intros t v. unfold step, handler. rewrite Ht. reflexivity.
Qed.

Lemma single_frame_timer_witness :
  timers (browser camera_session) = [(6%positive, 5%positive)]
  /\ timers (browser (exec stopVideoStream camera_session)) = [].
Proof.
  pose proof (single_frame_timer
                [ClickVideo camera env_ok; TransportOpen 5%positive env_ok]) as H.
  cbv zeta in H. destruct H as (_ & _ & _ & H & _).
  split; [reflexivity | exact H].
Defined.

(** ** Where teardown and mute fall short *)

Lemma cleanup_keeps_clock (w : World) :
  nextStartTimeRef (refs (exec cleanup w)) = nextStartTimeRef (refs w).
Proof.
  unfold exec, cleanup, stopVideoStream, setSleepState, playActivationSound,
    bind, rd, gets.
  destruct w as [u [ac ic nx srcs sr asleep vs vr st fi] b].
  destruct fi, st, vr, sr, ac, ic, asleep; reflexivity.
Qed.

Lemma remove_handle_other (m h : Handle) (l : list Handle) :
  In m l -> h <> m -> In m (remove_handle h l).
Proof.
  intros Hin Hne. unfold remove_handle. apply filter_In. split; [exact Hin|].
  apply negb_true_iff, Pos.eqb_neq. congruence.
Qed.

(** [cleanup] stops the tracks of the stream in [streamRef] and of no other. *)
Lemma cleanup_keeps_other_streams (w : World) (m : Handle) :
  In m (liveStreams (browser w)) -> streamRef (refs w) <> Some m ->
  In m (liveStreams (browser (exec cleanup w))).
Proof.
  unfold exec, cleanup, stopVideoStream, setSleepState, playActivationSound,
    bind, rd, gets.
  destruct w as [u [ac ic nx srcs sr asleep vs vr st fi] b]. cbn. intros Hin Hne.
  destruct fi, st as [m'|], vr, sr, ac, ic, asleep; cbn;
    try exact Hin; apply remove_handle_other; congruence.
Qed.

(** C3 (the code falls short).  After start, one chunk and stop: the
    session flags are reset and both audio contexts are closed, but the
    microphone stream obtained by [connectToLive] is still live and was
    never stopped, the transport connection is still established, and
    [nextStartTime] keeps its value.  From every state [cleanup] leaves
    the clock and the connections as they were and stops no stream but
    the one in [streamRef].  A session started afterwards schedules its
    first chunk at the stale time instead of at its clock. *)
Theorem cleanup_leaves_microphone_and_clock :
  let w := run session_then_stop initial in
  not_started w
  /\ openContexts (browser w) = []
  /\ In (GetUserMediaAudio 3%positive) (log (browser w))
  /\ liveStreams (browser w) = [3%positive]
  /\ existsb (fun e => match e with StopTracks _ => true | _ => false end)
       (log (browser w)) = false
  /\ map conn_status (conns (browser w)) = [Established]
  /\ nextStartTimeRef (refs w) = 12000
  /\ (forall x, nextStartTimeRef (refs (exec cleanup x)) = nextStartTimeRef (refs x))
  /\ (forall x, conns (browser (exec cleanup x)) = conns (browser x))
  /\ (forall x m, In m (liveStreams (browser x)) -> streamRef (refs x) <> Some m ->
        In m (liveStreams (browser (exec cleanup x))))
  /\ scheduled (log (browser (run session_restarted initial)))
     = [(0, 12000); (12000, 2400)].
Proof.
  cbv zeta. split; [vm_compute; repeat split|].
  split; [reflexivity|]. split; [vm_compute; tauto|].
  split; [reflexivity|]. split; [reflexivity|]. split; [reflexivity|].
  split; [reflexivity|]. split; [exact cleanup_keeps_clock|].
  split; [intros x; apply (cleanup_quiet x)|].
  split; [exact cleanup_keeps_other_streams | reflexivity].
Qed.

(** C6 (the code falls short).  [onaudioprocess] tests the [isMuted] of
    the render that called [connectToLive], not the current one: a block
    captured after mute was pressed is still sent, and in a session
    started while muted a block captured after unmuting is dropped. *)
Theorem mute_is_frozen_at_connect :
  (let w := run mute_then_capture initial in
   isMuted (ui w) = true /\ sent (log (browser w)) = [PcmBlob "AAECAw"])
  /\ (let w := run unmute_then_capture initial in
      isMuted (ui w) = false /\ isConnected (ui w) = true
      /\ sent (log (browser w)) = [])
  /\ (forall c pcm w b,
        exec (onaudioprocess c pcm) (on_ui (with_isMuted b) w)
        = on_ui (with_isMuted b) (exec (onaudioprocess c pcm) w)).
Proof.
  split; [split; reflexivity|]. split; [repeat split|].
  intros c pcm w b. unfold exec, onaudioprocess.
  destruct (conn_isMuted c); reflexivity.
Qed.

(** * Further properties *)

(** ** Playback for arbitrary arrivals *)

Lemma feed_timeline (cs : list Chunk) : forall (w : World) (ctx : Handle),
  audioContextRef (refs w) = Some ctx ->
  isSleepModeRef (refs w) = false ->
  Forall chunk_ok cs ->
  scheduled (log (browser (fold_left enqueue cs w)))
    = scheduled (log (browser w)) ++ timeline (nextStartTimeRef (refs w)) cs
  /\ nextStartTimeRef (refs (fold_left enqueue cs w))
     = fold_left (fun n c => Z.max n (chunk_now c) + chunk_duration c) cs
         (nextStartTimeRef (refs w)).
Proof.
  induction cs as [|c cs IH]; intros w ctx Hc Ha Hok.
  - cbn. now rewrite app_nil_r.
  - inversion Hok as [|? ? [Hd Hpos] Hok']; subst.
    destruct (enqueue_awake w c ctx Hc Ha Hd) as (Hl & Hn & Hc' & Ha').
    destruct (IH (enqueue w c) ctx Hc' Ha' Hok') as [IH1 IH2].
    cbn [fold_left timeline]. rewrite IH1, IH2, Hl, Hn, <- app_assoc. split; reflexivity.
Qed.

Lemma timeline_durations (cs : list Chunk) : forall n,
  map snd (timeline n cs) = map chunk_duration cs.
Proof. induction cs as [|c cs IH]; intros n; cbn; [|rewrite IH]; reflexivity. Qed.

Lemma timeline_no_overlap (cs : list Chunk) : forall n, no_overlap (timeline n cs).
Proof.
  induction cs as [|c cs IH]; intros n; cbn; [exact I|].
  specialize (IH (Z.max n (chunk_now c) + chunk_duration c)).
  destruct cs as [|c' cs]; cbn in *; [exact I | split; [lia | exact IH]].
Qed.

Lemma timeline_starts (cs : list Chunk) : forall n,
  Forall chunk_ok cs -> starts_nondecreasing (timeline n cs).
Proof.
  induction cs as [|c cs IH]; intros n Hok; cbn; [exact I|].
  inversion Hok as [|? ? [_ Hpos] Hok']; subst.
  specialize (IH (Z.max n (chunk_now c) + chunk_duration c) Hok').
  destruct cs as [|c' cs]; cbn in *; [exact I | split; [lia | exact IH]].
Qed.

Lemma timeline_after_arrival (cs : list Chunk) : forall n,
  Forall2 (fun iv c => chunk_now c <= fst iv) (timeline n cs) cs.
Proof.
  induction cs as [|c cs IH]; intros n; cbn; constructor; [cbn; lia | apply IH].
Qed.

Lemma clock_never_decreases (cs : list Chunk) : forall n,
  Forall chunk_ok cs ->
  n <= fold_left (fun n c => Z.max n (chunk_now c) + chunk_duration c) cs n.
Proof.
  induction cs as [|c cs IH]; intros n Hok; cbn; [lia|].
  inversion Hok as [|? ? [_ Hpos] Hok']; subst.
  specialize (IH (Z.max n (chunk_now c) + chunk_duration c) Hok'). lia.
Qed.

(** X1. Whatever the clock reads when each chunk is handled, an awake
    session schedules the chunks in order, none before the clock reading
    at which it was handled, none before the previous one has ended, and
    [nextStartTime] does not go back. *)
Theorem playback_never_overlaps (w : World) (ctx : Handle) (cs : list Chunk) :
  audioContextRef (refs w) = Some ctx ->
  isSleepModeRef (refs w) = false ->
  Forall chunk_ok cs ->
  let w' := fold_left enqueue cs w in
  exists ivs,
    scheduled (log (browser w')) = scheduled (log (browser w)) ++ ivs
    /\ map snd ivs = map chunk_duration cs
    /\ Forall2 (fun iv c => chunk_now c <= fst iv) ivs cs
    /\ no_overlap ivs
    /\ starts_nondecreasing ivs
    /\ nextStartTimeRef (refs w) <= nextStartTimeRef (refs w').
Proof.
  intros Hc Ha Hok. cbv zeta.
  destruct (feed_timeline cs w ctx Hc Ha Hok) as [Hl Hn].
  exists (timeline (nextStartTimeRef (refs w)) cs).
  split; [exact Hl|]. split; [apply timeline_durations|].
  split; [apply timeline_after_arrival|]. split; [apply timeline_no_overlap|].
  split; [now apply timeline_starts|]. rewrite Hn. now apply clock_never_decreases.
Qed.

(** Two chunks of 0.5 s, the second handled 1 s after the first: a gap,
    no overlap. *)
Lemma playback_never_overlaps_witness :
  exists ivs,
    scheduled (log (browser
      (fold_left enqueue [mkChunk "UklGRg" 0 12000; mkChunk "AAAAAA" 24000 12000]
         awake_session)))
      = scheduled (log (browser awake_session)) ++ ivs
    /\ map snd ivs = [12000; 12000]
    /\ Forall2 (fun iv c => chunk_now c <= fst iv) ivs
         [mkChunk "UklGRg" 0 12000; mkChunk "AAAAAA" 24000 12000]
    /\ no_overlap ivs
    /\ starts_nondecreasing ivs
    /\ nextStartTimeRef (refs awake_session)
       <= nextStartTimeRef (refs
            (fold_left enqueue [mkChunk "UklGRg" 0 12000; mkChunk "AAAAAA" 24000 12000]
               awake_session)).
Proof.
  refine (playback_never_overlaps awake_session 1%positive
            [mkChunk "UklGRg" 0 12000; mkChunk "AAAAAA" 24000 12000] eq_refl eq_refl _).
  repeat constructor; cbn; (congruence || lia).
Defined.

(** ** More on voice commands *)

#[local] Instance same_mode_pre : PreOrder same_mode.
Proof.
  split.
  - intros w. repeat split; auto.
  - intros a b c (A1 & A2 & A3 & A4 & A5) (B1 & B2 & B3 & B4 & B5).
    split; [congruence|]. split; [congruence|]. split; [congruence|].
    split; [etransitivity; eassumption | auto].
Qed.

Ltac same_mode_leaf :=
  refine (preserves_modify _ _ _); intros ?;
  split; [reflexivity|]; split; [reflexivity|]; split; [reflexivity|];
  split; [repeat split | cbn; intros; rewrite ?in_app_iff; auto].

Lemma scheduleChunk_same_mode (now d : Z) : preserves same_mode (scheduleChunk now d).
Proof.
  unfold scheduleChunk, alloc, emit, wr.
  repeat first [ pres_step | same_mode_leaf ].
Qed.

Lemma stopAllSources_same_mode : preserves same_mode stopAllSources.
Proof.
  unfold stopAllSources, emit, wr.
  repeat first [ pres_step | same_mode_leaf ].
Qed.

(** [onmessage] is its voice-command part followed by a part that keeps
    the mode. *)
Lemma onmessage_tail (msg : Message) (now d : Z) (w : World) :
  let w1 := exec (match truthy (inputTranscription msg) with
                  | Some t => voiceCommand (toLowerCase t)
                  | None => skip
                  end) w in
  same_mode w1 (exec (onmessage msg now d) w).
Proof.
  cbv zeta. unfold exec at 2, onmessage.
  set (c1 := match truthy (inputTranscription msg) with
             | Some t => voiceCommand (toLowerCase t) | None => skip end).
  set (c23 := bind (match truthy (inlineData msg) with
                    | Some _ => scheduleChunk now d | None => skip end)
                   (fun _ => if interrupted msg then stopAllSources else skip)).
  assert (R1 : returns c1).
  { subst c1. destruct (truthy (inputTranscription msg));
      [apply voiceCommand_returns | apply returns_ret]. }
  assert (P : preserves same_mode c23).
  { subst c23. refine (preserves_bind _ _ _ _ _).
    - destruct (truthy (inlineData msg));
        [apply scheduleChunk_same_mode | refine (preserves_ret _ _)].
    - intros _. destruct (interrupted msg);
        [apply stopAllSources_same_mode | refine (preserves_ret _ _)]. }
  unfold bind at 1. rewrite (returns_exec c1 w R1). apply P.
Qed.

Lemma wakePhrase_nonempty (t : string) :
  wakePhrase (toLowerCase t) = true -> truthy (Some t) = Some t.
Proof. destruct t; [discriminate | reflexivity]. Qed.

Lemma setSleepState_leave (w : World) :
  isSleepModeRef (refs w) = true ->
  exec (setSleepState false) w
  = exec playActivationSound
      (on_ui (with_isSleepMode false) (on_refs (with_isSleepModeRef false) w)).
Proof.
  intros Ha. unfold exec, setSleepState, bind, rd, gets, wr, setIsSleepMode, modify.
  cbv beta iota. cbn [fst]. rewrite Ha. reflexivity.
Qed.

(** X2. While asleep, a transcript whose lowercased text holds a wake
    phrase wakes the session: both sleep flags are cleared and the
    activation ping is played on the output context if there is one.  The
    pending video request, the video stream and its timer are as they
    were, and what was in flight stays in flight. *)
Theorem wake_phrase_wakes (w : World) (msg : Message) (now d : Z) (t : string) :
  isSleepModeRef (refs w) = true ->
  inputTranscription msg = Some t ->
  wakePhrase (toLowerCase t) = true ->
  let w' := exec (onmessage msg now d) w in
  isSleepModeRef (refs w') = false
  /\ isSleepMode (ui w') = false
  /\ pendingAction (ui w') = pendingAction (ui w)
  /\ same_video w w'
  /\ (forall ctx, audioContextRef (refs w) = Some ctx ->
        In (ActivationPing ctx) (log (browser w')))
  /\ (interrupted msg = false ->
        forall h, In h (sourcesRef (refs w)) -> In h (sourcesRef (refs w'))).
Proof.
  intros Ha Ht Hw. cbv zeta.
  pose proof (onmessage_tail msg now d w) as Htail. cbv zeta in Htail.
  rewrite Ht, (wakePhrase_nonempty t Hw) in Htail.
  assert (E : exec (voiceCommand (toLowerCase t)) w = exec (setSleepState false) w).
  { unfold exec, voiceCommand, bind at 1, rd at 1, gets at 1. cbv beta iota.
    cbn [fst]. now rewrite Ha, Hw. }
  rewrite E, (setSleepState_leave w Ha) in Htail.
  set (w0 := on_ui (with_isSleepMode false) (on_refs (with_isSleepModeRef false) w)) in *.
  assert (E1 : exec playActivationSound w0
               = match audioContextRef (refs w) with
                 | Some ctx => on_browser (fun b => with_log (log b ++ [ActivationPing ctx]) b) w0
                 | None => w0
                 end).
  { unfold exec, playActivationSound, bind, rd, gets. cbn.
    destruct (audioContextRef (refs w)); reflexivity. }
  rewrite E1 in Htail. destruct Htail as (Hu & Hs & _ & Hv & Hl).
  split; [rewrite Hs; now destruct (audioContextRef (refs w))|].
  split; [rewrite Hu; now destruct (audioContextRef (refs w))|].
  split; [rewrite Hu; now destruct (audioContextRef (refs w))|].
  split.
  { etransitivity; [|exact Hv]. destruct (audioContextRef (refs w)); repeat split. }
  split.
  { intros ctx Hc. apply Hl. rewrite Hc. cbn. apply in_or_app. right. now left. }
  intros Hi h Hh. subst w0.
  assert (Hsrc : sourcesRef (refs (exec (onmessage msg now d) w))
                 = match truthy (inlineData msg) with
                   | Some _ => sourcesRef (refs (exec (scheduleChunk now d)
                                 (exec (setSleepState false) w)))
                   | None => sourcesRef (refs w)
                   end).
  { unfold exec at 1, onmessage, bind. rewrite Ht, (wakePhrase_nonempty t Hw), Hi.
    rewrite (returns_exec _ w (voiceCommand_returns _)), E.
    destruct (truthy (inlineData msg)).
    - rewrite (returns_exec _ _ (scheduleChunk_returns now d)). reflexivity.
    - cbn. rewrite (setSleepState_leave w Ha), E1.
      now destruct (audioContextRef (refs w)). }
  rewrite Hsrc. destruct (truthy (inlineData msg)); [|exact Hh].
  rewrite (setSleepState_leave w Ha), E1.
  unfold exec, scheduleChunk, rd, gets, bind.
  destruct (audioContextRef (refs w)) as [ctx|] eqn:Hc; cbn; rewrite ?Hc; cbn;
    [|exact Hh].
  unfold set_add. destruct (mem_handle _ _); [exact Hh | apply in_or_app; now left].
Qed.

Lemma wake_phrase_wakes_witness :
  let w' := exec (onmessage (mkMessage (Some "Oi Aura") None false) 0 0) asleep_session in
  isSleepModeRef (refs w') = false
  /\ In (ActivationPing 1%positive) (log (browser w')).
Proof.
  pose proof (wake_phrase_wakes asleep_session (mkMessage (Some "Oi Aura") None false)
                0 0 "Oi Aura" eq_refl eq_refl eq_refl) as H.
  cbv zeta in *. destruct H as (H1 & _ & _ & _ & H5 & _).
  split; [exact H1 | exact (H5 1%positive eq_refl)].
Defined.

Lemma same_or_none_trans {A} (x y z : option A) :
  y = x \/ y = None -> z = y \/ z = None -> z = x \/ z = None.
Proof. intros [->| ->] [->| ->]; auto. Qed.

#[local] Instance only_stops_video_pre : PreOrder only_stops_video.
Proof.
  split.
  - intros w. repeat split; now left.
  - intros a b c (A1 & A2 & A3 & A4) (B1 & B2 & B3 & B4).
    repeat split; eapply same_or_none_trans; eassumption.
Qed.

Ltac only_stops_leaf :=
  refine (preserves_modify _ _ _); intros ?; repeat split; now left.

Lemma stopVideoStream_only_stops : preserves only_stops_video stopVideoStream.
Proof.
  intros w. destruct (stopVideoStream_post w) as (H1 & H2 & H3 & H4 & _).
  repeat split; right; assumption.
Qed.

Lemma voiceCommand_only_stops (command : string) :
  preserves only_stops_video (voiceCommand command).
Proof.
  unfold voiceCommand, setSleepState, setIsSleepMode, setIsAiSpeaking, setPendingAction,
    stopAllSources, playActivationSound, emit, wr.
  repeat first [ exact stopVideoStream_only_stops | pres_step | only_stops_leaf ].
Qed.

(** X3. No inbound message turns video on or switches it: after any
    message the active source, the stream and the timer are as before or
    gone, and no device, context, timer or connection was acquired.
    A spoken request can at most leave a pending request behind. *)
Theorem messages_never_start_video (w : World) (msg : Message) (now d : Z) :
  let w' := exec (onmessage msg now d) w in
  only_stops_video w w' /\ quiet w w'.
Proof.
  cbv zeta. split; [|apply (onmessage_quiet msg now d w)].
  pose proof (onmessage_tail msg now d w) as Htail. cbv zeta in Htail.
  destruct Htail as (Hu & _ & _ & (_ & _ & Hf & Hs & Hv & _) & _).
  set (c1 := match truthy (inputTranscription msg) with
             | Some t => voiceCommand (toLowerCase t) | None => skip end) in *.
  assert (P : only_stops_video w (exec c1 w)).
  { subst c1. destruct (truthy (inputTranscription msg));
      [apply voiceCommand_only_stops | reflexivity]. }
  destruct P as (P1 & P2 & P3 & P4).
  unfold only_stops_video. rewrite Hu, Hf, Hs, Hv. repeat split; assumption.
Qed.

(** ** More on video toggling *)

Lemma not_active (ty : VideoType) (cur : option VideoType) :
  cur <> Some ty ->
  match cur with Some c => VideoType_eqb c ty | None => false end = false.
Proof. destruct cur as [[]|], ty; cbn; congruence. Qed.

(** What [stopVideoStream] leaves alone. *)
Lemma stopVideoStream_keeps (w : World) :
  let w' := exec stopVideoStream w in
  error (ui w') = error (ui w)
  /\ isConnected (ui w') = isConnected (ui w)
  /\ isMuted (ui w') = isMuted (ui w)
  /\ pendingAction (ui w') = pendingAction (ui w)
  /\ isSleepMode (ui w') = isSleepMode (ui w)
  /\ isSleepModeRef (refs w') = isSleepModeRef (refs w)
  /\ sessionRef (refs w') = sessionRef (refs w)
  /\ audioContextRef (refs w') = audioContextRef (refs w)
  /\ inputContextRef (refs w') = inputContextRef (refs w)
  /\ sourcesRef (refs w') = sourcesRef (refs w)
  /\ nextStartTimeRef (refs w') = nextStartTimeRef (refs w)
  /\ openContexts (browser w') = openContexts (browser w)
  /\ conns (browser w') = conns (browser w).
Proof.
  cbv zeta. unfold exec, stopVideoStream, bind, rd, gets.
  destruct w as [u [ac ic nx srcs sr asleep vs vr st fi] b].
  destruct fi, st, vr; cbn; repeat split.
Qed.

Lemma toggleVideo_rejected (ty : VideoType) (env : Env) (e : JsError) (w : World) :
  videoSourceRef (refs w) <> Some ty ->
  videoRequest env = Rejected e ->
  exec (toggleVideo ty env) w
  = exec stopVideoStream (on_ui (with_error (Some (videoErrorText e))) w).
Proof.
  intros Hv Hr. unfold exec, toggleVideo, bind at 1, rd at 1, gets at 1.
  cbv beta iota. cbn [fst]. rewrite (not_active ty _ Hv).
  unfold try_catch, bind at 1, requestStream, bind at 1. rewrite Hr. cbn [await throw].
  unfold throw. cbv beta iota. unfold bind at 1, setError, modify. reflexivity.
Qed.

(** X4. When the camera or screen request is refused, [toggleVideo]
    reports it (a permission refusal as "Permissão negada ...") and turns
    video off altogether: the source that was active before, if any, is
    stopped as well.  Nothing is acquired and the session itself is left
    as it was. *)
Theorem refused_video_request (w : World) (ty : VideoType) (env : Env) (e : JsError) :
  videoSourceRef (refs w) <> Some ty ->
  videoRequest env = Rejected e ->
  let w' := exec (toggleVideo ty env) w in
  error (ui w') = Some (videoErrorText e)
  /\ (name e = "NotAllowedError" ->
        error (ui w') = Some "Permissão negada (Navegador requer interação manual).")
  /\ videoSource (ui w') = None
  /\ videoSourceRef (refs w') = None
  /\ streamRef (refs w') = None
  /\ frameIntervalRef (refs w') = None
  /\ (forall m, streamRef (refs w) = Some m -> ~ In m (liveStreams (browser w')))
  /\ quiet w w'
  /\ isConnected (ui w') = isConnected (ui w)
  /\ sessionRef (refs w') = sessionRef (refs w).
Proof.
  intros Hv Hr. cbv zeta. rewrite (toggleVideo_rejected ty env e w Hv Hr).
  set (w1 := on_ui (with_error (Some (videoErrorText e))) w).
  destruct (stopVideoStream_post w1) as (P1 & P2 & P3 & P4 & P5 & _).
  destruct (stopVideoStream_keeps w1) as (K1 & K2 & _ & _ & _ & _ & K7 & _).
  assert (E : error (ui (exec stopVideoStream w1)) = Some (videoErrorText e))
    by (now rewrite K1).
  split; [exact E|]. split.
  { intros Hn. rewrite E. unfold videoErrorText. now rewrite Hn. }
  repeat (split; [assumption|]).
  split; [intros m Hm; now apply (P5 m)|].
  split; [|split; assumption].
  assert (Q : quiet w1 (exec stopVideoStream w1)) by apply stopVideoStream_quiet.
  exact Q.
Qed.

Lemma refused_video_request_witness :
  let env := mkEnv (Some "key") Fulfilled
               (Rejected (mkError "NotAllowedError" (Some "Permission denied")))
               Fulfilled true 0 0 in
  let w' := exec (toggleVideo screen env) camera_session in
  error (ui w') = Some "Permissão negada (Navegador requer interação manual)."
  /\ videoSourceRef (refs camera_session) = Some camera
  /\ videoSourceRef (refs w') = None
  /\ liveStreams (browser w') = [4%positive].
Proof.
  pose proof (refused_video_request camera_session screen
                (mkEnv (Some "key") Fulfilled
                   (Rejected (mkError "NotAllowedError" (Some "Permission denied")))
                   Fulfilled true 0 0)
                (mkError "NotAllowedError" (Some "Permission denied"))) as H.
  cbv zeta in *. destruct H as (_ & H2 & _ & H4 & _).
  - discriminate.
  - reflexivity.
  - split; [exact (H2 eq_refl)|]. split; [reflexivity|]. split; [exact H4 | reflexivity].
Defined.

(** X5. With a session in place, a granted request for a source that is
    not the active one switches to it: the new stream is the only one
    attached, the stream that was attached before has its tracks stopped,
    and exactly one frame timer runs, bound to the current session.  An
    earlier error message is not cleared. *)
Theorem granted_video_request (w : World) (ty : VideoType) (env : Env) (p : Handle) :
  coherent w ->
  videoSourceRef (refs w) <> Some ty ->
  videoRequest env = Fulfilled ->
  playResult env = Fulfilled ->
  canvas2d env = true ->
  sessionRef (refs w) = Some p ->
  let m := fresh (browser w) in
  let t := Pos.succ m in
  let w' := exec (toggleVideo ty env) w in
  videoSourceRef (refs w') = Some ty
  /\ videoSource (ui w') = Some ty
  /\ streamRef (refs w') = Some m
  /\ liveStreams (browser w')
     = match streamRef (refs w) with
       | Some old => remove_handle old (liveStreams (browser w) ++ [m])
       | None => liveStreams (browser w) ++ [m]
       end
  /\ frameIntervalRef (refs w') = Some t
  /\ timers (browser w') = [(t, p)]
  /\ conns (browser w') = conns (browser w)
  /\ sessionRef (refs w') = Some p
  /\ error (ui w') = error (ui w).
Proof.
  intros [Ht _] Hv Hr Hp Hc Hs. cbv zeta.
  unfold exec, toggleVideo, try_catch, requestStream, startFrameTransmission,
    setInterval, alloc, stopTracks, clearInterval, emit, bind, rd, gets, wr,
    setVideoSource, modify.
  cbn [fst]. rewrite (not_active ty _ Hv), Hr, Hp, Hc. unfold one_timer in Ht.
  destruct w as [u [ac ic nx srcs sr asleep vs vr st fi] b]. cbn in *. subst sr.
  assert (Hclr : match fi with
                 | Some t0 => filter (fun ts => negb (Pos.eqb (fst ts) t0)) (timers b) = []
                 | None => timers b = []
                 end).
  { destruct Ht as [Ht | (t' & p' & Ht & Hf)]; rewrite Ht.
    - now destruct fi.
    - subst fi. cbn. now rewrite Pos.eqb_refl. }
  destruct st as [old|], vr as [v|], fi as [t0|]; cbn;
    rewrite ?andb_false_r; cbn; rewrite ?Hclr; repeat split.
Qed.

Lemma granted_video_request_witness :
  let w' := exec (toggleVideo screen env_ok) camera_session in
  videoSourceRef (refs w') = Some screen
  /\ streamRef (refs w') = Some 7%positive
  /\ liveStreams (browser w') = [4%positive; 7%positive]
  /\ timers (browser w') = [(8%positive, 5%positive)].
Proof.
  pose proof (granted_video_request camera_session screen env_ok 5%positive) as H.
  cbv zeta in *. destruct H as (H1 & _ & H3 & H4 & _ & H6 & _).
  - exact (run_coherent _ initial initial_coherent).
  - discriminate.
  - reflexivity.
  - reflexivity.
  - reflexivity.
  - reflexivity.
  - split; [exact H1|]. split; [exact H3|]. split; [exact H4 | exact H6].
Defined.

(** X6. Asking for video when no session exists starts one; if the
    credential is missing, the stream that was just granted is stopped
    again and the component ends not started, with the error
    "API Key faltante.". *)
Theorem video_request_without_credential (w : World) (ty : VideoType) (env : Env) :
  sleep_in_sync w ->
  videoSourceRef (refs w) <> Some ty ->
  videoRequest env = Fulfilled ->
  playResult env = Fulfilled ->
  isConnected (ui w) = false ->
  sessionRef (refs w) = None ->
  truthy (API_KEY env) = None ->
  let m := fresh (browser w) in
  let w' := exec (toggleVideo ty env) w in
  error (ui w') = Some "API Key faltante."
  /\ not_started w'
  /\ In (match ty with camera => GetUserMediaVideo m | screen => GetDisplayMedia m end)
        (log (browser w'))
  /\ In (StopTracks m) (log (browser w'))
  /\ ~ In m (liveStreams (browser w'))
  /\ conns (browser w') = conns (browser w).
Proof.
  intros Hsync Hv Hr Hp Hi Hs Hk. cbv zeta.
  unfold sleep_in_sync, not_started in *.
  unfold exec, toggleVideo, connectToLive, cleanup, stopVideoStream, setSleepState,
    playActivationSound, try_catch, requestStream, alloc, stopTracks, clearInterval,
    closeContext, emit, bind, rd, gets, wr, throw, setVideoSource, setError,
    setIsConnected, setVolumeLevel, setOutputVolume, setPendingAction, setIsAiSpeaking,
    setIsSleepMode, modify.
  cbn [fst]. rewrite (not_active ty _ Hv), Hr, Hp, Hk.
  destruct w as [[conn mu vl ov vsrc er sm pa sp] [ac ic nx srcs sr asleep vs vr st fi] b].
  cbn in Hi, Hs, Hsync, Hv. subst sr conn sm.
  destruct ty, st as [old|], vr as [v|], fi as [t0|], ac, ic, asleep; cbn;
    repeat split; try assumption;
    rewrite ?in_app_iff; cbn; try tauto;
    apply remove_handle_not_in.
Qed.

Lemma video_request_without_credential_witness :
  let w' := exec (toggleVideo camera (mkEnv None Fulfilled Fulfilled Fulfilled true 0 0))
              initial in
  error (ui w') = Some "API Key faltante." /\ not_started w'
  /\ In (GetUserMediaVideo 1%positive) (log (browser w'))
  /\ ~ In 1%positive (liveStreams (browser w')).
Proof.
  pose proof (video_request_without_credential initial camera
                (mkEnv None Fulfilled Fulfilled Fulfilled true 0 0)) as H.
  cbv zeta in *. destruct H as (H1 & H2 & H3 & _ & H5 & _); try reflexivity.
  - discriminate.
  - split; [exact H1|]. split; [exact H2|]. split; [exact H3 | exact H5].
Defined.

(** ** Starting and ending a session *)

(** X7. When the microphone is refused, [connectToLive] closes the two
    audio contexts it had just created, opens no transport connection,
    reports the refusal's message (or "Falha ao iniciar sistemas." when it
    has none) and leaves the component not started. *)
Theorem microphone_refused (w : World) (env : Env) (k : string) (e : JsError) :
  sleep_in_sync w ->
  truthy (API_KEY env) = Some k ->
  micRequest env = Rejected e ->
  let c1 := fresh (browser w) in
  let c2 := Pos.succ c1 in
  let w' := exec (connectToLive env) w in
  error (ui w') = Some (or_else (message e) "Falha ao iniciar sistemas.")
  /\ not_started w'
  /\ In (NewAudioContext c1 24000) (log (browser w'))
  /\ In (NewAudioContext c2 16000) (log (browser w'))
  /\ In (CloseAudioContext c1) (log (browser w'))
  /\ In (CloseAudioContext c2) (log (browser w'))
  /\ ~ In c1 (openContexts (browser w'))
  /\ ~ In c2 (openContexts (browser w'))
  /\ conns (browser w') = conns (browser w)
  /\ incl (liveStreams (browser w')) (liveStreams (browser w)).
Proof.
  intros Hsync Hk Hr. cbv zeta.
  unfold sleep_in_sync, not_started in *.
  unfold exec, connectToLive, cleanup, stopVideoStream, setSleepState,
    playActivationSound, try_catch, newAudioContext, requestStream, alloc, stopTracks,
    clearInterval, closeContext, emit, bind, rd, gets, wr, throw, setVideoSource,
    setError, setIsConnected, setVolumeLevel, setOutputVolume, setPendingAction,
    setIsAiSpeaking, setIsSleepMode, modify.
  cbn [fst]. rewrite Hk, Hr.
  destruct w as [[conn mu vl ov vsrc er sm pa sp] [ac ic nx srcs sr asleep vs vr st fi] b].
  cbn in Hsync. subst sm.
  assert (Hrm : forall a c l, ~ In a (remove_handle c (remove_handle a l))).
  { intros a c l H. unfold remove_handle in H. apply filter_In in H as [H _].
    now apply remove_handle_not_in in H. }
  destruct st as [old|], vr as [v|], fi as [t0|], sr, asleep; cbn;
    repeat split; try assumption;
    rewrite ?in_app_iff; cbn; try tauto;
    first [ apply remove_handle_not_in | apply Hrm | apply incl_refl | apply incl_filter ].
Qed.

Lemma microphone_refused_witness :
  let env := mkEnv (Some "key") (Rejected (mkError "NotAllowedError" None))
               Fulfilled Fulfilled true 0 0 in
  let w' := exec (connectToLive env) initial in
  error (ui w') = Some "Falha ao iniciar sistemas."
  /\ not_started w'
  /\ openContexts (browser w') = [].
Proof.
  pose proof (microphone_refused initial
                (mkEnv (Some "key") (Rejected (mkError "NotAllowedError" None))
                   Fulfilled Fulfilled true 0 0)
                "key" (mkError "NotAllowedError" None) eq_refl eq_refl eq_refl) as H.
  cbv zeta in *. destruct H as (H1 & H2 & _).
  split; [exact H1|]. split; [exact H2 | reflexivity].
Defined.

(** What a successful [connectToLive] leaves. *)
Lemma connectToLive_granted (w : World) (env : Env) (k : string) :
  truthy (API_KEY env) = Some k ->
  micRequest env = Fulfilled ->
  let c1 := fresh (browser w) in
  let c2 := Pos.succ c1 in
  let mic := Pos.succ c2 in
  let p := Pos.succ mic in
  let w' := exec (connectToLive env) w in
  audioContextRef (refs w') = Some c1
  /\ inputContextRef (refs w') = Some c2
  /\ sessionRef (refs w') = Some p
  /\ log (browser w')
     = log (browser w)
       ++ [NewAudioContext c1 24000; NewAudioContext c2 16000;
           GetUserMediaAudio mic; LiveConnect p]
  /\ openContexts (browser w') = openContexts (browser w) ++ [c1; c2]
  /\ liveStreams (browser w') = liveStreams (browser w) ++ [mic]
  /\ conns (browser w')
     = conns (browser w) ++ [mkConn p c2 mic (isMuted (ui w)) false Connecting]
  /\ isConnected (ui w') = isConnected (ui w)
  /\ error (ui w') = None
  /\ timers (browser w') = timers (browser w)
  /\ fresh (browser w') = Pos.succ p.
Proof.
  intros Hk Hr. cbv zeta.
  unfold exec, connectToLive, try_catch, newAudioContext, requestStream, liveConnect,
    alloc, emit, bind, rd, gets, wr, setError, modify.
  cbn [fst]. rewrite Hk, Hr.
  destruct w as [u r b]. cbn. rewrite <- !app_assoc. repeat split.
Qed.

(** X8. With a credential and the microphone granted, [connectToLive]
    opens two audio contexts (24 kHz out, 16 kHz in), one microphone
    stream and one transport connection, and makes them the current ones.
    The connection's audio callback is given the mute flag of that moment;
    the component is not yet marked connected; an earlier error message is
    cleared.  Contexts, streams and connections that existed before are
    neither closed nor reused. *)
Theorem session_start (w : World) (env : Env) (k : string) :
  truthy (API_KEY env) = Some k ->
  micRequest env = Fulfilled ->
  let c1 := fresh (browser w) in
  let c2 := Pos.succ c1 in
  let mic := Pos.succ c2 in
  let p := Pos.succ mic in
  let w' := exec (connectToLive env) w in
  audioContextRef (refs w') = Some c1
  /\ inputContextRef (refs w') = Some c2
  /\ sessionRef (refs w') = Some p
  /\ log (browser w')
     = log (browser w)
       ++ [NewAudioContext c1 24000; NewAudioContext c2 16000;
           GetUserMediaAudio mic; LiveConnect p]
  /\ openContexts (browser w') = openContexts (browser w) ++ [c1; c2]
  /\ liveStreams (browser w') = liveStreams (browser w) ++ [mic]
  /\ conns (browser w')
     = conns (browser w) ++ [mkConn p c2 mic (isMuted (ui w)) false Connecting]
  /\ isConnected (ui w') = isConnected (ui w)
  /\ error (ui w') = None
  /\ timers (browser w') = timers (browser w)
  /\ fresh (browser w') = Pos.succ p.
Proof. exact (connectToLive_granted w env k). Qed.

Lemma session_start_witness :
  let w' := exec (connectToLive env_ok) initial in
  sessionRef (refs w') = Some 4%positive
  /\ conns (browser w') = [mkConn 4%positive 2%positive 3%positive false false Connecting]
  /\ isConnected (ui w') = false.
Proof.
  pose proof (session_start initial env_ok "key" eq_refl eq_refl) as H.
  cbv zeta in *. destruct H as (_ & _ & H3 & _ & _ & _ & H7 & H8 & _).
  split; [exact H3|]. split; [exact H7 | exact H8].
Defined.

(** X9. When the transport reports open and no input context is present
    (an open after teardown), nothing changes.  Otherwise the component
    is marked connected, one volume sample is taken if a session is
    present, and the audio callback of that connection is installed.
    Then, if the input context present is not the one the connection was
    made with, the handler fails at that point and starts no frame
    transmission; if it is, frame transmission starts exactly when a
    video stream is attached. *)
Theorem transport_open (w : World) (c : Conn) (env : Env) :
  (inputContextRef (refs w) = None -> exec (onopen c env) w = w)
  /\ (forall dest, inputContextRef (refs w) = Some dest ->
      let w' := exec (onopen c env) w in
      isConnected (ui w') = true
      /\ conns (browser w')
         = update_conn (conn_session c) conn_install (conns (browser w))
      /\ (sessionRef (refs w) <> None ->
            volumeLevel (ui w') = (inputMean env / 255)%Q
            /\ outputVolume (ui w') = (outputMean env / 255)%Q
            /\ isAiSpeaking (ui w') = negb (Qle_bool (outputMean env) 10))
      /\ (dest <> conn_inputCtx c ->
            snd (onopen c env w) = inl (mkError "InvalidAccessError" None)
            /\ timers (browser w') = timers (browser w)
            /\ frameIntervalRef (refs w') = frameIntervalRef (refs w)
            /\ log (browser w') = log (browser w))
      /\ (dest = conn_inputCtx c ->
            (streamRef (refs w) = None ->
               timers (browser w') = timers (browser w)
               /\ log (browser w') = log (browser w))
            /\ (streamRef (refs w) <> None -> canvas2d env = true ->
                coherent w ->
                timers (browser w') = [(fresh (browser w), conn_session c)]
                /\ frameIntervalRef (refs w') = Some (fresh (browser w))))).
Proof.
  split.
  - intros Hi. unfold exec, onopen, bind, rd, gets. cbn [fst]. now rewrite Hi.
  - intros dest Hi. cbv zeta.
    unfold exec, onopen, updateVolume, startFrameTransmission, setInterval,
      clearInterval, alloc, map_conn, emit, bind, rd, gets, wr, setIsConnected,
      setVolumeLevel, setOutputVolume, setIsAiSpeaking, throw, skip, ret, modify.
    destruct w as [u [ac ic nx srcs sr asleep vs vr st fi] [f oc ls tm cs lg]].
    cbn in Hi. subst ic. cbn.
    destruct (Pos.eqb_spec dest (conn_inputCtx c)) as [E|E].
    + split; [now destruct st, fi, (canvas2d env), sr|].
      split; [now destruct st, fi, (canvas2d env), sr|].
      split.
      { intros Hs. destruct sr; [|congruence].
        now destruct st, fi, (canvas2d env). }
      split; [intros N; congruence|]. intros _. split.
      * intros ->. destruct sr; cbn; now split.
      * intros Hst Hc [Ht _]. unfold one_timer in Ht. cbn in Ht. rewrite Hc.
        destruct st as [m|]; [|congruence].
        destruct Ht as [Ht | (t' & p' & Ht & Hf)]; subst tm.
        -- destruct fi, sr; cbn; now split.
        -- subst fi. destruct sr; cbn; rewrite Pos.eqb_refl; cbn; now split.
    + split; [now destruct sr|]. split; [now destruct sr|].
      split.
      { intros Hs. destruct sr; [|congruence]. cbn. now repeat split. }
      split; [|intros N; congruence]. intros _. destruct sr; cbn; now repeat split.
Qed.

Lemma transport_open_witness :
  let w := exec (connectToLive env_ok) initial in
  let c := mkConn 4%positive 2%positive 3%positive false false Connecting in
  let w' := exec (onopen c env_ok) w in
  isConnected (ui w') = true
  /\ conns (browser w') = [mkConn 4%positive 2%positive 3%positive false true Connecting]
  /\ exec (onopen c env_ok) (exec cleanup w) = exec cleanup w.
Proof.
  pose proof (transport_open (exec (connectToLive env_ok) initial)
                (mkConn 4%positive 2%positive 3%positive false false Connecting) env_ok)
    as [_ H].
  pose proof (transport_open (exec cleanup (exec (connectToLive env_ok) initial))
                (mkConn 4%positive 2%positive 3%positive false false Connecting) env_ok)
    as [H0 _].
  cbv zeta in *. destruct (H 2%positive eq_refl) as (H1 & H2 & _).
  split; [exact H1|]. split; [exact H2 | exact (H0 eq_refl)].
Defined.

(** X10. When the transport reports close or error, the component ends
    not started whichever connection reported it, acquiring nothing; on
    error the message is "Erro de conexão com Aura.", on close the
    message shown is left as it was. *)
Theorem transport_end (w : World) :
  sleep_in_sync w ->
  (let w' := exec onclose w in
   not_started w' /\ error (ui w') = error (ui w) /\ quiet w w')
  /\ (let w' := exec onerror w in
      not_started w' /\ error (ui w') = Some "Erro de conexão com Aura." /\ quiet w w')
  /\ (forall p c, find_conn p w = Some c -> conn_status c <> Terminated ->
        not_started (step w (TransportClose p))
        /\ not_started (step w (TransportError p))).
Proof.
  intros Hs. cbv zeta.
  assert (Ec : forall x, exec onclose x = exec cleanup (on_ui (with_isConnected false) x)).
  { intros x. unfold exec, onclose, bind, setIsConnected, modify. reflexivity. }
  assert (Ee : forall x, exec onerror x
                 = exec cleanup (on_ui (with_error (Some "Erro de conexão com Aura.")) x)).
  { intros x. unfold exec, onerror, bind, setError, modify. reflexivity. }
  split; [|split].
  - rewrite Ec. destruct (cleanup_post (on_ui (with_isConnected false) w) Hs)
      as (Hn & He & _).
    split; [exact Hn|]. split; [exact He|].
    exact (cleanup_quiet (on_ui (with_isConnected false) w)).
  - rewrite Ee.
    destruct (cleanup_post (on_ui (with_error (Some "Erro de conexão com Aura.")) w) Hs)
      as (Hn & He & _).
    split; [exact Hn|]. split; [exact He|].
    exact (cleanup_quiet (on_ui (with_error (Some "Erro de conexão com Aura.")) w)).
  - intros p c Hf Hst. unfold step, handler. rewrite Hf. split.
    + assert (E : exec (map_conn p (conn_set_status Terminated);; onclose) w
                  = exec onclose
                      (on_browser (fun b => with_conns
                         (update_conn p (conn_set_status Terminated) (conns b)) b) w)).
      { unfold exec, bind at 1, map_conn, modify. reflexivity. }
      destruct (conn_status c); try congruence; rewrite E, Ec;
        now apply cleanup_post.
    + destruct (conn_status c); try congruence; rewrite Ee; now apply cleanup_post.
Qed.

Lemma transport_end_witness :
  not_started (step camera_session (TransportClose 5%positive))
  /\ error (ui (exec onerror camera_session)) = Some "Erro de conexão com Aura.".
Proof.
  assert (Hs : sleep_in_sync camera_session) by (vm_compute; reflexivity).
  assert (Hf : find_conn 5%positive camera_session
               = Some (mkConn 5%positive 3%positive 4%positive false true Established))
    by (vm_compute; reflexivity).
  pose proof (transport_end camera_session Hs) as (_ & (_ & H2 & _) & H3).
  split; [|exact H2].
  refine (proj1 (H3 5%positive _ Hf _)). discriminate.
Defined.

(** ** The pending request *)

Lemma toggleVideo_returns (ty : VideoType) (env : Env) : returns (toggleVideo ty env).
Proof.
  unfold toggleVideo.
  repeat first [ apply stopVideoStream_returns | returns_step
               | progress unfold setError ].
Qed.

(** X11. Authorising a pending video request performs [toggleVideo] on
    the requested source and clears the request, also when the device is
    refused or the session cannot be started; cancelling only clears it. *)
Theorem pending_request_consumed (w : World) (env : Env) :
  (forall ty, pendingAction (ui w) = Some ty ->
     step w (ClickAuthorize env)
     = on_ui (with_pendingAction None) (exec (toggleVideo ty env) w))
  /\ pendingAction (ui (step w (ClickAuthorize env))) = None
  /\ step w ClickCancel = on_ui (with_pendingAction None) w.
Proof.
  assert (H : forall ty, pendingAction (ui w) = Some ty ->
            step w (ClickAuthorize env)
            = on_ui (with_pendingAction None) (exec (toggleVideo ty env) w)).
  { intros ty Hp. unfold step, handler. rewrite Hp.
    unfold exec at 1, bind. rewrite (returns_exec _ w (toggleVideo_returns ty env)).
    reflexivity. }
  split; [exact H|]. split; [|reflexivity].
  destruct (pendingAction (ui w)) as [ty|] eqn:Hp.
  - now rewrite (H ty eq_refl).
  - unfold step, handler. now rewrite Hp.
Qed.

Lemma pending_request_consumed_witness :
  let w := on_ui (with_pendingAction (Some camera)) awake_session in
  pendingAction (ui (step w (ClickAuthorize env_ok))) = None
  /\ step w (ClickAuthorize env_ok)
     = on_ui (with_pendingAction None) (exec (toggleVideo camera env_ok) w).
Proof.
  pose proof (pending_request_consumed
                (on_ui (with_pendingAction (Some camera)) awake_session) env_ok)
    as (H1 & H2 & _).
  cbv zeta. split; [exact H2 | exact (H1 camera eq_refl)].
Defined.

(** ** Volume meters *)

Lemma sum_bytes_bounds (data : list Z) : forall acc,
  bytes data ->
  acc <= fold_left Z.add data acc <= acc + 255 * Z.of_nat (length data).
Proof.
  induction data as [|x data IH]; intros acc Hb.
  - cbn. lia.
  - inversion Hb as [|? ? Hx Hrest]; subst. specialize (IH (acc + x) Hrest).
    cbn [fold_left length]. rewrite Nat2Z.inj_succ. lia.
Qed.

Lemma byteAverage_bounds (data : list Z) :
  bytes data -> data <> [] ->
  (0 <= byteAverage data / 255 /\ byteAverage data / 255 <= 1)%Q.
Proof.
  intros Hb Hne. unfold byteAverage.
  pose proof (sum_bytes_bounds data 0 Hb) as [Hlo Hhi].
  set (s := fold_left Z.add data 0) in *.
  assert (Hn : 0 < Z.of_nat (length data)) by (destruct data; [congruence | cbn; lia]).
  set (n := Z.of_nat (length data)) in *.
  assert (Hn' : (0 < inject_Z n)%Q) by (unfold Qlt; cbn; lia).
  split.
  - apply Qle_shift_div_l; [reflexivity|]. rewrite Qmult_0_l.
    apply Qle_shift_div_l; [exact Hn'|]. rewrite Qmult_0_l.
    unfold Qle; cbn; lia.
  - apply Qle_shift_div_r; [reflexivity|]. rewrite Qmult_1_l.
    apply Qle_shift_div_r; [exact Hn'|].
    unfold Qle, Qmult, inject_Z. cbn [Qnum Qden Pos.mul]. lia.
Qed.

Lemma byteAverage_silence (n : nat) : Qeq (byteAverage (repeat 0 (S n))) 0%Q.
Proof.
  unfold byteAverage.
  assert (E : forall k acc, fold_left Z.add (repeat 0 k) acc = acc).
  { induction k as [|k IH]; intros acc; cbn; [reflexivity | rewrite IH; lia]. }
  rewrite E. unfold Qdiv. apply Qmult_0_l.
Qed.

(** X12. With a session present, one volume sample leaves both meters
    (the mean of the analyser bytes over 255) between 0 and 1 and marks
    the assistant as speaking exactly when the output mean exceeds 10; an
    all-zero output spectrum is never taken for speech; refs and browser
    are untouched.  Without a session the sample changes nothing. *)
Theorem volume_sample (w : World) (inputData outputData : list Z) :
  (sessionRef (refs w) = None ->
     exec (updateVolumeFrom inputData outputData) w = w)
  /\ (sessionRef (refs w) <> None ->
      bytes inputData -> inputData <> [] ->
      bytes outputData -> outputData <> [] ->
      let w' := exec (updateVolumeFrom inputData outputData) w in
      (0 <= volumeLevel (ui w') /\ volumeLevel (ui w') <= 1)%Q
      /\ (0 <= outputVolume (ui w') /\ outputVolume (ui w') <= 1)%Q
      /\ (isAiSpeaking (ui w') = true <-> (10 < byteAverage outputData)%Q)
      /\ (forall n, outputData = repeat 0 (S n) -> isAiSpeaking (ui w') = false)
      /\ refs w' = refs w /\ browser w' = browser w).
Proof.
  split.
  - intros Hs. unfold exec, updateVolumeFrom, updateVolume, bind, rd, gets.
    cbn [fst]. now rewrite Hs.
  - intros Hs Hbi Hni Hbo Hno. cbv zeta.
    unfold exec, updateVolumeFrom, updateVolume, bind, rd, gets, setVolumeLevel,
      setOutputVolume, setIsAiSpeaking, modify.
    cbn [fst]. destruct (sessionRef (refs w)); [|congruence]. cbn.
    split; [now apply byteAverage_bounds|]. split; [now apply byteAverage_bounds|].
    assert (Hsp : negb (Qle_bool (byteAverage outputData) 10) = true
                  <-> (10 < byteAverage outputData)%Q).
    { rewrite negb_true_iff. split.
      - intros H. apply Qnot_le_lt. intros Hle. apply Qle_bool_iff in Hle. congruence.
      - intros H. destruct (Qle_bool (byteAverage outputData) 10) eqn:E; [|reflexivity].
        apply Qle_bool_iff in E. exfalso. now apply (Qlt_not_le _ _ H). }
    split; [exact Hsp|]. split; [|now split].
    intros n ->. apply negb_false_iff. apply Qle_bool_iff.
    apply Qle_trans with 0%Q; [|unfold Qle; cbn; lia].
    apply Qle_lteq. right. apply byteAverage_silence.
Qed.

Lemma volume_sample_witness :
  let w := exec (connectToLive env_ok) initial in
  let w' := exec (updateVolumeFrom [255; 255; 0; 0] [0; 0; 0; 0]) w in
  (0 <= volumeLevel (ui w') /\ volumeLevel (ui w') <= 1)%Q
  /\ isAiSpeaking (ui w') = false.
Proof.
  pose proof (volume_sample (exec (connectToLive env_ok) initial)
                [255; 255; 0; 0] [0; 0; 0; 0]) as [_ H].
  cbv zeta in *. destruct H as (H1 & _ & _ & H4 & _).
  - discriminate.
  - repeat constructor; lia.
  - discriminate.
  - repeat constructor; lia.
  - discriminate.
  - split; [exact H1 | exact (H4 3%nat eq_refl)].
Defined.

(** * The research service *)

Lemma findIndex_from_shift {A} (p : A -> bool) (a : list A) : forall i,
  findIndex_from p a i = -1
  \/ (i <= findIndex_from p a i < i + Z.of_nat (length a)).
Proof.
  induction a as [|x a IH]; intros i; cbn [findIndex_from length].
  - now left.
  - destruct (p x); [right; rewrite Nat2Z.inj_succ; lia|].
    destruct (IH (i + 1)) as [H|H]; [now left | right; rewrite Nat2Z.inj_succ; lia].
Qed.

(** In [pre ++ v :: rest] the first index that matches [v]'s uri is the
    position of [v] exactly when no source of [pre] has that uri. *)
Lemma findIndex_at (pre rest : list SearchResult) (v : SearchResult) :
  (findIndex (fun t => String.eqb (uri t) (uri v)) (pre ++ v :: rest)
   =? Z.of_nat (length pre))
  = negb (existsb (String.eqb (uri v)) (map uri pre)).
Proof.
  unfold findIndex.
  assert (G : forall i,
    (findIndex_from (fun t => String.eqb (uri t) (uri v)) (pre ++ v :: rest) i
     =? i + Z.of_nat (length pre))
    = negb (existsb (String.eqb (uri v)) (map uri pre))).
  { induction pre as [|x pre IH]; intros i.
    - cbn. rewrite String.eqb_refl. cbn. apply Z.eqb_eq. lia.
    - cbn [app findIndex_from length map existsb].
      rewrite (String.eqb_sym (uri v) (uri x)).
      destruct (String.eqb (uri x) (uri v)); cbn [orb negb].
      + apply Z.eqb_neq. rewrite Nat2Z.inj_succ. lia.
      + rewrite <- (IH (i + 1)). rewrite Nat2Z.inj_succ.
        f_equal. lia. }
  exact (G 0).
Qed.

Lemma existsb_ext_in_uris (u : string) (l1 l2 : list string) :
  (forall x, In x l1 <-> In x l2) ->
  existsb (String.eqb u) l1 = existsb (String.eqb u) l2.
Proof.
  intros H. apply eq_true_iff_eq. rewrite !existsb_exists. split.
  - intros (x & Hx & E). exists x. split; [now apply H | exact E].
  - intros (x & Hx & E). exists x. split; [now apply H | exact E].
Qed.

Lemma keep_first_seen_ext (l : list SearchResult) : forall s1 s2 : list string,
  (forall y, In y s1 <-> In y s2) -> keep_first s1 l = keep_first s2 l.
Proof.
  induction l as [|z l IH]; intros s1 s2 Hs; [reflexivity|].
  cbn [keep_first]. rewrite (existsb_ext_in_uris (uri z) s1 s2 Hs).
  destruct (existsb _ s2); [now apply IH|]. f_equal. apply IH.
  intros y. cbn. rewrite Hs. tauto.
Qed.

Lemma filter_indexed_keep_first (l : list SearchResult) : forall pre,
  filter_indexed
    (fun v i => findIndex (fun t => String.eqb (uri t) (uri v)) (pre ++ l) =? i)
    l (Z.of_nat (length pre))
  = keep_first (map uri pre) l.
Proof.
  induction l as [|v l IH]; intros pre; [reflexivity|].
  cbn [filter_indexed keep_first]. rewrite findIndex_at.
  assert (E : pre ++ v :: l = (pre ++ [v]) ++ l) by now rewrite <- app_assoc.
  assert (Hlen : Z.of_nat (length pre) + 1 = Z.of_nat (length (pre ++ [v]))).
  { rewrite length_app. cbn. lia. }
  rewrite E, Hlen, (IH (pre ++ [v])).
  rewrite (keep_first_seen_ext l (map uri (pre ++ [v])) (uri v :: map uri pre)).
  - destruct (existsb (String.eqb (uri v)) (map uri pre)) eqn:Hseen; cbn [negb];
      [|reflexivity].
    apply keep_first_seen_ext. apply existsb_exists in Hseen as (x & Hx & Ex).
    apply String.eqb_eq in Ex. subst x. intros y. cbn. split; [|tauto].
    intros [<-|H]; assumption.
  - intros y. rewrite map_app, in_app_iff. cbn. tauto.
Qed.

Lemma uniqueSources_keep_first (srcs : list SearchResult) :
  uniqueSources srcs = keep_first [] srcs.
Proof. exact (filter_indexed_keep_first srcs []). Qed.

Lemma keep_first_spec (l : list SearchResult) : forall seen,
  NoDup (map uri (keep_first seen l))
  /\ (forall r, In r (keep_first seen l) ->
        In r l /\ ~ In (uri r) seen)
  /\ (forall u, In u (map uri l) -> ~ In u seen -> In u (map uri (keep_first seen l))).
Proof.
  induction l as [|v l IH]; intros seen; cbn [keep_first map].
  - split; [constructor|]. split; [intros r []| intros u []].
  - destruct (existsb (String.eqb (uri v)) seen) eqn:Hs.
    + destruct (IH seen) as (N & I1 & I2).
      apply existsb_exists in Hs as (x & Hx & Ex). apply String.eqb_eq in Ex. subst x.
      split; [exact N|]. split.
      * intros r Hr. destruct (I1 r Hr). split; [now right | assumption].
      * intros u [<-|Hu] Hn; [contradiction | now apply I2].
    + destruct (IH (uri v :: seen)) as (N & I1 & I2).
      assert (Hv : ~ In (uri v) seen).
      { intros Hin. assert (existsb (String.eqb (uri v)) seen = true); [|congruence].
        apply existsb_exists. exists (uri v). split; [exact Hin | apply String.eqb_refl]. }
      split; [|split].
      * cbn. constructor; [|exact N]. intros Hin. apply in_map_iff in Hin as (r & Er & Hr).
        destruct (I1 r Hr) as [_ Hn]. apply Hn. left. now symmetry.
      * intros r [<-|Hr]; [split; [now left | exact Hv]|].
        destruct (I1 r Hr) as [Hin Hn]. split; [now right|]. intros H. apply Hn. now right.
      * intros u [<-|Hu] Hn; [now left|]. cbn.
        destruct (String.eqb_spec (uri v) u) as [E|E]; [now left | right].
        apply I2; [exact Hu|]. intros [H|H]; [contradiction | contradiction].
Qed.

(** Each kept source is the first of the list with its uri. *)
Lemma keep_first_is_first (l : list SearchResult) : forall seen r,
  In r (keep_first seen l) -> first_with (uri r) l = Some r.
Proof.
  induction l as [|v l IH]; intros seen r; cbn [keep_first]; [intros []|].
  unfold first_with. cbn [find].
  destruct (existsb (String.eqb (uri v)) seen) eqn:Hs.
  - intros Hr. destruct (keep_first_spec l seen) as (_ & I1 & _).
    destruct (I1 r Hr) as [_ Hn].
    destruct (String.eqb_spec (uri v) (uri r)) as [E|E]; [|now apply (IH seen)].
    exfalso. apply Hn. apply existsb_exists in Hs as (x & Hx & Ex).
    apply String.eqb_eq in Ex. congruence.
  - intros [<-|Hr]; [now rewrite String.eqb_refl|].
    destruct (keep_first_spec l (uri v :: seen)) as (_ & I1 & _).
    destruct (I1 r Hr) as [_ Hn].
    destruct (String.eqb_spec (uri v) (uri r)) as [E|E]; [|now apply (IH (uri v :: seen))].
    exfalso. apply Hn. now left.
Qed.

Lemma extractSources_spec (chunks : list GroundingChunk) (r : SearchResult) :
  In r (extractSources chunks)
  <-> exists chunk, In chunk chunks /\ toSource chunk = Some r.
Proof.
  induction chunks as [|c chunks IH]; cbn [extractSources].
  - split; [intros [] | intros (c & [] & _)].
  - destruct (toSource c) as [s|] eqn:E.
    + cbn [In]. rewrite IH. split.
      * intros [<-|(c' & Hc & Ec)].
        -- exists c. split; [now left | exact E].
        -- exists c'. split; [now right | exact Ec].
      * intros (c' & [<-|Hc] & Ec); [left; congruence | right; now exists c'].
    + rewrite IH. split.
      * intros (c' & Hc & Ec). exists c'. split; [now right | exact Ec].
      * intros (c' & [<-|Hc] & Ec); [congruence | now exists c'].
Qed.

Lemma toSource_some (chunk : GroundingChunk) (r : SearchResult) :
  toSource chunk = Some r ->
  uri r <> "" /\ (exists t, title r = Some t /\ t <> "")
  /\ exists w, web chunk = Some w /\ web_uri w = Some (uri r) /\ web_title w = title r.
Proof.
  unfold toSource. destruct (web chunk) as [[wu wt]|]; [|discriminate]. cbn.
  destruct wu as [[|c u]|]; cbn; try discriminate.
  destruct wt as [[|c' t]|]; cbn; try discriminate.
  intros [= <-]. cbn. split; [discriminate|].
  split; [eexists; split; [reflexivity | discriminate]|].
  eexists. repeat split.
Qed.



Lemma or_else_nonempty (s : option string) (d : string) : d <> "" -> or_else s d <> "".
Proof.
  intros Hd. unfold or_else, truthy. destruct s as [[|c s]|]; try exact Hd. discriminate.
Qed.

(** X13. The sources of a research reply have pairwise distinct uris;
    each has a non-empty uri and title taken from one grounding chunk of
    the response, and is the first extracted source with its uri; and
    every chunk that has both a non-empty uri and a non-empty title has
    its uri among them. *)
Theorem research_sources (response : GenerateResponse) (now : Z) :
  let chunks := match groundingChunks response with Some cs => cs | None => [] end in
  let m := performResearch (inr response) now in
  NoDup (map uri (shown m))
  /\ (forall r, In r (shown m) ->
        uri r <> ""
        /\ (exists t, title r = Some t /\ t <> "")
        /\ (exists chunk w, In chunk chunks /\ web chunk = Some w
              /\ web_uri w = Some (uri r) /\ web_title w = title r)
        /\ first_with (uri r) (extractSources chunks) = Some r)
  /\ (forall chunk r, In chunk chunks -> toSource chunk = Some r ->
        In (uri r) (map uri (shown m))).
Proof.
  cbv zeta. unfold performResearch, shown. cbn [sources].
  set (chunks := match groundingChunks response with Some cs => cs | None => [] end).
  rewrite uniqueSources_keep_first.
  destruct (keep_first_spec (extractSources chunks) []) as (N & I1 & I2).
  split; [exact N|]. split.
  - intros r Hr. destruct (I1 r Hr) as [Hin _].
    apply extractSources_spec in Hin as (chunk & Hc & Es).
    destruct (toSource_some chunk r Es) as (Hu & Ht & (w & Hw & Hwu & Hwt)).
    split; [exact Hu|]. split; [exact Ht|]. split.
    + exists chunk, w. repeat split; assumption.
    + now apply (keep_first_is_first _ []).
  - intros chunk r Hc Es. apply I2; [|intros []].
    apply in_map. apply extractSources_spec. now exists chunk.
Qed.

Lemma research_sources_witness :
  In "u1"
    (map uri
       (shown
          (performResearch
             (inr (mkResponse (Some "r")
                     (Some [mkGrounding (Some (mkWeb (Some "u1") (Some "t1")));
                            mkGrounding (Some (mkWeb (Some "u1") (Some "t2")))])))
             0))).
Proof.
  refine (proj2 (proj2 (research_sources
            (mkResponse (Some "r")
               (Some [mkGrounding (Some (mkWeb (Some "u1") (Some "t1")));
                      mkGrounding (Some (mkWeb (Some "u1") (Some "t2")))]))
            0))
            (mkGrounding (Some (mkWeb (Some "u1") (Some "t2"))))
            (mkResult (Some "t2") "u1") _ _).
  - right; left; reflexivity.
  - reflexivity.
Defined.

(** X14. A research reply always comes from the model, carries the given
    time and a non-empty text: a missing or empty response text is
    replaced by "Sem resultados.".  When the request fails the reply is
    the fixed error text with no sources at all. *)
Theorem research_reply (outcome : JsError + GenerateResponse) (now : Z) :
  let m := performResearch outcome now in
  role m = model
  /\ timestamp m = now
  /\ text m <> ""
  /\ (forall response, outcome = inr response ->
        truthy (response_text response) = None -> text m = "Sem resultados.")
  /\ (forall response t, outcome = inr response ->
        truthy (response_text response) = Some t -> text m = t)
  /\ (forall e, outcome = inl e ->
        sources m = None
        /\ text m = "Erro ao acessar os bancos de dados da Aura. Verifique a chave de API ou a conexão.").
Proof.
  cbv zeta. destruct outcome as [e|response]; cbn.
  - repeat split; try discriminate.
  - split; [reflexivity|]. split; [reflexivity|].
    split; [apply or_else_nonempty; discriminate|].
    split; [intros r [= <-] H; unfold or_else; now rewrite H|].
    split; [intros r t [= <-] H; unfold or_else; now rewrite H | discriminate].
Qed.

Lemma research_reply_witness :
  text (performResearch (inr (mkResponse (Some "") None)) 7) = "Sem resultados.".
Proof.
  refine (proj1 (proj2 (proj2 (proj2
            (research_reply (inr (mkResponse (Some "") None)) 7))))
            (mkResponse (Some "") None) _ _); reflexivity.
Defined.

(** * The research chat *)

Lemma takes_turns_snoc (rs : list Role) : forall next r,
  takes_turns next rs ->
  last (map Some rs) None = Some (other r) ->
  takes_turns next (rs ++ [r]).
Proof.
  induction rs as [|x rs IH]; intros next r H Hl; [discriminate|].
  cbn [takes_turns app] in *. destruct H as [Hx H]. split; [exact Hx|].
  destruct rs as [|y rs].
  - cbn in *. injection Hl as Hl. subst x. split; [|exact I].
    destruct r, next; cbn in *; congruence.
  - apply IH; [exact H | exact Hl].
Qed.

Lemma last_snoc {A} (l : list A) (x : A) : last (map Some (l ++ [x])) None = Some x.
Proof. rewrite map_app. cbn. apply last_last. Qed.

Lemma last_role (l : list ChatMessage) (m : ChatMessage) :
  last (map Some l) None = Some m ->
  last (map Some (map role l)) None = Some (role m).
Proof.
  induction l as [|a l IH]; [discriminate|].
  destruct l as [|b l]; cbn in *; [intros [= ->]; reflexivity | exact IH].
Qed.

Lemma handleSend_ok (now : Z) (c : Chat) : chat_ok c -> chat_ok (handleSend now c).
Proof.
  intros H. pose proof H as (Ht & Hf & Hl & Hb). unfold handleSend.
  destruct (isBlank (input c)) eqn:Eb; cbn [orb]; [exact H|].
  destruct (isLoading c) eqn:El; [exact H|].
  destruct (Hf eq_refl) as (Ho & m & Hm & Hr).
  split; [|split; [|split]]; cbn [messages isLoading outstanding].
  - rewrite map_app. apply takes_turns_snoc; [exact Ht|].
    cbn. rewrite (last_role _ m Hm). now rewrite Hr.
  - discriminate.
  - intros _. eexists. split; [apply last_snoc|]. cbn. rewrite Ho. now split.
  - intros x Hx Hu. apply in_app_or in Hx as [Hx|[<-|[]]]; [now apply Hb | exact Eb].
Qed.

Lemma handleSend_resume_ok (response : ChatMessage) (c : Chat) :
  role response = model -> chat_ok c -> chat_ok (handleSend_resume response c).
Proof.
  intros Hrole H. pose proof H as (Ht & Hf & Hl & Hb). unfold handleSend_resume.
  destruct (outstanding c) as [|q rest] eqn:Eo; [exact H|].
  destruct (isLoading c) eqn:El; [|destruct (Hf eq_refl); congruence].
  destruct (Hl eq_refl) as (m & Hm & Hr & Ho). injection Ho as -> ->.
  split; [|split; [|split]]; cbn [messages isLoading outstanding].
  - rewrite map_app. apply takes_turns_snoc; [exact Ht|].
    cbn. rewrite Hrole, (last_role _ m Hm). now rewrite Hr.
  - intros _. split; [reflexivity|]. eexists. split; [apply last_snoc | exact Hrole].
  - discriminate.
  - intros x Hx Hu. apply in_app_or in Hx as [Hx|[<-|[]]]; [now apply Hb | congruence].
Qed.

Lemma performResearch_role (outcome : JsError + GenerateResponse) (now : Z) :
  role (performResearch outcome now) = model.
Proof. now destruct outcome. Qed.

Lemma chatStep_ok (c : Chat) (e : ChatEvent) : chat_ok c -> chat_ok (chatStep c e).
Proof.
  intros H. destruct e as [v|now|key shift now|outcome now]; cbn [chatStep].
  - exact H.
  - destruct (isLoading c); [exact H | now apply handleSend_ok].
  - unfold handleKeyDown. destruct (_ && _); [now apply handleSend_ok | exact H].
  - apply handleSend_resume_ok; [apply performResearch_role | exact H].
Qed.

Lemma initialChat_ok (now : Z) : chat_ok (initialChat now).
Proof.
  split; [cbn; now split|]. split; [|split].
  - intros _. split; [reflexivity|]. eexists. split; reflexivity.
  - discriminate.
  - intros m [<-|[]]. discriminate.
Qed.

Lemma chatRun_ok (es : list ChatEvent) : forall c, chat_ok c -> chat_ok (chatRun es c).
Proof.
  induction es as [|e es IH]; intros c H; [exact H|].
  cbn. apply IH, chatStep_ok, H.
Qed.

(** X15. In the research chat, whatever the user types, sends and
    whatever replies arrive: the messages take turns, the model's greeting
    first; while loading exactly one query is awaited, and it is the text
    of the last message, the user's; when not loading none is awaited and
    the last message is the model's; and no message of the user is
    blank. *)
Theorem chat_takes_turns (es : list ChatEvent) (mounted : Z) :
  let c := chatRun es (initialChat mounted) in
  takes_turns model (map role (messages c))
  /\ (isLoading c = false ->
        outstanding c = []
        /\ exists m, last (map Some (messages c)) None = Some m /\ role m = model)
  /\ (isLoading c = true ->
        exists m, last (map Some (messages c)) None = Some m
                  /\ role m = user /\ outstanding c = [text m])
  /\ (forall m, In m (messages c) -> role m = user -> isBlank (text m) = false).
Proof. exact (chatRun_ok es _ (initialChat_ok mounted)). Qed.

Lemma chatStep_grows (c : Chat) (e : ChatEvent) :
  exists added, messages (chatStep c e) = messages c ++ added
                /\ (length added <= 1)%nat.
Proof.
  assert (Hs : forall now, exists added,
             messages (handleSend now c) = messages c ++ added
             /\ (length added <= 1)%nat).
  { intros now. unfold handleSend. destruct (_ || _).
    - exists []. split; [now rewrite app_nil_r | cbn; lia].
    - eexists. split; [reflexivity | cbn; lia]. }
  destruct e as [v|now|key shift now|outcome now]; cbn [chatStep].
  - exists []. split; [now rewrite app_nil_r | cbn; lia].
  - destruct (isLoading c); [exists []; split; [now rewrite app_nil_r | cbn; lia] | apply Hs].
  - unfold handleKeyDown. destruct (_ && _); [apply Hs | exists []; split; [now rewrite app_nil_r | cbn; lia]].
  - unfold handleSend_resume. destruct (outstanding c).
    + exists []. split; [now rewrite app_nil_r | cbn; lia].
    + eexists. split; [reflexivity | cbn; lia].
Qed.

Lemma chat_takes_turns_witness :
  exists m,
    last (map Some (messages (chatRun [InputChange "aura"; ClickSend 1] (initialChat 0))))
      None = Some m
    /\ role m = user
    /\ outstanding (chatRun [InputChange "aura"; ClickSend 1] (initialChat 0)) = [text m].
Proof.
  refine (proj1 (proj2 (proj2
            (chat_takes_turns [InputChange "aura"; ClickSend 1] 0))) _).
  reflexivity.
Defined.

(** X16. The chat history is append-only: every event leaves the earlier
    messages in place and adds at most one; a send with blank input or
    while a reply is awaited adds none and changes nothing. *)
Theorem chat_history_grows (c : Chat) (es : list ChatEvent) :
  (exists added, messages (chatRun es c) = messages c ++ added
                 /\ (length added <= length es)%nat)
  /\ (forall now, isBlank (input c) = true \/ isLoading c = true ->
        handleSend now c = c
        /\ chatStep c (ClickSend now) = c
        /\ chatStep c (KeyDown "Enter" false now) = c).
Proof.
  split.
  - revert c. induction es as [|e es IH]; intros c.
    + exists []. split; [now rewrite app_nil_r | cbn; lia].
    + cbn [chatRun fold_left]. destruct (chatStep_grows c e) as (a1 & E1 & L1).
      destruct (IH (chatStep c e)) as (a2 & E2 & L2).
      exists (a1 ++ a2). unfold chatRun in E2. rewrite E2, E1, <- app_assoc.
      split; [reflexivity|]. rewrite length_app. cbn. lia.
  - intros now H.
    assert (E : handleSend now c = c).
    { unfold handleSend. destruct H as [-> | ->]; [reflexivity|].
      now rewrite orb_true_r. }
    split; [exact E|]. split.
    + cbn. now destruct (isLoading c).
    + cbn. exact E.
Qed.

Lemma chat_history_grows_witness :
  chatStep (chatRun [InputChange "  "] (initialChat 0)) (ClickSend 1)
  = chatRun [InputChange "  "] (initialChat 0).
Proof.
  refine (proj1 (proj2 (proj2
            (chat_history_grows (chatRun [InputChange "  "] (initialChat 0)) []) 1 _))).
  left; reflexivity.
Defined.

(** * Further invariants of the live session *)

Lemma is_video_stream_log (m : Handle) (w : World) :
  is_video_stream m w = existsb (is_video_effect m) (log (browser w)).
Proof. reflexivity. Qed.

Lemma emit_video_ok (e : Effect) :
  (forall m, is_video_effect m e = false) -> preserves (keeps video_ok) (emit e).
Proof.
  intros He w (V1 & V2 & V3 & V4 & V5).
  assert (E : forall m, is_video_stream m (fst (emit e w)) = is_video_stream m w).
  { intros m. rewrite !is_video_stream_log. cbn. rewrite existsb_app. cbn.
    now rewrite He, !orb_false_r. }
  split; [exact V1|]. split; [exact V2|]. split; [|split].
  - intros m. rewrite E. apply V3.
  - intros m Hin. rewrite E. now apply V4.
  - intros m Hs. rewrite E. now apply V5.
Qed.

Lemma alloc_video_ok : preserves (keeps video_ok) alloc.
Proof.
  intros w (V1 & V2 & V3 & V4 & V5). unfold alloc, bind, gets, modify. cbn.
  split; [exact V1|]. split; [exact V2|]. split; [|split; assumption].
  intros m Hm. specialize (V3 m Hm). cbn. lia.
Qed.

Create HintDb video_db.

#[local] Hint Resolve alloc_video_ok : video_db.

Ltac video_emit := apply emit_video_ok; intros ?; reflexivity.

Ltac video_auto :=
  repeat first
    [ solve [auto with video_db]
    | video_emit
    | pres_step
    | progress unfold setIsConnected, setIsMuted, setVolumeLevel,
        setOutputVolume, setError, setPendingAction, setIsSleepMode,
        setIsAiSpeaking, closeContext, clearInterval, setInterval, newAudioContext,
        liveConnect, wr, map_conn, playActivationSound, stopAllSources
    | coherent_leaf ].

Lemma remove_handle_in (m h : Handle) (l : list Handle) :
  In m (remove_handle h l) -> In m l /\ m <> h.
Proof.
  unfold remove_handle. intros H. apply filter_In in H as [Hin Hne]. split; [exact Hin|].
  apply negb_true_iff, Pos.eqb_neq in Hne. exact Hne.
Qed.

(** [stopVideoStream] establishes the invariant whenever the video
    identities are below [fresh] and no live video stream is unattached. *)
Lemma stopVideoStream_restores (w : World) :
  (forall m, is_video_stream m w = true -> (m < fresh (browser w))%positive) ->
  (forall m, In m (liveStreams (browser w)) -> is_video_stream m w = true ->
     streamRef (refs w) = Some m) ->
  video_ok (fst (stopVideoStream w)).
Proof.
  intros V3 V4.
  assert (E : forall m, is_video_stream m (fst (stopVideoStream w)) = is_video_stream m w).
  { intros m. rewrite !is_video_stream_log.
    unfold stopVideoStream, bind, rd, gets.
    destruct w as [u [ac ic nx srcs sr asleep vs vr st fi] b].
    destruct fi, st, vr; cbn; rewrite ?existsb_app; cbn; now rewrite ?orb_false_r. }
  destruct (stopVideoStream_post w) as (P1 & P2 & P3 & _).
  assert (F : fresh (browser (fst (stopVideoStream w))) = fresh (browser w)).
  { unfold stopVideoStream, bind, rd, gets.
    destruct w as [u [ac ic nx srcs sr asleep vs vr st fi] b].
    destruct fi, st, vr; reflexivity. }
  assert (L : forall m, In m (liveStreams (browser (fst (stopVideoStream w)))) ->
                        In m (liveStreams (browser w)) /\ streamRef (refs w) <> Some m).
  { intros m. unfold stopVideoStream, bind, rd, gets.
    destruct w as [u [ac ic nx srcs sr asleep vs vr st fi] b].
    destruct fi as [t0|], st as [s0|], vr as [v0|]; cbn; intros Hin;
      try (apply remove_handle_in in Hin as [Hin Hne]; split; [exact Hin | congruence]);
      (split; [exact Hin | discriminate]). }
  unfold exec in *. split; [now rewrite P1, P2|]. split; [now rewrite P2, P3|].
  split; [|split].
  - intros m. rewrite E, F. apply V3.
  - intros m Hin. rewrite E. intros Hv. destruct (L m Hin) as [Hl Hne].
    exfalso. apply Hne. now apply V4.
  - intros m. rewrite P3. discriminate.
Qed.

Lemma stopVideoStream_video_ok : preserves (keeps video_ok) stopVideoStream.
Proof. intros w (_ & _ & V3 & V4 & _). now apply stopVideoStream_restores. Qed.

Lemma requestStream_mic_video_ok (o : Outcome) :
  preserves (keeps video_ok) (requestStream o GetUserMediaAudio).
Proof.
  intros w H. unfold requestStream, await, alloc, emit, bind, gets, modify.
  destruct o as [|e]; cbn; [|exact H].
  destruct H as (V1 & V2 & V3 & V4 & V5).
  destruct w as [u r [f oc ls tm cs lg]]. unfold video_ok.
  cbn [ui refs browser fresh liveStreams on_browser with_fresh with_liveStreams
       with_log log openContexts timers conns] in *.
  assert (E : forall m, is_video_stream m
                (mkWorld u r (mkBrowser (Pos.succ f) oc (ls ++ [f]) tm cs
                                (lg ++ [GetUserMediaAudio f])))
              = is_video_stream m (mkWorld u r (mkBrowser f oc ls tm cs lg))).
  { intros m. rewrite !is_video_stream_log. cbn [log browser].
    rewrite existsb_app. cbn. now rewrite orb_false_r. }
  split; [exact V1|]. split; [exact V2|]. split; [|split].
  - intros m. rewrite E. intros Hm. specialize (V3 m Hm). lia.
  - intros m Hin. rewrite E. intros Hm. apply in_app_or in Hin as [Hin|[<-|[]]].
    + now apply V4.
    + specialize (V3 f Hm). lia.
  - intros m Hs. rewrite E. destruct (V5 m Hs) as [Hin Hm]. split; [|exact Hm].
    apply in_or_app. now left.
Qed.

#[local] Hint Resolve stopVideoStream_video_ok requestStream_mic_video_ok : video_db.

Lemma setSleepState_video_ok (b : bool) : preserves (keeps video_ok) (setSleepState b).
Proof. unfold setSleepState. video_auto. Qed.

Lemma startFrameTransmission_video_ok (sp : option Handle) (env : Env) :
  preserves (keeps video_ok) (startFrameTransmission sp env).
Proof. unfold startFrameTransmission. video_auto. Qed.

#[local] Hint Resolve setSleepState_video_ok startFrameTransmission_video_ok : video_db.

Lemma cleanup_video_ok : preserves (keeps video_ok) cleanup.
Proof. unfold cleanup. video_auto. Qed.

#[local] Hint Resolve cleanup_video_ok : video_db.

Lemma connectToLive_video_ok (env : Env) : preserves (keeps video_ok) (connectToLive env).
Proof. unfold connectToLive. video_auto. Qed.

#[local] Hint Resolve connectToLive_video_ok : video_db.

Lemma connectToLive_returns (env : Env) : returns (connectToLive env).
Proof.
  unfold connectToLive.
  repeat first [ apply cleanup_returns | returns_step | progress unfold setError ].
Qed.

Lemma startFrameTransmission_returns (sp : option Handle) (env : Env) :
  returns (startFrameTransmission sp env).
Proof. unfold startFrameTransmission. returns_all. Qed.

(** A state in which a fresh video stream has just been attached in place
    of the one attached before. *)
Lemma attached_video_ok (w W : World) (ty : VideoType) :
  video_ok w ->
  let m := fresh (browser w) in
  fresh (browser W) = Pos.succ m ->
  videoSource (ui W) = Some ty ->
  videoSourceRef (refs W) = Some ty ->
  streamRef (refs W) = Some m ->
  liveStreams (browser W)
  = match streamRef (refs w) with
    | Some old => remove_handle old (liveStreams (browser w) ++ [m])
    | None => liveStreams (browser w) ++ [m]
    end ->
  (forall x, is_video_stream x W = is_video_stream x w || Pos.eqb x m) ->
  video_ok W.
Proof.
  intros (V1 & V2 & V3 & V4 & V5) m HF HU HR HS HL HV.
  assert (Hx : forall x, is_video_stream x W = true ->
                 is_video_stream x w = true \/ x = m).
  { intros x. rewrite HV. intros H. apply orb_prop in H as [H|H]; [now left | right].
    now apply Pos.eqb_eq. }
  assert (Hin : forall x, In x (liveStreams (browser W)) ->
                  (In x (liveStreams (browser w)) /\ streamRef (refs w) <> Some x)
                  \/ x = m).
  { intros x. rewrite HL. destruct (streamRef (refs w)) as [old|] eqn:Eo.
    - intros H. apply remove_handle_in in H as [H Hne].
      apply in_app_or in H as [H|[<-|[]]]; [left | now right].
      split; [exact H | congruence].
    - intros H. apply in_app_or in H as [H|[<-|[]]]; [left | now right].
      split; [exact H | discriminate]. }
  unfold video_ok. rewrite HU, HR, HS, HF.
  split; [reflexivity|]. split; [split; discriminate|]. split; [|split].
  - intros x H. destruct (Hx x H) as [H'| ->]; [specialize (V3 x H') |]; fold m; lia.
  - intros x Hl Hv. destruct (Hin x Hl) as [[Hl' Hne]| ->]; [|reflexivity].
    destruct (Hx x Hv) as [Hv'| ->]; [|reflexivity].
    exfalso. apply Hne. now apply V4.
  - intros x [= <-]. split; [|rewrite HV, Pos.eqb_refl; apply orb_true_r].
    rewrite HL. destruct (streamRef (refs w)) as [old|] eqn:Eo.
    + apply remove_handle_other; [apply in_or_app; right; now left|].
      destruct (V5 old eq_refl) as [_ Hv]. specialize (V3 old Hv). fold m in V3. lia.
    + apply in_or_app. right. now left.
Qed.

Lemma is_video_effect_call (ty : VideoType) (x m : Handle) :
  is_video_effect x (match ty with
                     | camera => GetUserMediaVideo
                     | screen => GetDisplayMedia
                     end m) = Pos.eqb x m.
Proof. now destruct ty. Qed.

Lemma toggleVideo_video_ok (ty : VideoType) (env : Env) :
  preserves (keeps video_ok) (toggleVideo ty env).
Proof.
  intros w H.
  destruct (match videoSourceRef (refs w) with
            | Some c => VideoType_eqb c ty | None => false end) eqn:Hact.
  { unfold toggleVideo, bind at 1, rd at 1, gets at 1. cbv beta iota. cbn [fst].
    rewrite Hact. now apply stopVideoStream_video_ok. }
  destruct (videoRequest env) as [|e] eqn:Hr.
  2: { assert (E : fst (toggleVideo ty env w)
                   = fst (stopVideoStream (on_ui (with_error (Some (videoErrorText e))) w))).
       { unfold toggleVideo, bind at 1, rd at 1, gets at 1. cbv beta iota. cbn [fst].
         rewrite Hact. unfold try_catch, bind at 1, requestStream, bind at 1.
         rewrite Hr. cbn [await throw]. unfold throw. cbv beta iota.
         unfold bind at 1, setError, modify. reflexivity. }
       rewrite E. apply stopVideoStream_video_ok. exact H. }
  unfold toggleVideo, bind at 1, rd at 1, gets at 1. cbv beta iota. cbn [fst].
  rewrite Hact. unfold try_catch, requestStream, alloc, stopTracks, emit, bind, rd, gets,
    wr, setVideoSource, setError, modify.
  rewrite Hr. cbn [await skip ret fst].
  assert (A : forall W, fresh (browser W) = Pos.succ (fresh (browser w)) ->
            videoSource (ui W) = Some ty -> videoSourceRef (refs W) = Some ty ->
            streamRef (refs W) = Some (fresh (browser w)) ->
            liveStreams (browser W)
            = match streamRef (refs w) with
              | Some old => remove_handle old (liveStreams (browser w) ++ [fresh (browser w)])
              | None => liveStreams (browser w) ++ [fresh (browser w)]
              end ->
            (forall x, is_video_stream x W
                       = is_video_stream x w || Pos.eqb x (fresh (browser w))) ->
            video_ok W)
    by (intros W; exact (attached_video_ok w W ty H)).
  destruct w as [u [ac ic nx srcs sr asleep vs vr st fi] [f oc ls tm cs lg]].
  cbn [ui refs browser fresh liveStreams streamRef] in A.
  destruct st as [old|], vr as [v|], (playResult env) as [|e];
    cbn -[connectToLive startFrameTransmission stopVideoStream video_ok is_video_stream];
    lazymatch goal with
    | |- context [(if ?c then connectToLive env else _) ?W] =>
        destruct c;
        [ rewrite (returns_exec _ W (connectToLive_returns env)); cbn [fst];
          apply (connectToLive_video_ok env W)
        | rewrite (returns_exec _ W (startFrameTransmission_returns None env)); cbn [fst];
          apply (startFrameTransmission_video_ok None env W) ]
    | |- video_ok (fst (stopVideoStream ?W)) =>
        apply stopVideoStream_video_ok
    end;
    (apply A; try reflexivity; intros x; rewrite !is_video_stream_log;
     cbn -[existsb is_video_effect]; rewrite !existsb_app; cbn [existsb];
     rewrite is_video_effect_call; cbn [is_video_effect];
     now rewrite ?orb_false_r).
Qed.

Lemma voiceCommand_video_ok (command : string) :
  preserves (keeps video_ok) (voiceCommand command).
Proof. unfold voiceCommand. video_auto. Qed.

Lemma scheduleChunk_video_ok (now d : Z) : preserves (keeps video_ok) (scheduleChunk now d).
Proof. unfold scheduleChunk. video_auto. Qed.

#[local] Hint Resolve toggleVideo_video_ok voiceCommand_video_ok
  scheduleChunk_video_ok : video_db.

Lemma trackEnded_video_ok (m : Handle) :
  preserves (keeps video_ok)
    (modify (on_browser (fun b => with_liveStreams (remove_handle m (liveStreams b)) b)) ;;
     stopVideoStream).
Proof.
  intros w (_ & _ & V3 & V4 & _). unfold bind, modify.
  apply stopVideoStream_restores.
  - exact V3.
  - intros x Hin Hv. cbn in Hin. apply remove_handle_in in Hin as [Hin _].
    now apply V4.
Qed.

#[local] Hint Resolve trackEnded_video_ok : video_db.

Lemma handler_video_ok (e : Event) (w0 : World) : preserves (keeps video_ok) (handler e w0).
Proof.
  destruct e; cbn [handler];
    unfold handleMainToggle, onopen, onmessage, onclose, onerror, onaudioprocess,
      updateVolume, frameTick;
    video_auto.
Qed.

Lemma run_video_ok (es : list Event) : forall w, video_ok w -> video_ok (run es w).
Proof.
  induction es as [|e es IH]; intros w H; [exact H|].
  cbn. apply IH. exact (handler_video_ok e w w H).
Qed.

Lemma initial_video_ok : video_ok initial.
Proof.
  split; [reflexivity|]. split; [split; reflexivity|].
  split; [intros m; discriminate|]. split; [intros m []| intros m; discriminate].
Qed.

(** X18. Between events the video source shown, the source ref and the
    attached stream go together; the attached stream is a live video
    stream; and no other camera or screen stream is live. *)
Theorem one_video_stream (es : list Event) :
  let w := run es initial in
  videoSource (ui w) = videoSourceRef (refs w)
  /\ (videoSourceRef (refs w) = None <-> streamRef (refs w) = None)
  /\ (forall m, In m (liveStreams (browser w)) -> is_video_stream m w = true ->
        streamRef (refs w) = Some m)
  /\ (forall m, streamRef (refs w) = Some m ->
        In m (liveStreams (browser w)) /\ is_video_stream m w = true).
Proof.
  cbv zeta. destruct (run_video_ok es initial initial_video_ok) as (V1 & V2 & _ & V4 & V5).
  repeat split; try assumption; try apply V2; apply V5; assumption.
Qed.

Lemma one_video_stream_witness :
  In 1%positive
    (liveStreams (browser (run [ClickVideo camera env_ok;
                                TransportOpen 5%positive env_ok] initial)))
  /\ is_video_stream 1%positive
       (run [ClickVideo camera env_ok; TransportOpen 5%positive env_ok] initial) = true.
Proof.
  refine (proj2 (proj2 (proj2
            (one_video_stream
               [ClickVideo camera env_ok; TransportOpen 5%positive env_ok])))
            1%positive _).
  vm_compute; reflexivity.
Defined.

(** ** Stopping a session *)

Lemma remove_handle_iff (m h : Handle) (l : list Handle) :
  In m (remove_handle h l) <-> In m l /\ m <> h.
Proof.
  split; [apply remove_handle_in|]. intros [Hin Hne].
  apply remove_handle_other; [exact Hin | congruence].
Qed.

(** [cleanup] closes the contexts the two refs name, and no other. *)
Lemma cleanup_open_contexts (w : World) (c : Handle) :
  In c (openContexts (browser (exec cleanup w)))
  <-> In c (openContexts (browser w))
      /\ audioContextRef (refs w) <> Some c
      /\ inputContextRef (refs w) <> Some c.
Proof.
  assert (E : openContexts (browser (exec cleanup w))
              = match inputContextRef (refs w) with
                | Some i => remove_handle i
                | None => fun l => l
                end
                  (match audioContextRef (refs w) with
                   | Some a => remove_handle a
                   | None => fun l => l
                   end (openContexts (browser w)))).
  { unfold exec, cleanup, stopVideoStream, setSleepState, playActivationSound,
      bind, rd, gets.
    destruct w as [u [ac ic nx srcs sr asleep vs vr st fi] b].
    destruct fi, st, vr, sr, ac, ic, asleep; reflexivity. }
  rewrite E.
  destruct (inputContextRef (refs w)) as [i|], (audioContextRef (refs w)) as [a|];
    rewrite ?remove_handle_iff; intuition congruence.
Qed.

Lemma cleanup_releases (w : World) :
  coherent w -> video_ok w ->
  let w' := exec cleanup w in
  not_started w'
  /\ timers (browser w') = []
  /\ (forall m, In m (liveStreams (browser w')) -> is_video_stream m w' = false).
Proof.
  intros [Ht Hs] Hv. cbv zeta.
  destruct (cleanup_post w Hs) as (Hn & _).
  split; [exact Hn|]. split.
  - pose proof (cleanup_coherent w (conj Ht Hs)) as [[H|(t & p & _ & Hf)] _]; [exact H|].
    destruct Hn as (_ & _ & _ & _ & _ & Hfi & _). unfold exec in Hfi. congruence.
  - intros m Hin. destruct (is_video_stream m (exec cleanup w)) eqn:Ev; [|reflexivity].
    pose proof (cleanup_video_ok w Hv) as (_ & _ & _ & V4 & _).
    specialize (V4 m Hin Ev). destruct Hn as (_ & _ & _ & _ & Hst & _).
    unfold exec in Hst. congruence.
Qed.

(** X19. Pressing the main button while connected leaves the component
    not started, with no frame timer installed and no camera or screen
    stream live, and acquires nothing.  It closes the audio contexts that
    the two refs name at that moment and no other: a context of an
    earlier start that the refs no longer name stays open.  The transport
    connections and their audio callbacks are left as they were. *)
Theorem stop_releases (es : list Event) (env : Env) :
  let w := run es initial in
  isConnected (ui w) = true ->
  let w' := step w (ClickMain env) in
  not_started w'
  /\ timers (browser w') = []
  /\ (forall m, In m (liveStreams (browser w')) -> is_video_stream m w' = false)
  /\ (forall c, In c (openContexts (browser w'))
                <-> In c (openContexts (browser w))
                    /\ audioContextRef (refs w) <> Some c
                    /\ inputContextRef (refs w) <> Some c)
  /\ conns (browser w') = conns (browser w)
  /\ quiet w w'.
Proof.
  cbv zeta. intros Hc.
  pose proof (run_coherent es initial initial_coherent) as Hco.
  pose proof (run_video_ok es initial initial_video_ok) as Hv.
  revert Hc Hco Hv. generalize (run es initial). intros w Hc Hco Hv.
  assert (E : step w (ClickMain env) = exec cleanup w).
  { unfold step, handler, handleMainToggle, exec, bind, gets. cbn [fst]. now rewrite Hc. }
  rewrite E. destruct (cleanup_releases w Hco Hv) as (H1 & H2 & H3).
  pose proof (cleanup_quiet w) as Hq.
  repeat (split; [assumption|]).
  split; [intros c; apply cleanup_open_contexts|].
  split; [exact (proj1 (proj2 Hq)) | exact Hq].
Qed.

Lemma stop_releases_witness :
  isConnected
    (ui (run [ClickMain env_ok; ClickMain env_ok; TransportOpen 4%positive env_ok]
           initial)) = true
  /\ timers
       (browser
          (step (run [ClickMain env_ok; ClickMain env_ok; TransportOpen 4%positive env_ok]
                   initial) (ClickMain env_ok))) = []
  /\ In 1%positive
       (openContexts
          (browser
             (step (run [ClickMain env_ok; ClickMain env_ok;
                         TransportOpen 4%positive env_ok] initial) (ClickMain env_ok)))).
Proof.
  assert (Hc : isConnected
                 (ui (run [ClickMain env_ok; ClickMain env_ok;
                           TransportOpen 4%positive env_ok] initial)) = true)
    by (vm_compute; reflexivity).
  split; [exact Hc|].
  destruct (stop_releases
              [ClickMain env_ok; ClickMain env_ok; TransportOpen 4%positive env_ok]
              env_ok Hc) as (_ & H2 & _ & H4 & _).
  split; [exact H2|]. apply H4.
  split; [|split]; vm_compute; [now left | discriminate | discriminate].
Defined.

(** ** Deduplication, once more *)

Lemma existsb_uri_false (u : string) (seen : list string) :
  ~ In u seen -> existsb (String.eqb u) seen = false.
Proof.
  intros Hn. destruct (existsb (String.eqb u) seen) eqn:E; [|reflexivity].
  apply existsb_exists in E as (y & Hy & Ey). apply String.eqb_eq in Ey. now subst.
Qed.

Lemma keep_first_distinct (l : list SearchResult) : forall seen,
  NoDup (map uri l) -> (forall u, In u (map uri l) -> ~ In u seen) ->
  keep_first seen l = l.
Proof.
  induction l as [|v l IH]; intros seen Hd Hs; [reflexivity|].
  cbn [keep_first]. cbn [map] in Hd, Hs. inversion Hd as [|? ? Hv Hl]; subst.
  rewrite existsb_uri_false by (apply Hs; now left).
  f_equal. apply IH; [exact Hl|].
  intros u Hu [E|Hin]; [now subst | exact (Hs u (or_intror Hu) Hin)].
Qed.

(** X20. The deduplication of sources leaves a list whose uris are
    pairwise distinct as it is, so that applying it a second time changes
    nothing. *)
Theorem dedupe_stable (l : list SearchResult) :
  (NoDup (map uri l) -> uniqueSources l = l)
  /\ uniqueSources (uniqueSources l) = uniqueSources l.
Proof.
  assert (H : forall k, NoDup (map uri k) -> uniqueSources k = k).
  { intros k Hk. rewrite uniqueSources_keep_first.
    apply keep_first_distinct; [exact Hk | intros u _ []]. }
  split; [apply H|]. apply H. rewrite uniqueSources_keep_first.
  exact (proj1 (keep_first_spec l [])).
Qed.

Lemma dedupe_stable_witness :
  uniqueSources [mkResult (Some "a") "u1"; mkResult (Some "b") "u2"]
  = [mkResult (Some "a") "u1"; mkResult (Some "b") "u2"].
Proof.
  apply (proj1 (dedupe_stable
                  [mkResult (Some "a") "u1"; mkResult (Some "b") "u2"])).
  cbn [map uri]. repeat constructor; cbn; intuition discriminate.
Defined.
